(** * cougar: candidate resolution and spec normalisation (api/api.py)

    A shallow embedding of the enrichment core of [api/api.py]: the unit
    parsers, the Wikidata quantity-claim extractor, the TTL cache, the
    candidate scorer and the [/cars] endpoint, followed by the properties
    the specification states about them.

    Conventions of the embedding.
    - A Python [str] is a list of Unicode code points ([list N]).
    - A Python [dict] is an insertion-ordered association list with unique
      keys, updated in place.
    - A Python [float] is an exact rational, or one of [inf], [-inf],
      [nan].  An operation overflows to an infinity when its exact result
      leaves the range of binary64; the rounding error of binary64 is not
      modelled, so a result agrees with Python wherever the exact value
      does not sit within representation error of a rounding tie or of
      the overflow threshold.
    - Code that can raise returns a [result]; [try/except Exception] is
      [catch].
    - The network, the clock and the two JSON files are a [World] record
      and an explicit cache store. *)

From Stdlib Require Import String Ascii.
From Stdlib Require Import List ZArith NArith QArith Qround Bool Lia Lqa Permutation.
Import ListNotations.
Local Open Scope Z_scope.

(** ** Strings *)

Definition str := list N.

Definition str_eq_dec : forall a b : str, {a = b} + {a <> b} :=
  list_eq_dec N.eq_dec.

Definition str_eqb (a b : str) : bool :=
  if str_eq_dec a b then true else false.

(** Decoding of the UTF-8 bytes of a literal into code points, so that the
    literals of the source can be written as they stand. *)
Fixpoint utf8_decode (bs : list N) : str :=
  match bs with
  | [] => []
  | b :: r =>
      if (b <? 128)%N then b :: utf8_decode r
      else if (b <? 224)%N then
        match r with
        | b1 :: r1 => ((b - 192) * 64 + (b1 - 128))%N :: utf8_decode r1
        | _ => [b]
        end
      else if (b <? 240)%N then
        match r with
        | b1 :: b2 :: r2 =>
            ((b - 224) * 4096 + (b1 - 128) * 64 + (b2 - 128))%N :: utf8_decode r2
        | _ => [b]
        end
      else
        match r with
        | b1 :: b2 :: b3 :: r3 =>
            ((b - 240) * 262144 + (b1 - 128) * 4096 + (b2 - 128) * 64 + (b3 - 128))%N
              :: utf8_decode r3
        | _ => [b]
        end
  end.

Definition utf8 (s : string) : str :=
  utf8_decode (map N_of_ascii (list_ascii_of_string s)).

Notation "'py:' s" := (utf8 s%string) (at level 1, s at level 0, only parsing).

(** The tables of the Unicode database the interpreter consults: [\d] and
    [\w] of [re] on [str] patterns, [str.lower], and the equality of a
    pattern character and a text character under [re.IGNORECASE]. *)
Class Unicode : Type := {
  uc_isdigit : N -> bool;
  uc_isword : N -> bool;
  uc_lower : N -> list N;
  uc_ieq : N -> N -> bool
}.

Definition between (lo hi c : N) : bool := ((lo <=? c) && (c <=? hi))%N.

Definition ascii_lower (c : N) : N :=
  if between 65 90 c then (c + 32)%N else c.

(** White space ([str.isspace], [\s]): the whole set. *)
Definition py_isspace (c : N) : bool :=
  between 9 13 c || between 28 32 c || (c =? 133)%N || (c =? 160)%N
  || (c =? 5760)%N || between 8192 8202 c || (c =? 8232)%N || (c =? 8233)%N
  || (c =? 8239)%N || (c =? 8287)%N || (c =? 12288)%N.

(** The tables restricted to ASCII: code points above 127 are caseless and
    neither digits nor word characters. *)
#[export] Instance basic_tables : Unicode := {|
  uc_isdigit c := between 48 57 c;
  uc_isword c :=
    between 48 57 c || between 65 90 c || between 97 122 c || (c =? 95)%N;
  uc_lower c := [ascii_lower c];
  uc_ieq a b := (ascii_lower a =? ascii_lower b)%N
|}.

Section Strings.
Context {U : Unicode}.

(** [s.lower()] *)
Definition lower (s : str) : str := flat_map uc_lower s.

(** [s.replace(c, '')] for a one-character [c] *)
Definition remove_char (c : N) (s : str) : str :=
  filter (fun x => negb (x =? c)%N) s.

(** [s.lstrip(c)] for a one-character [c] *)
Fixpoint lstrip (c : N) (s : str) : str :=
  match s with
  | x :: r => if (x =? c)%N then lstrip c r else s
  | [] => []
  end.

(** [s.rstrip(c)] *)
Definition rstrip (c : N) (s : str) : str := rev (lstrip c (rev s)).

(** [s.strip()] *)
Fixpoint lstrip_space (s : str) : str :=
  match s with
  | x :: r => if py_isspace x then lstrip_space r else s
  | [] => []
  end.

Definition strip (s : str) : str :=
  rev (lstrip_space (rev (lstrip_space s))).

(** [s.startswith(p)] *)
Fixpoint startswith (p s : str) : bool :=
  match p, s with
  | [], _ => true
  | a :: p', b :: s' => (a =? b)%N && startswith p' s'
  | _ :: _, [] => false
  end.

(** [p in s] on strings *)
Fixpoint contains (p s : str) : bool :=
  startswith p s ||
  match s with
  | [] => false
  | _ :: s' => contains p s'
  end.

(** [s.rsplit(c, 1)[-1]]: what follows the last [c], or all of [s] *)
Fixpoint after_last (c : N) (s : str) : str :=
  match s with
  | [] => []
  | x :: r =>
      if existsb (fun y => (y =? c)%N) r then after_last c r
      else if (x =? c)%N then r else s
  end.

(** [sep.join(parts)] *)
Fixpoint join (sep : str) (parts : list str) : str :=
  match parts with
  | [] => []
  | [p] => p
  | p :: ps => p ++ sep ++ join sep ps
  end.

(** [s.replace(a, b)] for a one-character [a] *)
Definition replace_char (a : N) (b : str) (s : str) : str :=
  flat_map (fun x => if (x =? a)%N then b else [x]) s.
End Strings.

(** ** Exceptions *)

Inductive exn : Type :=
| ValueError | AttributeError | OverflowError | UnboundLocalError
| TypeError | KeyError | IndexError.

Inductive result (A : Type) : Type :=
| Ok (a : A)
| Raise (e : exn).
Arguments Ok {A} a.
Arguments Raise {A} e.

Definition bind {A B} (c : result A) (k : A -> result B) : result B :=
  match c with
  | Ok a => k a
  | Raise e => Raise e
  end.

Notation "x <- c ;; k" := (bind c (fun x => k))
  (at level 61, c at next level, right associativity).

(** [try: c  except Exception: h] *)
Definition catch {A} (c : result A) (h : A) : A :=
  match c with
  | Ok a => a
  | Raise _ => h
  end.

Fixpoint mapM {A B} (f : A -> result B) (l : list A) : result (list B) :=
  match l with
  | [] => Ok []
  | x :: r => y <- f x ;; ys <- mapM f r ;; Ok (y :: ys)
  end.

(** ** Dictionaries *)

Definition dict (V : Type) := list (str * V).

Section Dict.
Context {V : Type}.

(** [d.get(k)] *)
Fixpoint dict_get (k : str) (d : dict V) : option V :=
  match d with
  | [] => None
  | (k', v) :: r => if str_eq_dec k k' then Some v else dict_get k r
  end.

(** [k in d] *)
Definition dict_has (k : str) (d : dict V) : bool :=
  match dict_get k d with Some _ => true | None => false end.

(** [d[k] = v] *)
Fixpoint dict_set (k : str) (v : V) (d : dict V) : dict V :=
  match d with
  | [] => [(k, v)]
  | (k', v') :: r =>
      if str_eq_dec k k' then (k', v) :: r else (k', v') :: dict_set k v r
  end.

(** [d[k]] *)
Definition dict_item (k : str) (d : dict V) : result V :=
  match dict_get k d with
  | Some v => Ok v
  | None => Raise KeyError
  end.

(** [d.update(e)] *)
Definition dict_update (d e : dict V) : dict V :=
  fold_left (fun acc kv => dict_set (fst kv) (snd kv) acc) e d.

(** [list(d.keys())] *)
Definition dict_keys (d : dict V) : list str := map fst d.
End Dict.

(** ** Floats *)

Inductive pyfloat : Type :=
| Fin (q : Q)
| PInf
| NInf
| NaN.

(** The least magnitude that rounds to an infinity: [2^1024 - 2^970],
    half an ulp above the largest binary64 number *)
Definition DBL_LIMIT : Q := inject_Z (2 ^ 1024 - 2 ^ 970).

(** The float for the exact value [q] *)
Definition fin (q : Q) : pyfloat :=
  if Qle_bool DBL_LIMIT q then PInf
  else if Qle_bool q (- DBL_LIMIT) then NInf
  else Fin (Qred q).

(** A decimal literal: [dec m k] is [m / 10^k]. *)
Definition dec (m : Z) (k : nat) : pyfloat :=
  fin (inject_Z m / inject_Z (10 ^ Z.of_nat k)).

(** [x < y] *)
Definition pf_ltb (x y : pyfloat) : bool :=
  match x, y with
  | NaN, _ | _, NaN => false
  | Fin a, Fin b => match Qcompare a b with Lt => true | _ => false end
  | NInf, NInf => false
  | NInf, _ => true
  | _, NInf => false
  | PInf, _ => false
  | Fin _, PInf => true
  end.

(** [x == y] *)
Definition pf_eqb (x y : pyfloat) : bool :=
  match x, y with
  | Fin a, Fin b => Qeq_bool a b
  | PInf, PInf | NInf, NInf => true
  | _, _ => false
  end.

(** [x + y] *)
Definition pf_add (x y : pyfloat) : pyfloat :=
  match x, y with
  | NaN, _ | _, NaN => NaN
  | Fin a, Fin b => fin (a + b)
  | PInf, NInf | NInf, PInf => NaN
  | PInf, _ | _, PInf => PInf
  | NInf, _ | _, NInf => NInf
  end.

(** [x * c] and [x / c] for a positive finite constant [c] *)
Definition pf_mulc (x : pyfloat) (c : Q) : pyfloat :=
  match x with Fin a => fin (a * c) | _ => x end.

Definition pf_divc (x : pyfloat) (c : Q) : pyfloat :=
  match x with Fin a => fin (a / c) | _ => x end.

(** Rounding of a rational to the nearest integer, ties to even. *)
Definition round_half_even (q : Q) : Z :=
  let f := Qfloor q in
  match Qcompare (q - inject_Z f) (1 # 2) with
  | Lt => f
  | Gt => f + 1
  | Eq => if Z.even f then f else f + 1
  end.

(** [round(x, n)] *)
Definition py_round (x : pyfloat) (n : nat) : pyfloat :=
  match x with
  | Fin a =>
      let p := inject_Z (10 ^ Z.of_nat n) in
      fin (inject_Z (round_half_even (a * p)) / p)
  | _ => x
  end.

(** [int(round(x))] *)
Definition py_int_round (x : pyfloat) : result Z :=
  match x with
  | Fin a => Ok (round_half_even a)
  | PInf | NInf => Raise OverflowError
  | NaN => Raise ValueError
  end.

(** [min(l)], [max(l)] and [sum(l)] of the built-ins, on a list the caller
    has found non-empty *)
Definition py_min (l : list pyfloat) : pyfloat :=
  match l with
  | [] => NaN
  | x :: r => fold_left (fun cur item => if pf_ltb item cur then item else cur) r x
  end.

Definition py_max (l : list pyfloat) : pyfloat :=
  match l with
  | [] => NaN
  | x :: r => fold_left (fun cur item => if pf_ltb cur item then item else cur) r x
  end.

Definition py_sum (l : list pyfloat) : pyfloat :=
  fold_left pf_add l (Fin 0).

(** [sum(l) / len(l)], also on a non-empty list only *)
Definition py_avg (l : list pyfloat) : pyfloat :=
  pf_divc (py_sum l) (inject_Z (Z.of_nat (length l))).

(** [list(dict.fromkeys(l))]: first occurrences, in order *)
Fixpoint fromkeys_aux (seen l : list pyfloat) : list pyfloat :=
  match l with
  | [] => []
  | x :: r =>
      if existsb (pf_eqb x) seen then fromkeys_aux seen r
      else x :: fromkeys_aux (x :: seen) r
  end.

Definition fromkeys (l : list pyfloat) : list pyfloat := fromkeys_aux [] l.

(** [float(s)] on a string: surrounding white space, a sign, then [inf],
    [infinity], [nan], or a decimal number with an optional exponent, the
    digits possibly separated by single underscores.  [None] stands for
    [ValueError].  Decimal digits other than the ASCII ones, which [float]
    accepts as well, are outside the model. *)
Definition is_dec (c : N) : bool := between 48 57 c.

Fixpoint digit_run (s : str) : list N * str :=
  match s with
  | c :: r =>
      if is_dec c then let (ds, t) := digit_run r in (c :: ds, t)
      else if (c =? 95)%N then
        match r with
        | d :: r' =>
            if is_dec d then let (ds, t) := digit_run r' in (d :: ds, t)
            else ([], s)
        | [] => ([], s)
        end
      else ([], s)
  | [] => ([], [])
  end.

Definition digitpart (s : str) : option (list N * str) :=
  match s with
  | c :: r => if is_dec c then let (ds, t) := digit_run r in Some (c :: ds, t) else None
  | [] => None
  end.

Definition digits_value (ds : list N) : Z :=
  fold_left (fun a d => 10 * a + Z.of_N (d - 48)) ds 0.

(** [number ::= [digitpart] "." digitpart | digitpart ["."]]: the digits
    of the mantissa, the number of those after the point, and the rest. *)
Definition parse_mantissa (s : str) : option (list N * nat * str) :=
  match s with
  | c :: r =>
      if (c =? 46)%N then
        match digitpart r with
        | Some (fs, t) => Some (fs, List.length fs, t)
        | None => None
        end
      else
        match digitpart s with
        | Some (ds, t) =>
            match t with
            | c' :: t' =>
                if (c' =? 46)%N then
                  match digitpart t' with
                  | Some (fs, t'') => Some (ds ++ fs, List.length fs, t'')
                  | None => Some (ds, O, t')
                  end
                else Some (ds, O, t)
            | [] => Some (ds, O, t)
            end
        | None => None
        end
  | [] => None
  end.

(** An optional sign: whether it is a minus, and what follows it *)
Definition split_sign (s : str) : bool * str :=
  match s with
  | c :: r =>
      if (c =? 43)%N then (false, r)
      else if (c =? 45)%N then (true, r)
      else (false, s)
  | [] => (false, s)
  end.

(** [exponent ::= ("e" | "E") ["+" | "-"] digitpart], up to the end *)
Definition parse_exponent (s : str) : option Z :=
  match s with
  | [] => Some 0
  | c :: r =>
      if (c =? 101)%N || (c =? 69)%N then
        let (neg, r') := split_sign r in
        match digitpart r' with
        | Some (ds, []) => Some (if neg then - digits_value ds else digits_value ds)
        | _ => None
        end
      else None
  end.

Definition pow10 (e : Z) : Q :=
  if e <? 0 then (1 / inject_Z (10 ^ (- e)))%Q else inject_Z (10 ^ e).

Definition float_of_str (s : str) : option pyfloat :=
  let s1 := strip s in
  let (neg, s2) := split_sign s1 in
  let w := map ascii_lower s2 in
  if str_eqb w py:"inf" || str_eqb w py:"infinity" then
    Some (if neg then NInf else PInf)
  else if str_eqb w py:"nan" then Some NaN
  else
    match parse_mantissa s2 with
    | Some (ds, k, t) =>
        match parse_exponent t with
        | Some e =>
            let q := (inject_Z (digits_value ds) * pow10 (e - Z.of_nat k))%Q in
            Some (fin (if neg then (- q)%Q else q))
        | None => None
        end
    | None => None
    end.

(** ** Values *)

#[local] Set Warnings "-register-all".

Inductive pyval : Type :=
| VNone
| VBool (b : bool)
| VInt (z : Z)
| VFloat (f : pyfloat)
| VStr (s : str)
| VList (l : list pyval)
| VDict (d : list (str * pyval)).

(** Truth value of an object in a condition *)
Definition truthy (v : pyval) : bool :=
  match v with
  | VNone => false
  | VBool b => b
  | VInt z => negb (z =? 0)
  | VFloat f => negb (pf_eqb f (Fin 0))
  | VStr s => match s with [] => false | _ => true end
  | VList l => match l with [] => false | _ => true end
  | VDict d => match d with [] => false | _ => true end
  end.

(** A number used as a float operand *)
Definition as_float (v : pyval) : result pyfloat :=
  match v with
  | VFloat f => Ok f
  | VInt z => Ok (fin (inject_Z z))
  | VBool b => Ok (fin (if b then 1 else 0))
  | _ => Raise TypeError
  end.

Notation "d |> f" := (f d) (at level 45, left associativity, only parsing).

Definition setf (k : str) (x : pyfloat) (d : dict pyval) : dict pyval :=
  dict_set k (VFloat x) d.

Definition seti (k : str) (z : Z) (d : dict pyval) : dict pyval :=
  dict_set k (VInt z) d.

(** ** Regular expressions

    The fragment of [re] the source uses, with the matching order of a
    backtracking engine: alternatives left to right, repetitions greedy.
    Every repetition in the source is over a single-character class. *)

Inductive regex : Type :=
| Eps
| Lit (c : N)
| Cls (p : N -> bool)
| Cat (a b : regex)
| Alt (a b : regex)
| Opt (a : regex)
| Star (p : N -> bool)
| Grp (a : regex).

Section Regex.
Context {U : Unicode}.
(** [flags=re.I] *)
Variable icase : bool.

Definition lit_eq (c x : N) : bool :=
  if icase then uc_ieq c x else (c =? x)%N.

Fixpoint star_match {A} (p : N -> bool) (s : str) (k : str -> option A) : option A :=
  match s with
  | c :: r =>
      if p c then
        match star_match p r k with
        | Some x => Some x
        | None => k s
        end
      else k s
  | [] => k s
  end.

(** [rmatch r s caps k]: match [r] at the head of [s], then continue
    with [k] on what is left and on the groups captured so far; [None]
    makes the engine backtrack. *)
Fixpoint rmatch {A} (r : regex) (s : str) (caps : list str)
    (k : str -> list str -> option A) : option A :=
  match r with
  | Eps => k s caps
  | Lit c =>
      match s with
      | x :: s' => if lit_eq c x then k s' caps else None
      | [] => None
      end
  | Cls p =>
      match s with
      | x :: s' => if p x then k s' caps else None
      | [] => None
      end
  | Cat a b => rmatch a s caps (fun s' caps' => rmatch b s' caps' k)
  | Alt a b =>
      match rmatch a s caps k with
      | Some x => Some x
      | None => rmatch b s caps k
      end
  | Opt a =>
      match rmatch a s caps k with
      | Some x => Some x
      | None => k s caps
      end
  | Star p => star_match p s (fun s' => k s' caps)
  | Grp a =>
      rmatch a s caps
        (fun s' caps' => k s' (caps' ++ [firstn (List.length s - List.length s') s]))
  end.

(** The match of [r] that starts at the head of [s]: its text and its
    groups. *)
Definition match_here (r : regex) (s : str) : option (str * list str) :=
  rmatch r s []
    (fun s' caps => Some (firstn (List.length s - List.length s') s, caps)).

(** The non-overlapping matches of [r] in [s], left to right; [skip]
    counts the characters of the last match still to pass over.  (An
    empty match at the very end of the text is not reported; no pattern
    of the source matches the empty string.) *)
Fixpoint matches_from (r : regex) (skip : nat) (s : str) : list (str * list str) :=
  match s with
  | [] => []
  | _ :: s' =>
      match skip with
      | S n => matches_from r n s'
      | O =>
          match match_here r s with
          | Some (m, caps) => (m, caps) :: matches_from r (List.length m - 1) s'
          | None => matches_from r O s'
          end
      end
  end.

(** [re.findall] for a pattern without group, with one, with two *)
Definition findall0 (r : regex) (s : str) : list str :=
  map fst (matches_from r O s).

Definition findall1 (r : regex) (s : str) : list str :=
  map (fun m => hd [] (snd m)) (matches_from r O s).

Definition findall2 (r : regex) (s : str) : list (str * str) :=
  map (fun m => (nth 0 (snd m) [], nth 1 (snd m) [])) (matches_from r O s).

(** [re.search(r, s)] as a condition *)
Definition re_search (r : regex) (s : str) : bool :=
  match matches_from r O s with [] => false | _ => true end.
End Regex.

(** A literal string as a pattern, and an alternation [(?:a|b|...)] *)
Definition lits (s : str) : regex :=
  fold_right (fun c r => Cat (Lit c) r) Eps s.

Fixpoint alts (l : list regex) : regex :=
  match l with
  | [] => Cls (fun _ => false)
  | [r] => r
  | r :: l' => Alt r (alts l')
  end.

(** The numeric token, captured: an ASCII digit, then any run of digits,
    commas, dots and U+202F *)
Definition num_rest (c : N) : bool :=
  between 48 57 c || (c =? 44)%N || (c =? 46)%N || (c =? 8239)%N.

Definition NUM : regex := Grp (Cat (Cls (between 48 57)) (Star num_rest)).

(** [NUM\s*(?:unit|...)] *)
Definition num_unit (units : list regex) : regex :=
  Cat NUM (Cat (Star py_isspace) (alts units)).

(** [\w+] and [\d] *)
Definition re_word {U : Unicode} : regex := Cat (Cls uc_isword) (Star uc_isword).
Definition re_digit {U : Unicode} : regex := Cls uc_isdigit.

Definition cats (l : list regex) : regex :=
  fold_right Cat Eps l.

(** ** Unit parsers *)

Section Parsers.
Context {U : Unicode}.

(** [to_num], the same local function in each parser *)
Definition to_num (s : str) : result pyfloat :=
  match float_of_str (remove_char 8239 (remove_char 44 s)) with
  | Some x => Ok x
  | None => Raise ValueError
  end.

Definition getf (k : str) (d : dict pyval) : result pyfloat :=
  v <- dict_item k d ;; as_float v.

Definition is_empty {A} (l : list A) : bool :=
  match l with [] => true | _ => false end.

Definition KW_PER_HP : Q := 134102 # 100000.
Definition LB_PER_KG : Q := 220462 # 100000.
Definition LBFT_PER_NM : Q := 737562 # 1000000.

Definition re_kw : regex := num_unit [lits py:"kW"].
Definition re_hp : regex := num_unit [lits py:"hp"; lits py:"PS"; lits py:"ps"].

Definition _parse_power (text : str) : result (dict pyval) :=
  let out : dict pyval := [] in
  if is_empty text then Ok out else
  kws <- mapM to_num (findall1 true re_kw text) ;;
  hps <- mapM to_num (findall1 true re_hp text) ;;
  let out :=
    if negb (is_empty kws) then
      out |> setf py:"power_kw_min" (py_round (py_min kws) 1)
          |> setf py:"power_kw_max" (py_round (py_max kws) 1)
          |> setf py:"power_kw_avg" (py_round (py_avg kws) 1)
    else out in
  let out :=
    if negb (is_empty hps) then
      out |> setf py:"power_hp_min" (py_round (py_min hps) 1)
          |> setf py:"power_hp_max" (py_round (py_max hps) 1)
          |> setf py:"power_hp_avg" (py_round (py_avg hps) 1)
    else out in
  if dict_has py:"power_hp_max" out && dict_has py:"power_kw_max" out then
    v <- dict_item py:"power_hp_max" out ;;
    let out := dict_set py:"power_hp" v out in
    v <- dict_item py:"power_kw_max" out ;;
    Ok (dict_set py:"power_kw" v out)
  else if dict_has py:"power_hp_max" out then
    v <- dict_item py:"power_hp_max" out ;;
    let out := dict_set py:"power_hp" v out in
    x <- getf py:"power_hp" out ;;
    Ok (out |> setf py:"power_kw" (py_round (pf_divc x KW_PER_HP) 1))
  else if dict_has py:"power_kw_max" out then
    v <- dict_item py:"power_kw_max" out ;;
    let out := dict_set py:"power_kw" v out in
    x <- getf py:"power_kw" out ;;
    Ok (out |> setf py:"power_hp" (py_round (pf_mulc x KW_PER_HP) 1))
  else Ok out.

(** U+2013 (en dash) or hyphen-minus *)
Definition is_dash (c : N) : bool := (c =? 8211)%N || (c =? 45)%N.

Definition re_kg_range : regex :=
  cats [NUM; Star py_isspace; Cls is_dash; Star py_isspace;
        NUM; Star py_isspace; lits py:"kg"].
Definition re_kg : regex := num_unit [lits py:"kg"].
Definition re_lb : regex := num_unit [lits py:"lb"; lits py:"lbs"].

(** [[to_num(a), to_num(b)]] for a pair [(a, b)] of [kg_ranges] *)
Definition ends_of (ab : str * str) : result (list pyfloat) :=
  a <- to_num (fst ab) ;; b <- to_num (snd ab) ;; Ok [a; b].

Definition _parse_weight (text : str) : result (dict pyval) :=
  let out : dict pyval := [] in
  if is_empty text then Ok out else
  let kg_ranges := findall2 true re_kg_range text in
  ends <- mapM ends_of kg_ranges ;;
  let kgs := concat ends in
  singles <- mapM to_num (findall1 true re_kg text) ;;
  let kgs := kgs ++ singles in
  let kgs := fromkeys kgs in
  if negb (is_empty kgs) then
    let out :=
      out |> setf py:"weight_kg_min" (py_round (py_min kgs) 1)
          |> setf py:"weight_kg_max" (py_round (py_max kgs) 1)
          |> setf py:"weight_kg_avg" (py_round (py_avg kgs) 1) in
    x <- getf py:"weight_kg_min" out ;;
    let out := out |> setf py:"weight_lb_min" (py_round (pf_mulc x LB_PER_KG) 1) in
    x <- getf py:"weight_kg_max" out ;;
    let out := out |> setf py:"weight_lb_max" (py_round (pf_mulc x LB_PER_KG) 1) in
    x <- getf py:"weight_kg_avg" out ;;
    let out := out |> setf py:"weight_lb_avg" (py_round (pf_mulc x LB_PER_KG) 1) in
    v <- dict_item py:"weight_kg_max" out ;;
    let out := dict_set py:"weight_kg" v out in
    v <- dict_item py:"weight_lb_max" out ;;
    Ok (dict_set py:"weight_lb" v out)
  else
    lbs <- mapM to_num (findall1 true re_lb text) ;;
    if negb (is_empty lbs) then
      let out :=
        out |> setf py:"weight_lb_min" (py_round (py_min lbs) 1)
            |> setf py:"weight_lb_max" (py_round (py_max lbs) 1)
            |> setf py:"weight_lb_avg" (py_round (py_avg lbs) 1) in
      x <- getf py:"weight_lb_min" out ;;
      let out := out |> setf py:"weight_kg_min" (py_round (pf_divc x LB_PER_KG) 1) in
      x <- getf py:"weight_lb_max" out ;;
      let out := out |> setf py:"weight_kg_max" (py_round (pf_divc x LB_PER_KG) 1) in
      x <- getf py:"weight_lb_avg" out ;;
      let out := out |> setf py:"weight_kg_avg" (py_round (pf_divc x LB_PER_KG) 1) in
      v <- dict_item py:"weight_kg_max" out ;;
      let out := dict_set py:"weight_kg" v out in
      v <- dict_item py:"weight_lb_max" out ;;
      Ok (dict_set py:"weight_lb" v out)
    else Ok out.

Definition re_l : regex :=
  num_unit [lits py:"L"; lits py:"litre"; lits py:"litres"].
Definition re_cc : regex := num_unit [lits py:"cc"; lits py:"cm3"].

Definition _parse_displacement (text : str) : result (dict pyval) :=
  let out : dict pyval := [] in
  if is_empty text then Ok out else
  ls <- mapM to_num (findall1 true re_l text) ;;
  ccs <- mapM to_num (findall1 true re_cc text) ;;
  if negb (is_empty ls) then
    let out :=
      out |> setf py:"displacement_l_min" (py_round (py_min ls) 3)
          |> setf py:"displacement_l_max" (py_round (py_max ls) 3)
          |> setf py:"displacement_l" (py_round (py_max ls) 3) in
    x <- getf py:"displacement_l" out ;;
    z <- py_int_round (pf_mulc x 1000) ;;
    Ok (out |> seti py:"displacement_cc" z)
  else if negb (is_empty ccs) then
    z <- py_int_round (py_min ccs) ;;
    let out := out |> seti py:"displacement_cc_min" z in
    z <- py_int_round (py_max ccs) ;;
    let out := out |> seti py:"displacement_cc_max" z in
    z <- py_int_round (py_max ccs) ;;
    let out := out |> seti py:"displacement_cc" z in
    x <- getf py:"displacement_cc" out ;;
    Ok (out |> setf py:"displacement_l" (py_round (pf_divc x 1000) 3))
  else Ok out.

(** [(?:N\.?\s?m|Nm|N·m)] and [(?:lb-?ft|ft-lb)] *)
Definition re_nm : regex :=
  num_unit [cats [Lit 78; Opt (Lit 46); Opt (Cls py_isspace); Lit 109];
            lits py:"Nm"; lits py:"N·m"].
Definition re_lbft : regex :=
  num_unit [cats [lits py:"lb"; Opt (Lit 45); lits py:"ft"]; lits py:"ft-lb"].

Definition _parse_torque (text : str) : result (dict pyval) :=
  let out : dict pyval := [] in
  if is_empty text then Ok out else
  nms <- mapM to_num (findall1 true re_nm text) ;;
  lbfts <- mapM to_num (findall1 true re_lbft text) ;;
  if negb (is_empty nms) then
    let out :=
      out |> setf py:"torque_nm_min" (py_round (py_min nms) 1)
          |> setf py:"torque_nm_max" (py_round (py_max nms) 1)
          |> setf py:"torque_nm" (py_round (py_max nms) 1) in
    x <- getf py:"torque_nm_min" out ;;
    let out := out |> setf py:"torque_lbft_min" (py_round (pf_mulc x LBFT_PER_NM) 1) in
    x <- getf py:"torque_nm_max" out ;;
    let out := out |> setf py:"torque_lbft_max" (py_round (pf_mulc x LBFT_PER_NM) 1) in
    x <- getf py:"torque_nm" out ;;
    Ok (out |> setf py:"torque_lbft" (py_round (pf_mulc x LBFT_PER_NM) 1))
  else if negb (is_empty lbfts) then
    let out :=
      out |> setf py:"torque_lbft_min" (py_round (py_min lbfts) 1)
          |> setf py:"torque_lbft_max" (py_round (py_max lbfts) 1)
          |> setf py:"torque_lbft" (py_round (py_max lbfts) 1) in
    x <- getf py:"torque_lbft_min" out ;;
    let out := out |> setf py:"torque_nm_min" (py_round (pf_divc x LBFT_PER_NM) 1) in
    x <- getf py:"torque_lbft_max" out ;;
    let out := out |> setf py:"torque_nm_max" (py_round (pf_divc x LBFT_PER_NM) 1) in
    x <- getf py:"torque_lbft" out ;;
    Ok (out |> setf py:"torque_nm" (py_round (pf_divc x LBFT_PER_NM) 1))
  else Ok out.
End Parsers.

(** ** The knowledge sources

    An entity as [wbgetentities] returns it with [props=claims|labels]:
    the English label and, per property, the claims with the data value
    of their main snak. *)

Inductive datavalue : Type :=
| DQuantity (amount unit : option str)
| DEntityId (id : option str)
| DOther.

(** A claim: [mainsnak.datavalue], when there is one *)
Definition claim := option datavalue.

Record entity : Type := {
  en_label : option str;
  claims : dict (list claim)
}.

(** The page summary of the REST API, as far as the code reads it *)
Record summary : Type := {
  s_title : option str;
  s_description : option str;
  s_extract : option str;
  s_page : option str;
  s_thumbnail : option str
}.

(** What lies outside the program: the catalog file, the answers of the
    two knowledge sources (each client function returns its empty or
    absent result on any failure and never raises), the clock and the
    configured TTL. *)
Record World : Type := {
  load_data : list pyval;
  wiki_search_candidates : str -> nat -> list str;
  wiki_search_title : str -> option str;
  wiki_fetch_summary : str -> option summary;
  wiki_fetch_specs : str -> dict pyval;
  wikidata_entity_for_title : str -> option str;
  wikidata_get_entity : str -> option entity;
  time_now : Q;
  CACHE_TTL_DAYS : Z
}.

(** [x or ''] *)
Definition or_empty (x : option str) : str :=
  match x with Some s => s | None => [] end.

(** Truth value of an optional string *)
Definition some_nonempty (x : option str) : bool :=
  negb (is_empty (or_empty x)).

Definition opt_val (x : option str) : pyval :=
  match x with Some s => VStr s | None => VNone end.

(** ** Quantity claim extractor *)

Record qentry : Type := {
  amount : option pyfloat;
  unit_label : option str;
  raw_unit : option str
}.

Record linked_entry : Type := {
  label : str;
  quantities : dict (list qentry);
  p31_labels : list str
}.

Section Wikidata.
Context {U : Unicode}.
Variable w : World.

Definition _resolve_unit_label (unit_url : str) (cache : dict (option str))
    : option str * dict (option str) :=
  if is_empty unit_url then (None, cache)
  else if negb (startswith py:"http" unit_url) then (Some unit_url, cache)
  else
    let q := after_last 47 (rstrip 47 unit_url) in
    match dict_get q cache with
    | Some lbl => (lbl, cache)
    | None =>
        let ent := wikidata_get_entity w q in
        let lbl := match ent with Some e => en_label e | None => None end in
        (lbl, dict_set q lbl cache)
    end.

(** [str(q)] *)
Definition py_str (q : option str) : str :=
  match q with Some s => s | None => py:"None" end.

(** The two attempts at [float]; [None] is [amt = None]. *)
Definition parse_amount (q : option str) : option pyfloat :=
  match float_of_str (py_str q) with
  | Some a => Some a
  | None =>
      match q with
      | Some s => float_of_str (lstrip 43 s)
      | None => None
      end
  end.

(** [out.setdefault(prop, []).append(e)] *)
Definition dict_append {V} (prop : str) (e : V) (out : dict (list V)) : dict (list V) :=
  match dict_get prop out with
  | Some l => dict_set prop (l ++ [e]) out
  | None => dict_set prop [e] out
  end.

(** The body of the inner loop, on the pair of [out] and [unit_cache] *)
Definition quantity_step (prop : str)
    (st : dict (list qentry) * dict (option str)) (c : claim)
    : dict (list qentry) * dict (option str) :=
  let (out, unit_cache) := st in
  match c with
  | Some (DQuantity q unit) =>
      let amt := parse_amount q in
      let (lbl, unit_cache') :=
        if some_nonempty unit then _resolve_unit_label (or_empty unit) unit_cache
        else (None, unit_cache) in
      (dict_append prop
         {| amount := amt; unit_label := lbl; raw_unit := unit |} out,
       unit_cache')
  | _ => st
  end.

Definition wikidata_extract_quantity_claims (ent : option entity)
    : dict (list qentry) :=
  match ent with
  | None => []
  | Some e =>
      fst (fold_left
             (fun st pc => fold_left (quantity_step (fst pc)) (snd pc) st)
             (claims e) ([], []))
  end.

(** The set of referenced ids, listed in order of first occurrence; the
    order only shows in the order of the keys of the result below. *)
Definition wikidata_extract_linked_entity_qids (ent : option entity) : list str :=
  match ent with
  | None => []
  | Some e =>
      fold_left
        (fun qids pc =>
           fold_left
             (fun qids (c : claim) =>
                match c with
                | Some (DEntityId (Some q)) =>
                    if is_empty q then qids
                    else if existsb (str_eqb q) qids then qids
                    else qids ++ [q]
                | _ => qids
                end)
             (snd pc) qids)
        (claims e) []
  end.

Definition ALLOW_KEYWORDS : list str :=
  [py:"engine"; py:"motor"; py:"internal combustion"; py:"vehicle";
   py:"car"; py:"automobile"; py:"model"; py:"variant"].

Definition get_entity_opt (q : option str) : option entity :=
  match q with
  | Some s => wikidata_get_entity w s
  | None => None
  end.

Definition wikidata_fetch_linked_quantities (ent : option entity)
    : dict linked_entry :=
  match ent with
  | None => []
  | Some _ =>
      fold_left
        (fun out q =>
           match wikidata_get_entity w q with
           | None => out
           | Some e =>
               let label := or_empty (en_label e) in
               let p31 := match dict_get py:"P31" (claims e) with
                          | Some l => l
                          | None => []
                          end in
               let p31_labels :=
                 fold_left
                   (fun acc (c : claim) =>
                      match c with
                      | Some (DEntityId pid) =>
                          match get_entity_opt pid with
                          | Some p31ent => acc ++ [or_empty (en_label p31ent)]
                          | None => acc
                          end
                      | _ => acc
                      end)
                   p31 [] in
               let combined := lower (join py:" " (label :: p31_labels)) in
               let qs := wikidata_extract_quantity_claims (Some e) in
               if negb (existsb (fun k => contains k combined) ALLOW_KEYWORDS)
                  && is_empty qs
               then out
               else
                 dict_set q
                   {| label := label; quantities := qs; p31_labels := p31_labels |}
                   out
           end)
        (wikidata_extract_linked_entity_qids ent) []
  end.

(** The values of the dictionary [wikidata_fetch_claims_for_title]
    returns *)
Inductive wd_field : Type :=
| WdQid (q : str)
| WdQuantities (qs : dict (list qentry))
| WdLinked (l : dict linked_entry).

Definition wikidata_fetch_claims_for_title (title : str) : option (dict wd_field) :=
  match wikidata_entity_for_title w title with
  | None => None
  | Some qid =>
      if is_empty qid then None
      else
        match wikidata_get_entity w qid with
        | None => None
        | Some ent =>
            let quantities := wikidata_extract_quantity_claims (Some ent) in
            let linked := wikidata_fetch_linked_quantities (Some ent) in
            Some [(py:"qid", WdQid qid);
                  (py:"quantities", WdQuantities quantities);
                  (py:"linked", WdLinked linked)]
        end
  end.
End Wikidata.

(** ** Infobox rows

    Lines 89-116 of [wiki_fetch_specs]: the loop over the rows of the
    infobox.  A row is given by the text of its header cell and of its
    data cell, each absent when the row has no such cell. *)

Definition infobox_row := (option str * option str)%type.

(** The chain of [if]/[elif] on the lower-case header: the key the row is
    stored under, if any *)
Definition spec_key (key : str) : option str :=
  if contains py:"engine" key then Some py:"engine"
  else if contains py:"power" key || contains py:"horsepower" key
  then Some py:"power"
  else if contains py:"displacement" key || contains py:"capacity" key
  then Some py:"displacement"
  else if contains py:"torque" key then Some py:"torque"
  else if contains py:"transmission" key then Some py:"transmission"
  else if contains py:"drive" key || contains py:"drivetrain" key
  then Some py:"drivetrain"
  else if contains py:"weight" key then Some py:"weight"
  else if contains py:"production" key || contains py:"model years" key
          || contains py:"in production" key
  then Some py:"production"
  else None.

Definition infobox_step {U : Unicode} (specs : dict pyval) (row : infobox_row)
    : dict pyval :=
  match row with
  | (Some header, Some val) =>
      match spec_key (lower header) with
      | Some k => dict_set k (VStr val) specs
      | None => specs
      end
  | _ => specs
  end.

Definition infobox_specs {U : Unicode} (rows : list infobox_row) : dict pyval :=
  fold_left infobox_step rows [].

(** ** Enrichment cache

    The cache file maps a key to a time stamp and an item; it is read and
    written whole. *)

Record cache_entry : Type := {
  ts : Q;
  item : pyval
}.

Definition cache_store := dict cache_entry.

Section Cache.
Context {U : Unicode}.
(** [CACHE_TTL_DAYS] and the value of [time.time()] at the call *)
Variable ttl : Z.
Variable now : Q.

(** [[t.lower() for t in re.findall(r"\w+", s.lower())]] *)
Definition tokens (s : str) : list str :=
  map lower (findall0 false re_word (lower s)).

Definition _normalize_query (q : str) : str :=
  join py:" " (tokens q).

Definition entry_item (e : cache_entry) : pyval :=
  let age_days := ((now - ts e) / 86400)%Q in
  if negb (Qle_bool age_days (inject_Z ttl)) then VNone else item e.

Definition _cache_get_query (cache : cache_store) (q : str) : pyval :=
  let key := py:"q:" ++ _normalize_query q in
  match dict_get key cache with
  | None => VNone
  | Some entry => entry_item entry
  end.

Definition _cache_set_query (cache : cache_store) (q : str) (it : pyval)
    : cache_store :=
  let key := py:"q:" ++ _normalize_query q in
  dict_set key {| ts := now; item := it |} cache.

(** [title] is a string or [None]; [title.lower()] precedes the [try]. *)
Definition _cache_get (cache : cache_store) (title : option str) : result pyval :=
  match title with
  | None => Raise AttributeError
  | Some t =>
      let key := lower t in
      match dict_get key cache with
      | None => Ok VNone
      | Some entry => Ok (entry_item entry)
      end
  end.

Definition _cache_set (cache : cache_store) (title : str) (it : pyval)
    : cache_store :=
  dict_set (lower title) {| ts := now; item := it |} cache.
End Cache.

(** ** The search endpoint *)

Definition as_str (v : pyval) : result str :=
  match v with
  | VStr s => Ok s
  | _ => Raise TypeError
  end.

(** [i.get(k, '')] *)
Definition field_or_empty (k : str) (i : pyval) : result pyval :=
  match i with
  | VDict d => Ok (match dict_get k d with Some v => v | None => VStr [] end)
  | _ => Raise AttributeError
  end.

Fixpoint filterM {A} (f : A -> result bool) (l : list A) : result (list A) :=
  match l with
  | [] => Ok []
  | x :: r =>
      b <- f x ;;
      ys <- filterM f r ;;
      Ok (if b then x :: ys else ys)
  end.

(** A [try] block as a list of statements run on a state: the first one to
    raise ends the block, with the state as the statements before it left
    it. *)
Fixpoint try_steps {S} (steps : list (S -> result S)) (s : S) : S :=
  match steps with
  | [] => s
  | f :: r =>
      match f s with
      | Ok s' => try_steps r s'
      | Raise _ => s
      end
  end.

Definition qentry_val (e : qentry) : pyval :=
  VDict [(py:"amount", match amount e with Some f => VFloat f | None => VNone end);
         (py:"unit_label", opt_val (unit_label e));
         (py:"raw_unit", opt_val (raw_unit e))].

Definition quantities_val (qs : dict (list qentry)) : pyval :=
  VDict (map (fun pc => (fst pc, VList (map qentry_val (snd pc)))) qs).

Definition linked_val (le : linked_entry) : pyval :=
  VDict [(py:"label", VStr (label le));
         (py:"quantities", quantities_val (quantities le));
         (py:"p31_labels", VList (map VStr (p31_labels le)))].

Definition wd_val (wd : dict wd_field) : pyval :=
  VDict (map (fun kv =>
                (fst kv,
                 match snd kv with
                 | WdQid q => VStr q
                 | WdQuantities qs => quantities_val qs
                 | WdLinked l =>
                     VDict (map (fun le => (fst le, linked_val (snd le))) l)
                 end))
             wd).

(** The local variables of [get_cars] the [try] blocks work on; [synth] is
    unbound until its assignment. *)
Record locals : Type := {
  specs : dict pyval;
  synth : option (dict pyval)
}.

Section Cars.
Context {U : Unicode}.
Variable w : World.

#[local] Abbreviation ttl := (CACHE_TTL_DAYS w).
#[local] Abbreviation now := (time_now w).

(** Line 538: [i.get('name','') + ' ' + i.get('manufacturer','') + ' '
    + (i.get('year','') or '')] *)
Definition item_text (i : pyval) : result str :=
  n <- field_or_empty py:"name" i ;;
  n <- as_str n ;;
  m <- field_or_empty py:"manufacturer" i ;;
  m <- as_str m ;;
  y <- field_or_empty py:"year" i ;;
  y <- as_str (if truthy y then y else VStr []) ;;
  Ok (n ++ py:" " ++ m ++ py:" " ++ y).

Definition mem (t : str) (l : list str) : bool := existsb (str_eqb t) l.

(** [len(set(qtokens) & set(cand_tokens))] *)
Definition token_score (qtokens cand_tokens : list str) : Z :=
  Z.of_nat (List.length (nodup str_eq_dec (filter (fun t => mem t qtokens) cand_tokens))).

(** [re.search(r"\d", t)] *)
Definition has_digit (t : str) : bool := re_search false re_digit t.

Definition model_bonus (qtokens cand_tokens : list str) : Z :=
  let model_bonus := if existsb has_digit cand_tokens then 1 else 0 in
  let query_has_model_token := existsb has_digit qtokens in
  if query_has_model_token && existsb (fun t => mem t qtokens) cand_tokens
  then 6 else model_bonus.

Definition wd_richness (wd : option (dict wd_field)) : Z :=
  match wd with
  | None => 0
  | Some d =>
      let direct :=
        match dict_get py:"quantities" d with
        | Some (WdQuantities qs) => Z.of_nat (List.length qs)
        | _ => 0
        end in
      let linked :=
        match dict_get py:"linked" d with
        | Some (WdLinked l) => l
        | _ => []
        end in
      fold_left
        (fun acc lk =>
           acc + fold_left (fun n v => n + Z.of_nat (List.length (snd v)))
                   (quantities (snd lk)) 0)
        linked direct
  end.

Definition bad_keywords : list str :=
  [py:"company"; py:"manufacturer"; py:"business"; py:"organization";
   py:"software"; py:"film"].

(** Lines 602-610.  A value under ['description'] that is not a string
    makes [desc.lower()] raise inside the [try], which leaves the penalty
    at 0. *)
Definition non_vehicle_penalty (cand : str) : Z :=
  let d := match wikidata_fetch_claims_for_title w cand with
           | Some d => d
           | None => []
           end in
  match dict_get py:"description" d with
  | Some (WdQid desc) =>
      if negb (is_empty desc)
         && existsb (fun bk => contains bk (lower desc)) bad_keywords
      then 50 else 0
  | _ => 0
  end.

(** [len((cached_cand.get('specs') or {}).keys())], 0 on any exception *)
Definition cached_richness (cached_cand : pyval) : Z :=
  match cached_cand with
  | VDict d =>
      match dict_get py:"specs" d with
      | Some (VDict s) => Z.of_nat (List.length s)
      | _ => 0
      end
  | _ => 0
  end.

(** The body of the loop over the candidates: the score of [cand], or
    [None] where the body ends in [continue] with no score. *)
Definition score_candidate (cache : cache_store) (qtokens : list str) (cand : str)
    : result (option Z) :=
  let cand_tokens := tokens cand in
  let token_score := token_score qtokens cand_tokens in
  let model_bonus := model_bonus qtokens cand_tokens in
  if token_score =? 0 then Ok None else
  cached_cand <- _cache_get ttl now cache (Some cand) ;;
  if truthy cached_cand then
    Ok (Some (cached_richness cached_cand * 20 + token_score * 5 + model_bonus * 5))
  else
    let richness := Z.of_nat (List.length (wiki_fetch_specs w cand)) in
    let wd := wikidata_fetch_claims_for_title w cand in
    let wd_richness := wd_richness wd in
    let non_vehicle_penalty := non_vehicle_penalty cand in
    Ok (Some (richness * 8 + wd_richness * 12 + token_score * 4 + model_bonus * 5
              - non_vehicle_penalty)).

Fixpoint score_loop (cache : cache_store) (qtokens : list str) (cands : list str)
    (best : option str * Z) : result (option str * Z) :=
  match cands with
  | [] => Ok best
  | cand :: rest =>
      sc <- score_candidate cache qtokens cand ;;
      match sc with
      | Some cand_score =>
          if cand_score >? snd best
          then score_loop cache qtokens rest (Some cand, cand_score)
          else score_loop cache qtokens rest best
      | None => score_loop cache qtokens rest best
      end
  end.

(** Lines 549-622: the title the scorer selects *)
Definition score_and_select (cache : cache_store) (q : str) : result (option str) :=
  let candidates := wiki_search_candidates w q 8 in
  if is_empty candidates then Ok None
  else
    best <- score_loop cache (tokens q) candidates (None, -1) ;;
    Ok (fst best).

(** Lines 624-633: the single top hit, when the scorer selected nothing *)
Definition top_hit_fallback (q : str) (title : option str) : option str :=
  if negb (some_nonempty title) then
    let top := wiki_search_title w q in
    if some_nonempty top then
      if 0 <? token_score (tokens q) (tokens (or_empty top)) then top else None
    else title
  else title.

(** [if raw: specs.update(parser(raw))] for [raw = specs.get(key)] *)
Definition normalize_step (key : str) (parser : str -> result (dict pyval))
    (sp : dict pyval) : result (dict pyval) :=
  match dict_get key sp with
  | Some raw =>
      if truthy raw then
        text <- as_str raw ;;
        d <- parser text ;;
        Ok (dict_update sp d)
      else Ok sp
  | None => Ok sp
  end.

(** Lines 652-670 *)
Definition normalize_units (sp : dict pyval) : dict pyval :=
  try_steps [normalize_step py:"power" _parse_power;
             normalize_step py:"weight" _parse_weight;
             normalize_step py:"displacement" _parse_displacement;
             normalize_step py:"torque" _parse_torque] sp.

(** [wd_q[p][0]] where [p in wd_q and wd_q[p]] *)
Definition first_claim (p : str) (wd_q : dict (list qentry)) : option qentry :=
  match dict_get p wd_q with
  | Some (val :: _) => Some val
  | _ => None
  end.

Definition amount_truthy (a : option pyfloat) : option pyfloat :=
  match a with
  | Some x => if pf_eqb x (Fin 0) then None else Some x
  | None => None
  end.

Definition unit_of (val : qentry) : str := lower (or_empty (unit_label val)).

Definition merge_P1100 (wd_q : dict (list qentry)) (sp : dict pyval) : dict pyval :=
  match first_claim py:"P1100" wd_q with
  | Some val =>
      let unit := unit_of val in
      match amount_truthy (amount val) with
      | Some cc =>
          if contains py:"centimet" unit || contains py:"cm" unit then
            catch (z <- py_int_round cc ;;
                   Ok (sp |> seti py:"displacement_cc" z
                          |> setf py:"displacement_l" (py_round (pf_divc cc 1000) 3)))
                  sp
          else dict_set py:"wikidata_P1100" (qentry_val val) sp
      | None => sp
      end
  | None => sp
  end.

Definition merge_P1112 (wd_q : dict (list qentry)) (sp : dict pyval) : dict pyval :=
  match first_claim py:"P1112" wd_q with
  | Some val =>
      let unit := unit_of val in
      match amount_truthy (amount val) with
      | Some a =>
          if contains py:"watt" unit || contains py:"kw" unit then
            let kw := if contains py:"watt" unit then pf_divc a 1000 else a in
            sp |> setf py:"power_kw" (py_round kw 1)
               |> setf py:"power_hp" (py_round (pf_mulc kw KW_PER_HP) 1)
          else if contains py:"hp" unit then
            sp |> setf py:"power_hp" (py_round a 1)
               |> setf py:"power_kw" (py_round (pf_divc a KW_PER_HP) 1)
          else dict_set py:"wikidata_P1112" (qentry_val val) sp
      | None => sp
      end
  | None => sp
  end.

Definition merge_P2067 (wd_q : dict (list qentry)) (sp : dict pyval) : dict pyval :=
  match first_claim py:"P2067" wd_q with
  | Some val =>
      let unit := unit_of val in
      match amount_truthy (amount val) with
      | Some a =>
          if contains py:"gram" unit || contains py:"kg" unit then
            let kg := if contains py:"gram" unit && negb (contains py:"kilogram" unit)
                      then pf_divc a 1000 else a in
            sp |> setf py:"weight_kg" (py_round kg 1)
               |> setf py:"weight_lb" (py_round (pf_mulc kg LB_PER_KG) 1)
          else dict_set py:"wikidata_P2067" (qentry_val val) sp
      | None => sp
      end
  | None => sp
  end.

Definition on_specs (f : dict pyval -> dict pyval) (l : locals) : result locals :=
  Ok {| specs := f (specs l); synth := synth l |}.

(** [synth['_wikidata'] = wd], line 740: [synth] is assigned at line 744
    only, so the name is still unbound here. *)
Definition attach_wikidata (wd : dict wd_field) (l : locals) : result locals :=
  match synth l with
  | None => Raise UnboundLocalError
  | Some d =>
      Ok {| specs := specs l; synth := Some (dict_set py:"_wikidata" (wd_val wd) d) |}
  end.

(** Lines 673-742 *)
Definition merge_wikidata (title : str) (l : locals) : locals :=
  match wikidata_fetch_claims_for_title w title with
  | Some wd =>
      match dict_get py:"quantities" wd with
      | Some (WdQuantities wd_q) =>
          if is_empty wd_q then l
          else
            try_steps [on_specs (merge_P1100 wd_q);
                       on_specs (merge_P1112 wd_q);
                       on_specs (merge_P2067 wd_q);
                       attach_wikidata wd] l
      | _ => l
      end
  | None => l
  end.

(** Lines 650-759: the synthesized item for a title and its summary *)
Definition synthesize (title : str) (sm : summary) : dict pyval :=
  let sp := wiki_fetch_specs w title in
  let sp := normalize_units sp in
  let l := merge_wikidata title {| specs := sp; synth := None |} in
  let name := if some_nonempty (s_title sm) then or_empty (s_title sm) else title in
  [(py:"id", VStr (py:"wiki-" ++ lower (replace_char 32 py:"-" title)));
   (py:"name", VStr name);
   (py:"manufacturer", VStr []);
   (py:"year", VStr []);
   (py:"slug", VStr (replace_char 32 py:"-" (lower name)));
   (py:"specs", VDict (specs l));
   (py:"description", VStr (or_empty (s_extract sm)));
   (py:"_wiki",
     VDict [(py:"title", opt_val (s_title sm));
            (py:"description", opt_val (s_description sm));
            (py:"extract", opt_val (s_extract sm));
            (py:"wiki_url", opt_val (s_page sm));
            (py:"thumbnail", opt_val (s_thumbnail sm))])].

(** Lines 635-769, from the selected title on *)
Definition enrich (cache : cache_store) (q : str) (title : option str)
    : cache_store * result (list pyval) :=
  match _cache_get ttl now cache title with
  | Raise e => (cache, Raise e)
  | Ok cached =>
      if truthy cached then (_cache_set_query now cache q cached, Ok [cached])
      else if negb (some_nonempty title) then (cache, Ok [])
      else
        let title := or_empty title in
        match wiki_fetch_summary w title with
        | None => (cache, Ok [])
        | Some sm =>
            let synth := VDict (synthesize title sm) in
            let cache := _cache_set now cache title synth in
            let cache := _cache_set_query now cache q synth in
            (cache, Ok [synth])
        end
  end.

(** Line 538: the catalog items whose text contains the query *)
Definition local_matches (items : list pyval) (q : str) : result (list pyval) :=
  let ql := lower q in
  filterM (fun i => t <- item_text i ;; Ok (contains ql (lower t))) items.

(** [GET /cars?q=...]: the cache file after the request, and the response
    or the exception that leaves the handler. *)
Definition get_cars (cache : cache_store) (q : str) : cache_store * result (list pyval) :=
  let items := load_data w in
  if is_empty q then (cache, Ok items) else
  match local_matches items q with
  | Raise e => (cache, Raise e)
  | Ok matches =>
      if negb (is_empty matches) then (cache, Ok matches) else
      let qcached := _cache_get_query ttl now cache q in
      if truthy qcached then (cache, Ok [qcached]) else
      match score_and_select cache q with
      | Raise e => (cache, Raise e)
      | Ok title => enrich cache q (top_hit_fallback q title)
      end
  end.
End Cars.

(** ** Sample data

    A small world used to run the definitions: one Wikidata entity with a
    well-formed and a malformed mass, a search that knows one query. *)

Definition sample_entity : entity :=
  {| en_label := Some py:"Nissan Skyline GT-R";
     claims :=
       [(py:"P2067",
          [Some (DQuantity (Some py:"+1560")
                           (Some py:"http://www.wikidata.org/entity/Q11570"));
           Some (DQuantity (Some py:"heavy") (Some py:"1"))]);
        (py:"P176", [Some (DEntityId (Some py:"Q20165"))])] |}.

Definition sample_summary (t : str) : summary :=
  {| s_title := Some t;
     s_description := Some py:"Japanese sports car";
     s_extract := Some py:"A car.";
     s_page := None;
     s_thumbnail := None |}.

Definition sample_world : World :=
  {| load_data := [];
     wiki_search_candidates q n :=
       if str_eqb q py:"Nissan Skyline R34"
       then [py:"Toyota Supra"; py:"Nissan Skyline R33"; py:"Nissan Skyline R34"]
       else [];
     wiki_search_title q :=
       if str_eqb q py:"skyline" then Some py:"Nissan Skyline" else None;
     wiki_fetch_summary t := Some (sample_summary t);
     wiki_fetch_specs t := [(py:"weight", VStr py:"1,931–2,055 kg")];
     wikidata_entity_for_title t := Some py:"Q1";
     wikidata_get_entity q :=
       if str_eqb q py:"Q1" then Some sample_entity
       else if str_eqb q py:"Q11570"
       then Some {| en_label := Some py:"kilogram"; claims := [] |}
       else None;
     time_now := 1000;
     CACHE_TTL_DAYS := 7 |}.

(** A world whose knowledge sources answer nothing *)
Definition offline_world : World :=
  {| load_data := [];
     wiki_search_candidates q n := [];
     wiki_search_title q := None;
     wiki_fetch_summary t := None;
     wiki_fetch_specs t := [];
     wikidata_entity_for_title t := None;
     wikidata_get_entity q := None;
     time_now := 1000;
     CACHE_TTL_DAYS := 7 |}.

(** A car that refers to its engine and to its maker: the engine has a
    displacement, the maker has no quantity and no telling label. *)
Definition engine_entity : entity :=
  {| en_label := Some py:"RB26DETT";
     claims :=
       [(py:"P1100",
          [Some (DQuantity (Some py:"+2568") (Some py:"cubic centimetre"))])] |}.

Definition engine_world : World :=
  {| load_data := [];
     wiki_search_candidates q n := [];
     wiki_search_title q := None;
     wiki_fetch_summary t := None;
     wiki_fetch_specs t := [];
     wikidata_entity_for_title t := Some py:"Q1";
     wikidata_get_entity q :=
       if str_eqb q py:"Q1" then
         Some {| en_label := Some py:"Nissan Skyline GT-R";
                 claims := [(py:"P516", [Some (DEntityId (Some py:"Q2"))]);
                            (py:"P176", [Some (DEntityId (Some py:"Q3"));
                                         Some (DEntityId (Some py:"Q2"))])] |}
       else if str_eqb q py:"Q2" then Some engine_entity
       else if str_eqb q py:"Q3" then
         Some {| en_label := Some py:"Nissan"; claims := [] |}
       else None;
     time_now := 1000;
     CACHE_TTL_DAYS := 7 |}.

(** The silent world, a day later *)
Definition next_day_world : World :=
  {| load_data := [];
     wiki_search_candidates q n := [];
     wiki_search_title q := None;
     wiki_fetch_summary t := None;
     wiki_fetch_specs t := [];
     wikidata_entity_for_title t := None;
     wikidata_get_entity q := None;
     time_now := 1000 + 86400;
     CACHE_TTL_DAYS := 7 |}.

(** ** Vocabulary of the statements *)

(** What the loop keeps as its best title *)
Definition overlapping {U : Unicode} (qtokens all : list str) (o : option str) : Prop :=
  match o with
  | None => True
  | Some t => In t all /\ 0 < token_score qtokens (tokens t)
  end.

(** The entries recorded under a property: [out.get(p, [])] *)
Definition entries {V} (p : str) (out : dict (list V)) : list V :=
  match dict_get p out with
  | Some l => l
  | None => []
  end.

(** A token the numeric group of the patterns can capture: an ASCII digit,
    then digits, commas, points and U+202F *)
Definition is_num_token (tok : str) : Prop :=
  exists c r, tok = c :: r /\ between 48 57 c = true /\ forallb num_rest r = true.

(** At most one decimal point *)
Definition single_point (tok : str) : Prop :=
  (count_occ N.eq_dec tok 46%N <= 1)%nat.

(** A token of at most 300 characters with at most one decimal point *)
Definition short_number (tok : str) : Prop :=
  single_point tok /\ (List.length tok <= 300)%nat.

(** Not [nan] *)
Definition not_nan (x : pyfloat) : Prop := x <> NaN.

(** A finite float between 0 and [10^300] *)
Definition small (x : pyfloat) : Prop :=
  match x with
  | Fin q => (0 <= q /\ q <= inject_Z (10 ^ 300))%Q
  | _ => False
  end.

(** [groups r n]: a match of [r] captures [n] groups, each of them a
    numeric token *)
Inductive groups : regex -> nat -> Prop :=
| groups_eps : groups Eps 0
| groups_lit c : groups (Lit c) 0
| groups_cls p : groups (Cls p) 0
| groups_star p : groups (Star p) 0
| groups_cat a b n m : groups a n -> groups b m -> groups (Cat a b) (n + m)
| groups_alt a b n : groups a n -> groups b n -> groups (Alt a b) n
| groups_opt a : groups a 0 -> groups (Opt a) 0
| groups_num : groups NUM 1.

(** A digit or a decimal point *)
Definition digit_or_point (x : N) : bool := is_dec x || (x =? 46)%N.

(** The numeric tokens each parser converts *)
Definition power_tokens {U : Unicode} (text : str) : list str :=
  findall1 true re_kw text ++ findall1 true re_hp text.

Definition weight_tokens {U : Unicode} (text : str) : list str :=
  flat_map (fun ab => [fst ab; snd ab]) (findall2 true re_kg_range text)
  ++ findall1 true re_kg text ++ findall1 true re_lb text.

Definition displacement_tokens {U : Unicode} (text : str) : list str :=
  findall1 true re_l text ++ findall1 true re_cc text.

Definition torque_tokens {U : Unicode} (text : str) : list str :=
  findall1 true re_nm text ++ findall1 true re_lbft text.

(** What the amended C2 says of one parser: [good] is the condition on
    its numeric tokens under which it returns, [errs] the exceptions it can
    raise. *)
Definition parser_contract (parser : str -> result (dict pyval))
    (toks : str -> list str) (good : str -> Prop) (errs : list exn)
    (text : str) : Prop :=
  parser [] = Ok []
  /\ (toks text = [] -> parser text = Ok [])
  /\ ((forall tok, In tok (toks text) -> good tok) ->
      exists d, parser text = Ok d)
  /\ ((exists d, parser text = Ok d)
      \/ exists e, In e errs /\ parser text = Raise e).

(** The label of the entity with id [q], as [_resolve_unit_label] reads it *)
Definition entity_label (w : World) (q : str) : option str :=
  match wikidata_get_entity w q with
  | Some e => en_label e
  | None => None
  end.

(** The label a unit resolves to when nothing is remembered *)
Definition direct_label (w : World) (unit : option str) : option str :=
  if some_nonempty unit then
    let u := or_empty unit in
    if negb (startswith py:"http" u) then Some u
    else entity_label w (after_last 47 (rstrip 47 u))
  else None.

(** The entry a claim contributes, if it is a quantity *)
Definition entry_of (w : World) (c : claim) : list qentry :=
  match c with
  | Some (DQuantity q unit) =>
      [{| amount := parse_amount q;
          unit_label := direct_label w unit;
          raw_unit := unit |}]
  | _ => []
  end.

(** The entries of the quantity claims listed under property [p] *)
Definition quantity_entries (w : World) (p : str) (pcs : dict (list claim))
    : list qentry :=
  flat_map (fun pc => if str_eqb (fst pc) p then flat_map (entry_of w) (snd pc) else [])
           pcs.

(** What [unit_cache] remembers is what the source answers *)
Definition labels_ok (w : World) (uc : dict (option str)) : Prop :=
  forall q lbl, dict_get q uc = Some lbl -> lbl = entity_label w q.

(** The entity refers to [q] by an entity-id claim *)
Definition referenced (e : entity) (q : str) : Prop :=
  exists p cs, In (p, cs) (claims e) /\ In (Some (DEntityId (Some q))) cs.

(** [x <= y] on floats that are not [nan] *)
Definition pf_le (x y : pyfloat) : Prop :=
  not_nan x /\ not_nan y /\ pf_ltb y x = false.

(** [a <= b] on two floats or on two integers *)
Definition val_le (a b : pyval) : Prop :=
  match a, b with
  | VFloat x, VFloat y => pf_le x y
  | VInt m, VInt n => m <= n
  | _, _ => False
  end.

(** Where both fields are present, the first is at most the second. *)
Definition ordered (kmin kmax : str) (d : dict pyval) : Prop :=
  forall a b, dict_get kmin d = Some a -> dict_get kmax d = Some b -> val_le a b.

(** Where the field [k'] is present, the field [k] has the same value. *)
Definition same_field (k k' : str) (d : dict pyval) : Prop :=
  dict_has k' d = true -> dict_get k d = dict_get k' d.

(** Nothing was recognised, or both fields are present. *)
Definition both_or_none (k k' : str) (d : dict pyval) : Prop :=
  d = [] \/ (dict_has k d = true /\ dict_has k' d = true).

(** The keys [wiki_fetch_specs] writes: the raw texts of the infobox *)
Definition INFOBOX_KEYS : list str :=
  [py:"engine"; py:"power"; py:"displacement"; py:"torque"; py:"transmission";
   py:"drivetrain"; py:"weight"; py:"production"].

(** The keys the parsers and the Wikidata merge write *)
Definition DERIVED_KEYS : list str :=
  [py:"power_kw_min"; py:"power_kw_max"; py:"power_kw_avg";
   py:"power_hp_min"; py:"power_hp_max"; py:"power_hp_avg";
   py:"power_hp"; py:"power_kw";
   py:"weight_kg_min"; py:"weight_kg_max"; py:"weight_kg_avg";
   py:"weight_lb_min"; py:"weight_lb_max"; py:"weight_lb_avg";
   py:"weight_kg"; py:"weight_lb";
   py:"displacement_l_min"; py:"displacement_l_max"; py:"displacement_l";
   py:"displacement_cc_min"; py:"displacement_cc_max"; py:"displacement_cc";
   py:"torque_nm_min"; py:"torque_nm_max"; py:"torque_nm";
   py:"torque_lbft_min"; py:"torque_lbft_max"; py:"torque_lbft";
   py:"wikidata_P1100"; py:"wikidata_P1112"; py:"wikidata_P2067"].

(** All keys of [d] are derived keys. *)
Definition derived_only (d : dict pyval) : bool :=
  forallb (fun k => mem k DERIVED_KEYS) (dict_keys d).

(** The texts of the rows stored under [k], in the order of the rows *)
Definition rows_for {U : Unicode} (k : str) (rows : list infobox_row) : list str :=
  flat_map (fun row : infobox_row =>
              match row with
              | (Some header, Some val) =>
                  match spec_key (lower header) with
                  | Some k' => if str_eqb k' k then [val] else []
                  | None => []
                  end
              | _ => []
              end) rows.

(** The last element of a list, if any *)
Definition last_of {A} (l : list A) : option A :=
  match rev l with
  | x :: _ => Some x
  | [] => None
  end.

(** * Properties *)

(** ** Dictionaries *)

Lemma dict_get_set_same {V} (k : str) (v : V) (d : dict V) :
  dict_get k (dict_set k v d) = Some v.
Proof.
  induction d as [|[k' v'] r IH]; simpl.
  - destruct (str_eq_dec k k); congruence.
  - destruct (str_eq_dec k k') as [E|E]; simpl.
    + destruct (str_eq_dec k k'); congruence.
    + destruct (str_eq_dec k k'); congruence.
Qed.

Lemma dict_get_set_other {V} (k k' : str) (v : V) (d : dict V) :
  k' <> k -> dict_get k' (dict_set k v d) = dict_get k' d.
Proof.
  intros N. induction d as [|[k0 v0] r IH]; simpl.
  - destruct (str_eq_dec k' k); congruence.
  - destruct (str_eq_dec k k0) as [E|E]; simpl.
    + subst k0. destruct (str_eq_dec k' k); congruence.
    + destruct (str_eq_dec k' k0); congruence.
Qed.

Lemma mem_In (t : str) (l : list str) : mem t l = true <-> In t l.
Proof.
  unfold mem. rewrite existsb_exists. split.
  - intros [x [Hx E]]. unfold str_eqb in E.
    destruct (str_eq_dec t x); [subst; assumption | discriminate].
  - intros H. exists t. split; [assumption|].
    unfold str_eqb. destruct (str_eq_dec t t); congruence.
Qed.

(** ** Unit parsers *)

(** C9.  On ["1,931–2,055 kg"] the weight parser returns the two ends of
    the range as minimum and maximum, the maximum as the representative
    weight, and 2055 * 2.20462 rounded to one decimal, 4530.5, in pounds. *)
Theorem parse_weight_range_example :
  exists d,
    _parse_weight py:"1,931–2,055 kg" = Ok d
    /\ dict_get py:"weight_kg_min" d = Some (VFloat (dec 19310 1))
    /\ dict_get py:"weight_kg_max" d = Some (VFloat (dec 20550 1))
    /\ dict_get py:"weight_kg" d = Some (VFloat (dec 20550 1))
    /\ dict_get py:"weight_lb" d
       = Some (VFloat (py_round (pf_mulc (dec 20550 1) LB_PER_KG) 1))
    /\ dict_get py:"weight_lb" d = Some (VFloat (dec 45305 1)).
Proof.
  eexists. split; [vm_compute; reflexivity|].
  repeat split; vm_compute; reflexivity.
Qed.

(** C5.  The torque and the displacement parsers report minimum and
    maximum only: with two values matched for a unit, neither result has
    an average field. *)
Theorem torque_displacement_no_average :
  (exists d,
     _parse_torque py:"300 Nm 400 Nm" = Ok d
     /\ dict_keys d
        = [py:"torque_nm_min"; py:"torque_nm_max"; py:"torque_nm";
           py:"torque_lbft_min"; py:"torque_lbft_max"; py:"torque_lbft"]
     /\ dict_has py:"torque_nm_avg" d = false)
  /\ (exists d,
        _parse_displacement py:"2.0 L 3.0 L" = Ok d
        /\ dict_keys d
           = [py:"displacement_l_min"; py:"displacement_l_max";
              py:"displacement_l"; py:"displacement_cc"]
        /\ dict_has py:"displacement_l_avg" d = false).
Proof.
  split; eexists; (split; [vm_compute; reflexivity|]);
    split; vm_compute; reflexivity.
Qed.

(** *** What the patterns capture *)

Lemma star_match_inv {A} (p : N -> bool) (s : str) (k : str -> option A) (x : A) :
  star_match p s k = Some x ->
  exists pre s', s = pre ++ s' /\ forallb p pre = true /\ k s' = Some x.
Proof.
  induction s as [|c r IH]; simpl; intros H.
  - exists [], []. auto.
  - destruct (p c) eqn:Hp.
    + destruct (star_match p r k) as [y|] eqn:Hs.
      * injection H as <-. destruct (IH eq_refl) as [pre [s' [E [Hf Hk]]]].
        exists (c :: pre), s'. simpl. rewrite Hp, Hf, E. auto.
      * exists [], (c :: r). auto.
    + exists [], (c :: r). auto.
Qed.

Lemma firstn_consumed (pre s' : str) :
  firstn (List.length (pre ++ s') - List.length s') (pre ++ s') = pre.
Proof.
  rewrite length_app.
  replace (List.length pre + List.length s' - List.length s')%nat
    with (List.length pre + 0)%nat by lia.
  rewrite firstn_app_2. simpl. apply app_nil_r.
Qed.

Lemma rmatch_groups {U : Unicode} (icase : bool) {A} (r : regex) (n : nat) :
  groups r n ->
  forall (s : str) (caps : list str) (k : str -> list str -> option A) (x : A),
    rmatch icase r s caps k = Some x ->
    exists s' new,
      k s' (caps ++ new) = Some x
      /\ List.length new = n
      /\ Forall is_num_token new.
Proof.
  induction 1 as [|c|p|p|a b n m Ha IHa Hb IHb|a b n Ha IHa Hb IHb|a Ha IHa|];
    intros s caps k x H.
  - exists s, []. rewrite app_nil_r. auto.
  - simpl in H. destruct s as [|y s']; [discriminate|].
    destruct (lit_eq icase c y); [|discriminate].
    exists s', []. rewrite app_nil_r. auto.
  - simpl in H. destruct s as [|y s']; [discriminate|].
    destruct (p y); [|discriminate].
    exists s', []. rewrite app_nil_r. auto.
  - simpl in H. apply star_match_inv in H. destruct H as [pre [s' [_ [_ Hk]]]].
    exists s', []. rewrite app_nil_r. auto.
  - simpl in H. apply IHa in H. destruct H as [s1 [new1 [H [L1 F1]]]].
    apply IHb in H. destruct H as [s2 [new2 [H [L2 F2]]]].
    exists s2, (new1 ++ new2). rewrite app_assoc. split; [assumption|].
    split; [rewrite length_app; lia | apply Forall_app; auto].
  - simpl in H. destruct (rmatch icase a s caps k) as [y|] eqn:E.
    + injection H as <-. apply IHa in E. assumption.
    + apply IHb in H. assumption.
  - simpl in H. destruct (rmatch icase a s caps k) as [y|] eqn:E.
    + injection H as <-. apply IHa in E. assumption.
    + exists s, []. rewrite app_nil_r. auto.
  - unfold NUM in H. simpl in H. destruct s as [|c r]; [discriminate|].
    destruct (between 48 57 c) eqn:Hc; [|discriminate].
    apply star_match_inv in H. destruct H as [pre [s' [E [Hf Hk]]]].
    exists s', [c :: pre]. split; [|split].
    + subst r. change (c :: pre ++ s') with ((c :: pre) ++ s') in Hk.
      rewrite firstn_consumed in Hk. assumption.
    + reflexivity.
    + constructor; [|constructor]. exists c, pre. auto.
Qed.

Lemma match_here_groups {U : Unicode} (icase : bool) (r : regex) (n : nat)
    (s m : str) (caps : list str) :
  groups r n ->
  match_here icase r s = Some (m, caps) ->
  List.length caps = n /\ Forall is_num_token caps.
Proof.
  intros G H. unfold match_here in H.
  destruct (rmatch_groups icase r n G s [] _ _ H) as [s' [new [E [L F]]]].
  simpl in E. injection E as _ <-. auto.
Qed.

Lemma matches_from_groups {U : Unicode} (icase : bool) (r : regex) (n : nat) :
  groups r n ->
  forall (s : str) (skip : nat),
    Forall (fun mc => List.length (snd mc) = n /\ Forall is_num_token (snd mc))
           (matches_from icase r skip s).
Proof.
  intros G. induction s as [|c s' IH]; intros skip; simpl; [constructor|].
  destruct skip as [|k]; [|apply IH].
  destruct (match_here icase r (c :: s')) as [[m caps]|] eqn:E; [|apply IH].
  constructor; [|apply IH].
  simpl. eapply match_here_groups; eassumption.
Qed.

Lemma findall1_tokens {U : Unicode} (icase : bool) (r : regex) (s : str) :
  groups r 1 -> Forall is_num_token (findall1 icase r s).
Proof.
  intros G. unfold findall1. apply Forall_map.
  eapply Forall_impl; [|apply (matches_from_groups icase r 1 G)].
  intros [m caps] [L F]. simpl in *.
  destruct caps as [|g [|g' caps']]; try discriminate.
  simpl. inversion F. assumption.
Qed.

Lemma findall2_tokens {U : Unicode} (icase : bool) (r : regex) (s : str) :
  groups r 2 ->
  Forall (fun ab => is_num_token (fst ab) /\ is_num_token (snd ab))
         (findall2 icase r s).
Proof.
  intros G. unfold findall2. apply Forall_map.
  eapply Forall_impl; [|apply (matches_from_groups icase r 2 G)].
  intros [m caps] [L F]. simpl in *.
  destruct caps as [|g [|g' [|g'' caps']]]; try discriminate.
  simpl. inversion F as [|? ? F1 F2]. inversion F2. auto.
Qed.

Lemma groups_lits (s : str) : groups (lits s) 0.
Proof.
  induction s as [|c r IH]; simpl; [constructor|].
  apply (groups_cat _ _ 0 0); [constructor | assumption].
Qed.

Lemma groups_cats0 (l : list regex) :
  Forall (fun r => groups r 0) l -> groups (cats l) 0.
Proof.
  induction 1 as [|r l H F IH]; simpl; [constructor|].
  apply (groups_cat _ _ 0 0); assumption.
Qed.

Lemma groups_alts0 (l : list regex) :
  Forall (fun r => groups r 0) l -> groups (alts l) 0.
Proof.
  induction 1 as [|r l H F IH]; simpl; [constructor|].
  destruct l as [|r' l']; [assumption|].
  constructor; assumption.
Qed.

Lemma groups_num_unit (units : list regex) :
  Forall (fun r => groups r 0) units -> groups (num_unit units) 1.
Proof.
  intros F. unfold num_unit.
  apply (groups_cat _ _ 1 0); [constructor|].
  apply (groups_cat _ _ 0 0); [constructor | apply groups_alts0; assumption].
Qed.

Ltac groups0 := repeat (apply Forall_cons || apply Forall_nil
                        || apply groups_lits || apply groups_cats0
                        || constructor).

Lemma groups_re_kw : groups re_kw 1.
Proof. apply groups_num_unit. groups0. Qed.
Lemma groups_re_hp : groups re_hp 1.
Proof. apply groups_num_unit. groups0. Qed.
Lemma groups_re_kg : groups re_kg 1.
Proof. apply groups_num_unit. groups0. Qed.
Lemma groups_re_lb : groups re_lb 1.
Proof. apply groups_num_unit. groups0. Qed.
Lemma groups_re_l : groups re_l 1.
Proof. apply groups_num_unit. groups0. Qed.
Lemma groups_re_cc : groups re_cc 1.
Proof. apply groups_num_unit. groups0. Qed.
Lemma groups_re_nm : groups re_nm 1.
Proof. apply groups_num_unit. groups0. Qed.
Lemma groups_re_lbft : groups re_lbft 1.
Proof. apply groups_num_unit. groups0. Qed.

Lemma groups_re_kg_range : groups re_kg_range 2.
Proof.
  unfold re_kg_range, cats. cbn [fold_right].
  apply (groups_cat _ _ 1 1); [constructor|].
  apply (groups_cat _ _ 0 1); [constructor|].
  apply (groups_cat _ _ 0 1); [constructor|].
  apply (groups_cat _ _ 0 1); [constructor|].
  apply (groups_cat _ _ 1 0); [constructor|].
  apply (groups_cat _ _ 0 0); [constructor|].
  apply (groups_cat _ _ 0 0); [apply groups_lits | constructor].
Qed.

(** *** [float] on numeric tokens *)

Lemma is_dec_range (x : N) : is_dec x = true <-> (48 <= x <= 57)%N.
Proof.
  unfold is_dec, between. rewrite andb_true_iff, !N.leb_le. reflexivity.
Qed.

Lemma digit_or_point_cases (x : N) :
  digit_or_point x = true -> is_dec x = true \/ x = 46%N.
Proof.
  unfold digit_or_point. rewrite orb_true_iff, N.eqb_eq. auto.
Qed.

Lemma digit_or_point_not_space (x : N) :
  digit_or_point x = true -> py_isspace x = false.
Proof.
  intros H. apply digit_or_point_cases in H. rewrite is_dec_range in H.
  assert (E : (x = 46 \/ x = 48 \/ x = 49 \/ x = 50 \/ x = 51 \/ x = 52 \/ x = 53
               \/ x = 54 \/ x = 55 \/ x = 56 \/ x = 57)%N) by lia.
  repeat (destruct E as [E|E]; [subst x; reflexivity|]). subst x. reflexivity.
Qed.

Lemma lstrip_space_id (s : str) :
  forallb digit_or_point s = true -> lstrip_space s = s.
Proof.
  destruct s as [|c r]; simpl; [reflexivity|].
  rewrite andb_true_iff. intros [H _].
  rewrite (digit_or_point_not_space c H). reflexivity.
Qed.

Lemma forallb_rev {A} (p : A -> bool) (l : list A) :
  forallb p l = true -> forallb p (rev l) = true.
Proof.
  rewrite !forallb_forall. intros H x Hx. apply H. apply in_rev. assumption.
Qed.

Lemma strip_id (s : str) : forallb digit_or_point s = true -> strip s = s.
Proof.
  intros H. unfold strip. rewrite (lstrip_space_id s H).
  rewrite (lstrip_space_id (rev s) (forallb_rev digit_or_point s H)).
  apply rev_involutive.
Qed.

Lemma digit_run_digits (l : str) :
  forallb is_dec l = true -> digit_run l = (l, []).
Proof.
  induction l as [|c r IH]; simpl; [reflexivity|].
  rewrite andb_true_iff. intros [Hc Hr]. rewrite Hc, (IH Hr). reflexivity.
Qed.

Lemma digit_run_dd (l : str) :
  forallb digit_or_point l = true ->
  exists ds t,
    digit_run l = (ds, t) /\ l = ds ++ t
    /\ forallb is_dec ds = true
    /\ (t = [] \/ exists t', t = 46%N :: t').
Proof.
  induction l as [|c r IH]; simpl.
  - intros _. exists [], []. auto.
  - rewrite andb_true_iff. intros [Hc Hr].
    destruct (IH Hr) as [ds [t [E [Hl [Hd Ht]]]]].
    destruct (is_dec c) eqn:Hdc.
    + rewrite E. exists (c :: ds), t. simpl. rewrite <- Hl, Hdc, Hd. auto.
    + apply digit_or_point_cases in Hc. destruct Hc as [Hc|Hc]; [congruence|].
      subst c. simpl. exists [], (46%N :: r).
      repeat split; try reflexivity. right. exists r. reflexivity.
Qed.

Lemma no_point_digits (l : str) :
  forallb digit_or_point l = true ->
  count_occ N.eq_dec l 46%N = O ->
  forallb is_dec l = true.
Proof.
  induction l as [|c r IH]; simpl; [reflexivity|].
  rewrite andb_true_iff. intros [Hc Hr].
  destruct (N.eq_dec c 46) as [E|E]; [discriminate|].
  intros Hn. apply digit_or_point_cases in Hc.
  destruct Hc as [Hc|Hc]; [|contradiction].
  rewrite Hc. apply IH; assumption.
Qed.

Lemma str_eqb_head (a b : N) (x y : str) :
  a <> b -> str_eqb (a :: x) (b :: y) = false.
Proof.
  intros H. unfold str_eqb. destruct (str_eq_dec (a :: x) (b :: y)); congruence.
Qed.

(** The mantissa of a clean token: all of it is read, and its digits are
    no more than its characters. *)
Lemma parse_mantissa_clean (c : N) (r : str) :
  is_dec c = true ->
  forallb digit_or_point r = true ->
  (count_occ N.eq_dec r 46%N <= 1)%nat ->
  exists ds k,
    parse_mantissa (c :: r) = Some (ds, k, [])
    /\ forallb is_dec ds = true
    /\ (List.length ds <= S (List.length r))%nat.
Proof.
  intros Hc Hr Hn. unfold parse_mantissa.
  assert (Hc46 : (c =? 46)%N = false)
    by (apply N.eqb_neq; apply is_dec_range in Hc; lia).
  rewrite Hc46. unfold digitpart at 1. rewrite Hc.
  destruct (digit_run_dd r Hr) as [ds [t [E [Hl [Hd Ht]]]]]. rewrite E.
  destruct Ht as [Ht|[t' Ht]]; subst t.
  - exists (c :: ds), O. split; [reflexivity|]. split.
    + simpl. rewrite Hc, Hd. reflexivity.
    + rewrite Hl, length_app. simpl. lia.
  - rewrite N.eqb_refl.
    assert (Hr' : forallb digit_or_point t' = true).
    { rewrite Hl in Hr. rewrite forallb_app in Hr. apply andb_true_iff in Hr.
      destruct Hr as [_ Hr].
      change (forallb digit_or_point (46%N :: t'))
        with (digit_or_point 46 && forallb digit_or_point t') in Hr.
      apply andb_true_iff in Hr. apply Hr. }
    assert (Hn' : count_occ N.eq_dec t' 46%N = O).
    { rewrite Hl in Hn. rewrite count_occ_app in Hn. simpl in Hn.
      destruct (N.eq_dec 46 46); [lia | congruence]. }
    pose proof (no_point_digits t' Hr' Hn') as Hd'.
    destruct t' as [|d t'']; simpl.
    + exists (c :: ds), O. split; [reflexivity|]. split.
      * simpl. rewrite Hc, Hd. reflexivity.
      * rewrite Hl, length_app. simpl. lia.
    + simpl in Hd'. apply andb_true_iff in Hd'. destruct Hd' as [Hd1 Hd2].
      rewrite Hd1, (digit_run_digits t'' Hd2).
      eexists _, _. split; [reflexivity|]. split.
      * simpl. rewrite Hc. simpl. rewrite forallb_app, Hd. simpl.
        rewrite Hd1, Hd2. reflexivity.
      * rewrite Hl. simpl. rewrite !length_app. simpl. lia.
Qed.

Lemma float_of_str_dd (c : N) (r : str) :
  is_dec c = true ->
  forallb digit_or_point r = true ->
  float_of_str (c :: r)
  = match parse_mantissa (c :: r) with
    | Some (ds, k, t) =>
        match parse_exponent t with
        | Some e => Some (fin (inject_Z (digits_value ds) * pow10 (e - Z.of_nat k))%Q)
        | None => None
        end
    | None => None
    end.
Proof.
  intros Hc Hr. unfold float_of_str.
  assert (Hall : forallb digit_or_point (c :: r) = true)
    by (simpl; unfold digit_or_point at 1; rewrite Hc, Hr; reflexivity).
  rewrite (strip_id _ Hall).
  pose proof (proj1 (is_dec_range c) Hc) as Hrg.
  unfold split_sign.
  replace (c =? 43)%N with false by (symmetry; apply N.eqb_neq; lia).
  replace (c =? 45)%N with false by (symmetry; apply N.eqb_neq; lia).
  assert (Hl : ascii_lower c = c).
  { unfold ascii_lower, between.
    replace (c <=? 90)%N with true by (symmetry; apply N.leb_le; lia).
    replace (65 <=? c)%N with false by (symmetry; apply N.leb_gt; lia).
    reflexivity. }
  cbn [map]. rewrite Hl.
  change py:"inf" with [105; 110; 102]%N.
  change py:"infinity" with [105; 110; 102; 105; 110; 105; 116; 121]%N.
  change py:"nan" with [110; 97; 110]%N.
  rewrite !str_eqb_head by lia. reflexivity.
Qed.

Lemma fin_not_nan (q : Q) : not_nan (fin q).
Proof.
  unfold not_nan, fin.
  destruct (Qle_bool DBL_LIMIT q); [discriminate|].
  destruct (Qle_bool q (- DBL_LIMIT)); discriminate.
Qed.

Lemma float_of_str_clean (c : N) (r : str) :
  is_dec c = true ->
  forallb digit_or_point r = true ->
  (count_occ N.eq_dec r 46%N <= 1)%nat ->
  exists x, float_of_str (c :: r) = Some x.
Proof.
  intros Hc Hr Hn. rewrite (float_of_str_dd c r Hc Hr).
  destruct (parse_mantissa_clean c r Hc Hr Hn) as [ds [k [E _]]]. rewrite E.
  simpl. eexists. reflexivity.
Qed.

Lemma float_of_str_dd_not_nan (c : N) (r : str) (x : pyfloat) :
  is_dec c = true ->
  forallb digit_or_point r = true ->
  float_of_str (c :: r) = Some x -> not_nan x.
Proof.
  intros Hc Hr. rewrite (float_of_str_dd c r Hc Hr).
  destruct (parse_mantissa (c :: r)) as [[[ds k] t]|]; [|discriminate].
  destruct (parse_exponent t); [|discriminate].
  intros E. injection E as <-. apply fin_not_nan.
Qed.

(** *** Magnitudes *)

Lemma digits_value_bound (ds : list N) :
  forallb is_dec ds = true ->
  forall a,
    0 <= a ->
    0 <= fold_left (fun a d => 10 * a + Z.of_N (d - 48)) ds a
    < (a + 1) * 10 ^ Z.of_nat (List.length ds).
Proof.
  induction ds as [|d r IH]; intros Hd a Ha.
  - simpl. lia.
  - simpl in Hd. apply andb_true_iff in Hd. destruct Hd as [Hd Hr].
    apply is_dec_range in Hd.
    cbn [fold_left List.length].
    assert (H0 : 0 <= 10 * a + Z.of_N (d - 48)) by lia.
    specialize (IH Hr _ H0).
    rewrite Nat2Z.inj_succ, Z.pow_succ_r by lia.
    assert (Hp : 0 < 10 ^ Z.of_nat (List.length r)) by (apply Z.pow_pos_nonneg; lia).
    assert (Hle : 10 * a + Z.of_N (d - 48) + 1 <= 10 * (a + 1)) by lia.
    split; [lia|]. nia.
Qed.

Lemma pow10_unit (e : Z) : e <= 0 -> (0 < pow10 e /\ pow10 e <= 1)%Q.
Proof.
  intros He. unfold pow10. destruct (e <? 0) eqn:E.
  - assert (Hp : 0 < 10 ^ (- e)) by (apply Z.pow_pos_nonneg; lia).
    destruct (10 ^ (- e)) as [|p|p] eqn:Ep; try lia.
    unfold Qdiv, Qinv, Qlt, Qle. simpl. split; lia.
  - apply Z.ltb_ge in E. replace e with 0 by lia. simpl.
    unfold Qlt, Qle. simpl. split; lia.
Qed.

Lemma DBL_LIMIT_large : (inject_Z (1001 * 10 ^ 300 + 1000) < DBL_LIMIT)%Q.
Proof. unfold DBL_LIMIT. rewrite <- Zlt_Qlt. vm_compute. reflexivity. Qed.

Lemma ten_300_pos : (0 <= inject_Z (10 ^ 300))%Q.
Proof. rewrite <- (Zle_Qle 0). vm_compute. discriminate. Qed.

Lemma inject_bounds :
  (inject_Z (1001 * 10 ^ 300 + 1000) == 1001 * inject_Z (10 ^ 300) + 1000)%Q.
Proof. rewrite inject_Z_plus, inject_Z_mult. reflexivity. Qed.

(** Inside the range, [fin] is the value itself. *)
Lemma fin_in_range (q : Q) :
  (0 <= q)%Q -> (q < DBL_LIMIT)%Q -> fin q = Fin (Qred q).
Proof.
  intros H0 H1. unfold fin.
  assert (E1 : Qle_bool DBL_LIMIT q = false).
  { destruct (Qle_bool DBL_LIMIT q) eqn:E; [|reflexivity].
    apply Qle_bool_iff in E. lra. }
  assert (E2 : Qle_bool q (- DBL_LIMIT) = false).
  { destruct (Qle_bool q (- DBL_LIMIT)) eqn:E; [|reflexivity].
    apply Qle_bool_iff in E. lra. }
  rewrite E1, E2. reflexivity.
Qed.

Lemma fin_small (q : Q) :
  (0 <= q)%Q -> (q <= inject_Z (10 ^ 300))%Q -> small (fin q).
Proof.
  intros H0 H1.
  pose proof DBL_LIMIT_large as HL. rewrite inject_bounds in HL.
  pose proof ten_300_pos as HT.
  rewrite fin_in_range by lra.
  simpl. rewrite Qred_correct. split; assumption.
Qed.

Lemma float_of_str_small (c : N) (r : str) :
  is_dec c = true ->
  forallb digit_or_point r = true ->
  (count_occ N.eq_dec r 46%N <= 1)%nat ->
  (S (List.length r) <= 300)%nat ->
  exists x, float_of_str (c :: r) = Some x /\ small x.
Proof.
  intros Hc Hr Hn Hlen. rewrite (float_of_str_dd c r Hc Hr).
  destruct (parse_mantissa_clean c r Hc Hr Hn) as [ds [k [E [Hd Hl]]]].
  rewrite E. simpl parse_exponent. cbv iota.
  eexists. split; [reflexivity|].
  pose proof (digits_value_bound ds Hd 0 ltac:(lia)) as Hv.
  fold (digits_value ds) in Hv.
  assert (Hpow : 10 ^ Z.of_nat (List.length ds) <= 10 ^ 300)
    by (apply Z.pow_le_mono_r; lia).
  destruct (pow10_unit (0 - Z.of_nat k) ltac:(lia)) as [Hp0 Hp1].
  assert (Hv0 : (0 <= inject_Z (digits_value ds))%Q)
    by (rewrite <- (Zle_Qle 0); lia).
  assert (Hv1 : (inject_Z (digits_value ds) <= inject_Z (10 ^ 300))%Q)
    by (rewrite <- Zle_Qle; lia).
  apply fin_small.
  - apply Qmult_le_0_compat; [assumption | lra].
  - apply Qle_trans with (1 * inject_Z (digits_value ds))%Q; [|lra].
    rewrite (Qmult_comm (inject_Z (digits_value ds))).
    apply Qmult_le_compat_r; assumption.
Qed.

Lemma remove_char_count (a : N) (s : str) :
  a <> 46%N ->
  count_occ N.eq_dec (remove_char a s) 46%N = count_occ N.eq_dec s 46%N.
Proof.
  intros H. induction s as [|x r IH]; simpl; [reflexivity|].
  destruct (x =? a)%N eqn:E; simpl.
  - apply N.eqb_eq in E. subst x. destruct (N.eq_dec a 46); [contradiction|].
    assumption.
  - destruct (N.eq_dec x 46); rewrite IH; reflexivity.
Qed.

Lemma remove_char_length (a : N) (s : str) :
  (List.length (remove_char a s) <= List.length s)%nat.
Proof. unfold remove_char. apply filter_length_le. Qed.

Lemma clean_chars (r : str) :
  forallb num_rest r = true ->
  forallb digit_or_point (remove_char 8239 (remove_char 44 r)) = true.
Proof.
  rewrite !forallb_forall. intros H x Hx.
  unfold remove_char in Hx. apply filter_In in Hx. destruct Hx as [Hx H1].
  apply filter_In in Hx. destruct Hx as [Hx H2].
  specialize (H x Hx). unfold num_rest in H. unfold digit_or_point, is_dec.
  apply negb_true_iff in H1. apply negb_true_iff in H2.
  rewrite H1, H2 in H. rewrite !orb_false_r in H. assumption.
Qed.

Lemma clean_token (c : N) (r : str) :
  is_dec c = true ->
  remove_char 8239 (remove_char 44 (c :: r))
  = c :: remove_char 8239 (remove_char 44 r).
Proof.
  intros Hc. pose proof (proj1 (is_dec_range c) Hc) as Hrg.
  unfold remove_char. simpl.
  replace (c =? 44)%N with false by (symmetry; apply N.eqb_neq; lia). simpl.
  replace (c =? 8239)%N with false by (symmetry; apply N.eqb_neq; lia).
  reflexivity.
Qed.

Lemma clean_points (c : N) (r : str) :
  single_point (c :: r) ->
  (count_occ N.eq_dec (remove_char 8239 (remove_char 44 r)) 46%N <= 1)%nat.
Proof.
  intros Hp. rewrite !remove_char_count by lia.
  unfold single_point in Hp. simpl in Hp.
  destruct (N.eq_dec c 46); [lia | assumption].
Qed.

(** A token with at most one point converts. *)
Lemma to_num_token (tok : str) :
  is_num_token tok -> single_point tok -> exists x, to_num tok = Ok x.
Proof.
  intros [c [r [E [Hc Hr]]]] Hp. subst tok. unfold to_num.
  rewrite (clean_token c r Hc).
  destruct (float_of_str_clean c (remove_char 8239 (remove_char 44 r)) Hc
              (clean_chars r Hr) (clean_points c r Hp)) as [x Hx].
  rewrite Hx. exists x. reflexivity.
Qed.

(** A short one converts to a small number. *)
Lemma to_num_short (tok : str) :
  is_num_token tok -> short_number tok -> exists x, to_num tok = Ok x /\ small x.
Proof.
  intros [c [r [E [Hc Hr]]]] [Hp Hlen]. subst tok. unfold to_num.
  rewrite (clean_token c r Hc).
  destruct (float_of_str_small c (remove_char 8239 (remove_char 44 r)) Hc
              (clean_chars r Hr) (clean_points c r Hp)) as [x [Hx Hs]].
  - pose proof (remove_char_length 8239 (remove_char 44 r)).
    pose proof (remove_char_length 44 r). simpl in Hlen. lia.
  - rewrite Hx. exists x. auto.
Qed.

(** Any token converts or makes [float] raise [ValueError]. *)
Lemma to_num_cases (tok : str) :
  is_num_token tok ->
  (exists x, to_num tok = Ok x /\ not_nan x) \/ to_num tok = Raise ValueError.
Proof.
  intros [c [r [E [Hc Hr]]]]. subst tok. unfold to_num.
  rewrite (clean_token c r Hc).
  destruct (float_of_str (c :: remove_char 8239 (remove_char 44 r))) as [x|] eqn:E.
  - left. exists x. split; [reflexivity|].
    eapply float_of_str_dd_not_nan;
      [exact Hc | apply clean_chars; exact Hr | exact E].
  - right. reflexivity.
Qed.

Lemma mapM_to_num_cases (toks : list str) :
  Forall is_num_token toks ->
  (exists xs, mapM to_num toks = Ok xs /\ Forall not_nan xs)
  \/ mapM to_num toks = Raise ValueError.
Proof.
  induction 1 as [|tok toks Ht F IH]; simpl.
  - left. exists []. auto.
  - destruct (to_num_cases tok Ht) as [[x [E Hx]]|E]; rewrite E; simpl.
    + destruct IH as [[xs [E' Hxs]]|E']; rewrite E'; simpl.
      * left. exists (x :: xs). auto.
      * right. reflexivity.
    + right. reflexivity.
Qed.

Lemma mapM_to_num_ok (toks : list str) :
  Forall is_num_token toks ->
  (forall tok, In tok toks -> single_point tok) ->
  exists xs, mapM to_num toks = Ok xs.
Proof.
  induction 1 as [|tok toks Ht F IH]; intros Hp; simpl.
  - exists []. auto.
  - destruct (to_num_token tok Ht (Hp tok (or_introl eq_refl))) as [x E].
    rewrite E. simpl.
    destruct IH as [xs E']; [intros t Hin; apply Hp; right; assumption|].
    rewrite E'. simpl. eexists. reflexivity.
Qed.

Lemma mapM_to_num_short (toks : list str) :
  Forall is_num_token toks ->
  (forall tok, In tok toks -> short_number tok) ->
  exists xs, mapM to_num toks = Ok xs /\ Forall small xs.
Proof.
  induction 1 as [|tok toks Ht F IH]; intros Hp; simpl.
  - exists []. auto.
  - destruct (to_num_short tok Ht (Hp tok (or_introl eq_refl))) as [x [E Hx]].
    rewrite E. simpl.
    destruct IH as [xs [E' Hxs]]; [intros t Hin; apply Hp; right; assumption|].
    rewrite E'. simpl. exists (x :: xs). auto.
Qed.

Lemma ends_of_cases (ab : str * str) :
  is_num_token (fst ab) -> is_num_token (snd ab) ->
  (exists xs, ends_of ab = Ok xs) \/ ends_of ab = Raise ValueError.
Proof.
  intros Ha Hb. unfold ends_of.
  destruct (to_num_cases (fst ab) Ha) as [[x [E _]]|E]; rewrite E; simpl;
    [|right; reflexivity].
  destruct (to_num_cases (snd ab) Hb) as [[y [E2 _]]|E2]; rewrite E2; simpl;
    [left; eexists; reflexivity | right; reflexivity].
Qed.

Lemma ends_of_ok (ab : str * str) :
  is_num_token (fst ab) -> is_num_token (snd ab) ->
  single_point (fst ab) -> single_point (snd ab) ->
  exists xs, ends_of ab = Ok xs.
Proof.
  intros Ha Hb Pa Pb. unfold ends_of.
  destruct (to_num_token (fst ab) Ha Pa) as [x E]. rewrite E. simpl.
  destruct (to_num_token (snd ab) Hb Pb) as [y E2]. rewrite E2. simpl.
  eexists. reflexivity.
Qed.

Lemma mapM_ends_cases (ps : list (str * str)) :
  Forall (fun ab => is_num_token (fst ab) /\ is_num_token (snd ab)) ps ->
  (exists xs, mapM ends_of ps = Ok xs) \/ mapM ends_of ps = Raise ValueError.
Proof.
  induction 1 as [|ab ps [Ha Hb] F IH]; simpl.
  - left. eexists. reflexivity.
  - destruct (ends_of_cases ab Ha Hb) as [[x E]|E]; rewrite E; simpl;
      [|right; reflexivity].
    destruct IH as [[xs E']|E']; rewrite E'; simpl;
      [left; eexists; reflexivity | right; reflexivity].
Qed.

Lemma mapM_ends_ok (ps : list (str * str)) :
  Forall (fun ab => is_num_token (fst ab) /\ is_num_token (snd ab)) ps ->
  (forall tok, In tok (flat_map (fun ab => [fst ab; snd ab]) ps) -> single_point tok) ->
  exists xs, mapM ends_of ps = Ok xs.
Proof.
  induction 1 as [|ab ps [Ha Hb] F IH]; intros Hp; simpl.
  - eexists. reflexivity.
  - simpl in Hp.
    destruct (ends_of_ok ab Ha Hb (Hp _ (or_introl eq_refl))
                (Hp _ (or_intror (or_introl eq_refl)))) as [x E].
    rewrite E. simpl.
    destruct IH as [xs E']; [intros t Hin; apply Hp; right; right; assumption|].
    rewrite E'. simpl. eexists. reflexivity.
Qed.

(** *** The parsers after the conversions *)

Lemma fold_select_in (f : pyfloat -> pyfloat -> bool) (r : list pyfloat) :
  forall x,
    In (fold_left (fun cur item => if f cur item then item else cur) r x) (x :: r).
Proof.
  induction r as [|y r IH]; intros x; simpl; [auto|].
  destruct (f x y).
  - right. apply IH.
  - destruct (IH x) as [E|H]; [left; assumption | right; right; assumption].
Qed.

Lemma py_max_in (l : list pyfloat) : l <> [] -> In (py_max l) l.
Proof.
  destruct l as [|x r]; [congruence|]. intros _.
  apply (fold_select_in (fun cur item => pf_ltb cur item)).
Qed.

Lemma py_min_in (l : list pyfloat) : l <> [] -> In (py_min l) l.
Proof.
  destruct l as [|x r]; [congruence|]. intros _.
  apply (fold_select_in (fun cur item => pf_ltb item cur)).
Qed.

Lemma round_half_even_bounds (q : Q) :
  (0 <= q)%Q ->
  (0 <= inject_Z (round_half_even q) /\ inject_Z (round_half_even q) <= q + 1)%Q.
Proof.
  intros H0. unfold round_half_even.
  pose proof (Qfloor_le q) as Hf.
  assert (Hf0 : 0 <= Qfloor q).
  { change 0 with (Qfloor 0). apply Qfloor_resp_le. assumption. }
  assert (H1 : (0 <= inject_Z (Qfloor q))%Q) by (rewrite <- (Zle_Qle 0); assumption).
  assert (H2 : (inject_Z (Qfloor q + 1) == inject_Z (Qfloor q) + 1)%Q)
    by (rewrite inject_Z_plus; reflexivity).
  destruct (Qcompare (q - inject_Z (Qfloor q)) (1 # 2));
    [destruct (Z.even (Qfloor q))| |]; try rewrite H2; split; lra.
Qed.

Lemma py_round3_small (q : Q) :
  (0 <= q)%Q -> (q <= inject_Z (10 ^ 300))%Q ->
  exists q1, py_round (Fin q) 3 = Fin q1
             /\ (0 <= q1 /\ q1 * 1000 <= q * 1000 + 1)%Q.
Proof.
  intros H0 H1.
  pose proof DBL_LIMIT_large as HL. rewrite inject_bounds in HL.
  pose proof ten_300_pos as HT.
  destruct (round_half_even_bounds (q * 1000)) as [R0 R1]; [lra|].
  exists (Qred (inject_Z (round_half_even (q * 1000)) / 1000)).
  split.
  - unfold py_round. change (inject_Z (10 ^ Z.of_nat 3)) with 1000%Q.
    apply fin_in_range.
    + apply Qle_shift_div_l; lra.
    + apply Qlt_shift_div_r; lra.
  - rewrite Qred_correct. split.
    + apply Qle_shift_div_l; lra.
    + assert (E : (inject_Z (round_half_even (q * 1000)) / 1000 * 1000
                   == inject_Z (round_half_even (q * 1000)))%Q) by field.
      rewrite E. assumption.
Qed.
(** [int(round(round(x, 3) * 1000))] on a small [x] *)
Lemma int_round_scaled_small (x : pyfloat) :
  small x -> exists z, py_int_round (pf_mulc (py_round x 3) 1000) = Ok z.
Proof.
  destruct x as [q| | |]; unfold small; try contradiction. intros [H0 H1].
  pose proof DBL_LIMIT_large as HL. rewrite inject_bounds in HL.
  pose proof ten_300_pos as HT.
  destruct (py_round3_small q H0 H1) as [q1 [E [Q0 Q1]]].
  rewrite E. unfold pf_mulc.
  rewrite fin_in_range by lra.
  eexists. reflexivity.
Qed.

Lemma int_round_small (x : pyfloat) :
  small x -> exists z, py_int_round x = Ok z.
Proof.
  destruct x; simpl; try contradiction. intros _. eexists. reflexivity.
Qed.

(** Conversion to an integer raises on an infinity only, [nan] apart. *)
Lemma int_round_cases (x : pyfloat) :
  not_nan x ->
  (exists z, py_int_round x = Ok z) \/ py_int_round x = Raise OverflowError.
Proof.
  unfold not_nan. destruct x; simpl; intros H;
    [left; eexists; reflexivity | right; reflexivity | right; reflexivity
     | congruence].
Qed.

Lemma py_round_not_nan (x : pyfloat) (n : nat) : not_nan x -> not_nan (py_round x n).
Proof.
  destruct x; simpl; intros H; try assumption. apply fin_not_nan.
Qed.

Lemma pf_mulc_not_nan (x : pyfloat) (c : Q) : not_nan x -> not_nan (pf_mulc x c).
Proof.
  destruct x; simpl; intros H; try assumption. apply fin_not_nan.
Qed.

Ltac run_dict :=
  cbv -[fin py_round pf_divc pf_mulc py_int_round py_min py_max py_avg].

Ltac finish_ok := run_dict; eexists; reflexivity.

Lemma power_fields_ok {U : Unicode} (text : str) (kws hps : list pyfloat) :
  is_empty text = false ->
  mapM to_num (findall1 true re_kw text) = Ok kws ->
  mapM to_num (findall1 true re_hp text) = Ok hps ->
  exists d, _parse_power text = Ok d.
Proof.
  intros Ht Hk Hh. unfold _parse_power. rewrite Ht, Hk, Hh.
  cbv beta iota delta [bind].
  destruct kws as [|k kws]; destruct hps as [|h hps]; finish_ok.
Qed.

Lemma weight_fields_ok {U : Unicode} (text : str)
    (ends : list (list pyfloat)) (singles : list pyfloat) :
  is_empty text = false ->
  mapM ends_of (findall2 true re_kg_range text) = Ok ends ->
  mapM to_num (findall1 true re_kg text) = Ok singles ->
  (fromkeys (concat ends ++ singles) = [] ->
   exists lbs, mapM to_num (findall1 true re_lb text) = Ok lbs) ->
  exists d, _parse_weight text = Ok d.
Proof.
  intros Ht He Hs Hl. unfold _parse_weight. rewrite Ht, He, Hs.
  cbv beta iota zeta delta [bind].
  destruct (fromkeys (concat ends ++ singles)) as [|k kgs].
  - destruct (Hl eq_refl) as [lbs Hlbs]. rewrite Hlbs.
    destruct lbs as [|l lbs]; finish_ok.
  - finish_ok.
Qed.

Lemma weight_fields_cases {U : Unicode} (text : str)
    (ends : list (list pyfloat)) (singles : list pyfloat) :
  is_empty text = false ->
  mapM ends_of (findall2 true re_kg_range text) = Ok ends ->
  mapM to_num (findall1 true re_kg text) = Ok singles ->
  (exists d, _parse_weight text = Ok d) \/ _parse_weight text = Raise ValueError.
Proof.
  intros Ht He Hs.
  destruct (mapM_to_num_cases (findall1 true re_lb text)
              (findall1_tokens true re_lb text groups_re_lb)) as [[lbs [Hl _]]|Hl].
  - left. apply (weight_fields_ok text ends singles Ht He Hs).
    intros _. exists lbs. assumption.
  - destruct (fromkeys (concat ends ++ singles)) as [|k kgs] eqn:Ek.
    + right. unfold _parse_weight. rewrite Ht, He, Hs.
      cbv beta iota zeta delta [bind]. rewrite Ek, Hl. reflexivity.
    + left. apply (weight_fields_ok text ends singles Ht He Hs).
      rewrite Ek. discriminate.
Qed.

Lemma displacement_fields_ok {U : Unicode} (text : str) (ls ccs : list pyfloat) :
  is_empty text = false ->
  mapM to_num (findall1 true re_l text) = Ok ls ->
  mapM to_num (findall1 true re_cc text) = Ok ccs ->
  Forall small ls -> Forall small ccs ->
  exists d, _parse_displacement text = Ok d.
Proof.
  intros Ht Hl Hc Fl Fc. unfold _parse_displacement. rewrite Ht, Hl, Hc.
  cbv beta iota delta [bind].
  rewrite Forall_forall in Fl, Fc.
  destruct ls as [|l ls].
  - destruct ccs as [|c ccs]; [finish_ok|].
    destruct (int_round_small (py_min (c :: ccs))) as [z1 E1];
      [apply Fc, py_min_in; discriminate|].
    destruct (int_round_small (py_max (c :: ccs))) as [z2 E2];
      [apply Fc, py_max_in; discriminate|].
    run_dict. rewrite E1, E2. eexists. reflexivity.
  - destruct (int_round_scaled_small (py_max (l :: ls))) as [z E];
      [apply Fl, py_max_in; discriminate|].
    run_dict. rewrite E. eexists. reflexivity.
Qed.

Lemma displacement_fields_cases {U : Unicode} (text : str) (ls ccs : list pyfloat) :
  is_empty text = false ->
  mapM to_num (findall1 true re_l text) = Ok ls ->
  mapM to_num (findall1 true re_cc text) = Ok ccs ->
  Forall not_nan ls -> Forall not_nan ccs ->
  (exists d, _parse_displacement text = Ok d)
  \/ _parse_displacement text = Raise OverflowError.
Proof.
  intros Ht Hl Hc Fl Fc. unfold _parse_displacement. rewrite Ht, Hl, Hc.
  cbv beta iota delta [bind].
  rewrite Forall_forall in Fl, Fc.
  destruct ls as [|l ls].
  - destruct ccs as [|c ccs]; [left; finish_ok|].
    destruct (int_round_cases (py_min (c :: ccs))) as [[z1 E1]|E1];
      [apply Fc, py_min_in; discriminate | |];
      [|right; run_dict; rewrite E1; reflexivity].
    destruct (int_round_cases (py_max (c :: ccs))) as [[z2 E2]|E2];
      [apply Fc, py_max_in; discriminate | |];
      [|right; run_dict; rewrite E1, E2; reflexivity].
    left. run_dict. rewrite E1, E2. eexists. reflexivity.
  - destruct (int_round_cases (pf_mulc (py_round (py_max (l :: ls)) 3) 1000))
      as [[z E]|E].
    + apply pf_mulc_not_nan, py_round_not_nan, Fl, py_max_in. discriminate.
    + left. run_dict. rewrite E. eexists. reflexivity.
    + right. run_dict. rewrite E. reflexivity.
Qed.

Lemma torque_fields_ok {U : Unicode} (text : str) (nms lbfts : list pyfloat) :
  is_empty text = false ->
  mapM to_num (findall1 true re_nm text) = Ok nms ->
  mapM to_num (findall1 true re_lbft text) = Ok lbfts ->
  exists d, _parse_torque text = Ok d.
Proof.
  intros Ht Hn Hl. unfold _parse_torque. rewrite Ht, Hn, Hl.
  cbv beta iota delta [bind].
  destruct nms as [|n nms]; destruct lbfts as [|l lbfts];
    finish_ok.
Qed.

(** *** The four parsers *)

Ltac raises_value_error :=
  right; exists ValueError; split; [left; reflexivity|].

Lemma parse_power_contract {U : Unicode} (text : str) :
  parser_contract _parse_power power_tokens single_point [ValueError] text.
Proof.
  split; [reflexivity|]. split; [|split].
  - unfold power_tokens. intros E. apply app_eq_nil in E. destruct E as [E1 E2].
    unfold _parse_power. rewrite E1, E2. destruct (is_empty text); reflexivity.
  - intros Hp. destruct (is_empty text) eqn:Ht.
    + unfold _parse_power. rewrite Ht. eexists. reflexivity.
    + destruct (mapM_to_num_ok (findall1 true re_kw text)
                  (findall1_tokens true re_kw text groups_re_kw)) as [kws Hk].
      { intros tok Hin. apply Hp. unfold power_tokens. apply in_or_app. auto. }
      destruct (mapM_to_num_ok (findall1 true re_hp text)
                  (findall1_tokens true re_hp text groups_re_hp)) as [hps Hh].
      { intros tok Hin. apply Hp. unfold power_tokens. apply in_or_app. auto. }
      eapply power_fields_ok; eassumption.
  - destruct (is_empty text) eqn:Ht.
    + left. unfold _parse_power. rewrite Ht. eexists. reflexivity.
    + destruct (mapM_to_num_cases (findall1 true re_kw text)
                  (findall1_tokens true re_kw text groups_re_kw))
        as [[kws [Hk _]]|Hk].
      * destruct (mapM_to_num_cases (findall1 true re_hp text)
                    (findall1_tokens true re_hp text groups_re_hp))
          as [[hps [Hh _]]|Hh].
        -- left. eapply power_fields_ok; eassumption.
        -- raises_value_error. unfold _parse_power. rewrite Ht, Hk, Hh. reflexivity.
      * raises_value_error. unfold _parse_power. rewrite Ht, Hk. reflexivity.
Qed.

Lemma parse_torque_contract {U : Unicode} (text : str) :
  parser_contract _parse_torque torque_tokens single_point [ValueError] text.
Proof.
  split; [reflexivity|]. split; [|split].
  - unfold torque_tokens. intros E. apply app_eq_nil in E. destruct E as [E1 E2].
    unfold _parse_torque. rewrite E1, E2. destruct (is_empty text); reflexivity.
  - intros Hp. destruct (is_empty text) eqn:Ht.
    + unfold _parse_torque. rewrite Ht. eexists. reflexivity.
    + destruct (mapM_to_num_ok (findall1 true re_nm text)
                  (findall1_tokens true re_nm text groups_re_nm)) as [nms Hn].
      { intros tok Hin. apply Hp. unfold torque_tokens. apply in_or_app. auto. }
      destruct (mapM_to_num_ok (findall1 true re_lbft text)
                  (findall1_tokens true re_lbft text groups_re_lbft))
        as [lbfts Hl].
      { intros tok Hin. apply Hp. unfold torque_tokens. apply in_or_app. auto. }
      eapply torque_fields_ok; eassumption.
  - destruct (is_empty text) eqn:Ht.
    + left. unfold _parse_torque. rewrite Ht. eexists. reflexivity.
    + destruct (mapM_to_num_cases (findall1 true re_nm text)
                  (findall1_tokens true re_nm text groups_re_nm))
        as [[nms [Hn _]]|Hn].
      * destruct (mapM_to_num_cases (findall1 true re_lbft text)
                    (findall1_tokens true re_lbft text groups_re_lbft))
          as [[lbfts [Hl _]]|Hl].
        -- left. eapply torque_fields_ok; eassumption.
        -- raises_value_error. unfold _parse_torque. rewrite Ht, Hn, Hl. reflexivity.
      * raises_value_error. unfold _parse_torque. rewrite Ht, Hn. reflexivity.
Qed.

Lemma parse_displacement_contract {U : Unicode} (text : str) :
  parser_contract _parse_displacement displacement_tokens short_number
    [ValueError; OverflowError] text.
Proof.
  split; [reflexivity|]. split; [|split].
  - unfold displacement_tokens. intros E. apply app_eq_nil in E.
    destruct E as [E1 E2].
    unfold _parse_displacement. rewrite E1, E2. destruct (is_empty text); reflexivity.
  - intros Hp. destruct (is_empty text) eqn:Ht.
    + unfold _parse_displacement. rewrite Ht. eexists. reflexivity.
    + destruct (mapM_to_num_short (findall1 true re_l text)
                  (findall1_tokens true re_l text groups_re_l)) as [ls [Hl Fl]].
      { intros tok Hin. apply Hp. unfold displacement_tokens. apply in_or_app. auto. }
      destruct (mapM_to_num_short (findall1 true re_cc text)
                  (findall1_tokens true re_cc text groups_re_cc)) as [ccs [Hc Fc]].
      { intros tok Hin. apply Hp. unfold displacement_tokens. apply in_or_app. auto. }
      eapply displacement_fields_ok; eassumption.
  - destruct (is_empty text) eqn:Ht.
    + left. unfold _parse_displacement. rewrite Ht. eexists. reflexivity.
    + destruct (mapM_to_num_cases (findall1 true re_l text)
                  (findall1_tokens true re_l text groups_re_l))
        as [[ls [Hl Fl]]|Hl].
      * destruct (mapM_to_num_cases (findall1 true re_cc text)
                    (findall1_tokens true re_cc text groups_re_cc))
          as [[ccs [Hc Fc]]|Hc].
        -- destruct (displacement_fields_cases text ls ccs Ht Hl Hc Fl Fc)
             as [H|H]; [left; assumption|].
           right. exists OverflowError. split; [right; left; reflexivity | assumption].
        -- raises_value_error. unfold _parse_displacement. rewrite Ht, Hl, Hc.
           reflexivity.
      * raises_value_error. unfold _parse_displacement. rewrite Ht, Hl. reflexivity.
Qed.

Lemma flat_map_pairs_nil {A} (l : list (A * A)) :
  flat_map (fun ab => [fst ab; snd ab]) l = [] -> l = [].
Proof. destruct l; [reflexivity | discriminate]. Qed.

Lemma parse_weight_contract {U : Unicode} (text : str) :
  parser_contract _parse_weight weight_tokens single_point [ValueError] text.
Proof.
  split; [reflexivity|]. split; [|split].
  - unfold weight_tokens. intros E. apply app_eq_nil in E. destruct E as [E1 E].
    apply app_eq_nil in E. destruct E as [E2 E3]. apply flat_map_pairs_nil in E1.
    unfold _parse_weight. rewrite E1, E2, E3. destruct (is_empty text); reflexivity.
  - intros Hp. destruct (is_empty text) eqn:Ht.
    + unfold _parse_weight. rewrite Ht. eexists. reflexivity.
    + destruct (mapM_ends_ok (findall2 true re_kg_range text)
                  (findall2_tokens true re_kg_range text groups_re_kg_range))
        as [ends He].
      { intros tok Hin. apply Hp. unfold weight_tokens. apply in_or_app. auto. }
      destruct (mapM_to_num_ok (findall1 true re_kg text)
                  (findall1_tokens true re_kg text groups_re_kg)) as [singles Hs].
      { intros tok Hin. apply Hp. unfold weight_tokens.
        apply in_or_app. right. apply in_or_app. auto. }
      destruct (mapM_to_num_ok (findall1 true re_lb text)
                  (findall1_tokens true re_lb text groups_re_lb)) as [lbs Hl].
      { intros tok Hin. apply Hp. unfold weight_tokens.
        apply in_or_app. right. apply in_or_app. auto. }
      eapply weight_fields_ok; try eassumption. intros _. exists lbs. assumption.
  - destruct (is_empty text) eqn:Ht.
    + left. unfold _parse_weight. rewrite Ht. eexists. reflexivity.
    + destruct (mapM_ends_cases (findall2 true re_kg_range text)
                  (findall2_tokens true re_kg_range text groups_re_kg_range))
        as [[ends He]|He].
      * destruct (mapM_to_num_cases (findall1 true re_kg text)
                    (findall1_tokens true re_kg text groups_re_kg))
          as [[singles [Hs _]]|Hs].
        -- destruct (weight_fields_cases text ends singles Ht He Hs) as [H|H];
             [left; assumption | raises_value_error; assumption].
        -- raises_value_error. unfold _parse_weight. rewrite Ht, He, Hs. reflexivity.
      * raises_value_error. unfold _parse_weight. rewrite Ht, He. reflexivity.
Qed.

(** C2, as the specification states it, fails: a numeric token with two
    decimal points matches the pattern of every parser and [float] rejects
    it, so each parser raises [ValueError]. *)
Lemma parsers_raise_on_two_points :
  _parse_power py:"1.2.3 kW" = Raise ValueError
  /\ _parse_weight py:"1.2.3 kg" = Raise ValueError
  /\ _parse_displacement py:"1.2.3 L" = Raise ValueError
  /\ _parse_torque py:"1.2.3 Nm" = Raise ValueError.
Proof. repeat split; vm_compute; reflexivity. Qed.

(** A displacement of 1 followed by 310 zeros, in litres, is infinite as a
    float, and [int(round(...))] raises [OverflowError] on it. *)
Lemma displacement_overflow_example :
  _parse_displacement (py:"1" ++ repeat 48%N 310 ++ py:" L") = Raise OverflowError.
Proof. vm_compute. reflexivity. Qed.

(** C2, amended.  Each of the four parsers terminates on every input, with
    a mapping or with [ValueError] (the displacement parser also with
    [OverflowError]) and nothing else; it returns the empty mapping on the
    empty input and on an input in which none of its patterns matches; and
    it returns a mapping whenever every numeric token its patterns match
    has at most one decimal point and, for the displacement parser, at
    most 300 characters. *)
Theorem parsers_return_mapping :
  forall (U : Unicode) (text : str),
    parser_contract _parse_power power_tokens single_point [ValueError] text
    /\ parser_contract _parse_weight weight_tokens single_point [ValueError] text
    /\ parser_contract _parse_displacement displacement_tokens short_number
         [ValueError; OverflowError] text
    /\ parser_contract _parse_torque torque_tokens single_point [ValueError] text.
Proof.
  intros U text. split; [|split; [|split]].
  - apply parse_power_contract.
  - apply parse_weight_contract.
  - apply parse_displacement_contract.
  - apply parse_torque_contract.
Qed.

Lemma parsers_return_mapping_witness :
  (exists d, _parse_weight py:"1,931–2,055 kg" = Ok d)
  /\ (exists d, _parse_displacement py:"1,998 cc (2.0 L)" = Ok d).
Proof.
  split.
  - apply (proj1 (proj2 (proj2 (proj1 (proj2
             (parsers_return_mapping basic_tables py:"1,931–2,055 kg")))))).
    vm_compute. intros tok H.
    repeat (destruct H as [H|H]; [subst tok; vm_compute; lia|]).
    contradiction.
  - apply (proj1 (proj2 (proj2 (proj1 (proj2 (proj2
             (parsers_return_mapping basic_tables py:"1,998 cc (2.0 L)"))))))).
    vm_compute. intros tok H.
    repeat (destruct H as [H|H]; [subst tok; split; vm_compute; lia|]).
    contradiction.
Defined.

(** ** Candidate scorer *)

Lemma model_bonus_cases {U : Unicode} (qtokens cand_tokens : list str) :
  model_bonus qtokens cand_tokens = 6
  <-> existsb has_digit qtokens = true
      /\ existsb (fun t => mem t qtokens) cand_tokens = true.
Proof.
  unfold model_bonus.
  destruct (existsb has_digit qtokens);
    destruct (existsb (fun t => mem t qtokens) cand_tokens);
    destruct (existsb has_digit cand_tokens); simpl;
    intuition (try discriminate; try lia).
Qed.

(** C3.  The bonus of 6 is given as soon as the query has a digit-bearing
    token and the candidate shares any token with the query, digit-bearing
    or not; so for the query "Nissan Skyline R34" the candidate
    "Nissan Skyline R33" receives 6 as well. *)
Theorem model_bonus_any_shared_token :
  (forall (U : Unicode) (qtokens cand_tokens : list str),
      model_bonus qtokens cand_tokens = 6
      <-> (exists t, In t qtokens /\ has_digit t = true)
          /\ (exists t, In t cand_tokens /\ In t qtokens))
  /\ model_bonus (tokens py:"Nissan Skyline R34") (tokens py:"Nissan Skyline R33") = 6.
Proof.
  split.
  - intros U qtokens cand_tokens. rewrite model_bonus_cases.
    rewrite !existsb_exists. split.
    + intros [[t [Ht Hd]] [c [Hc Hm]]]. split.
      * exists t. auto.
      * exists c. split; [assumption|]. apply mem_In. assumption.
    + intros [[t [Ht Hd]] [c [Hc Hm]]]. split.
      * exists t. auto.
      * exists c. split; [assumption|]. apply mem_In. assumption.
  - vm_compute. reflexivity.
Qed.

Lemma token_score_shared {U : Unicode} (qtokens cand_tokens : list str) :
  0 < token_score qtokens cand_tokens
  <-> exists t, In t qtokens /\ In t cand_tokens.
Proof.
  unfold token_score. split.
  - intros H.
    destruct (nodup str_eq_dec (filter (fun t => mem t qtokens) cand_tokens))
      as [|t r] eqn:E; [simpl in H; lia|].
    assert (Hin : In t (nodup str_eq_dec (filter (fun t => mem t qtokens) cand_tokens)))
      by (rewrite E; left; reflexivity).
    apply nodup_In in Hin. apply filter_In in Hin. destruct Hin as [Hc Hm].
    exists t. split; [apply mem_In; assumption | assumption].
  - intros [t [Hq Hc]].
    assert (Hin : In t (nodup str_eq_dec (filter (fun t => mem t qtokens) cand_tokens))).
    { apply nodup_In. apply filter_In. split; [assumption | apply mem_In; assumption]. }
    destruct (nodup str_eq_dec (filter (fun t => mem t qtokens) cand_tokens));
      [contradiction | simpl; lia].
Qed.

Lemma token_score_nonneg {U : Unicode} (qtokens cand_tokens : list str) :
  0 <= token_score qtokens cand_tokens.
Proof. unfold token_score. lia. Qed.

Lemma wd_description_absent (a b c : wd_field) :
  dict_get py:"description"
    [(py:"qid", a); (py:"quantities", b); (py:"linked", c)] = None.
Proof. vm_compute. reflexivity. Qed.

(** C4.  The dictionary the scorer reads the description from has the
    keys [qid], [quantities] and [linked] only, so the penalty is 0 for
    every candidate, whatever its entity is. *)
Theorem non_vehicle_penalty_never_applies :
  forall (U : Unicode) (w : World) (cand : str),
    non_vehicle_penalty w cand = 0.
Proof.
  intros U w cand. unfold non_vehicle_penalty, wikidata_fetch_claims_for_title.
  destruct (wikidata_entity_for_title w cand) as [qid|]; [|reflexivity].
  destruct (is_empty qid); [reflexivity|].
  destruct (wikidata_get_entity w qid) as [ent|]; [|reflexivity].
  rewrite wd_description_absent. reflexivity.
Qed.

Lemma score_candidate_ok {U : Unicode} (w : World) (cache : cache_store)
    (qtokens : list str) (cand : str) :
  exists r, score_candidate w cache qtokens cand = Ok r.
Proof.
  unfold score_candidate.
  destruct (token_score qtokens (tokens cand) =? 0); [eexists; reflexivity|].
  unfold _cache_get. simpl.
  destruct (dict_get (lower cand) cache) as [e|]; simpl;
    try match goal with |- context [if ?b then _ else _] => destruct b end;
    eexists; reflexivity.
Qed.

Lemma score_candidate_some {U : Unicode} (w : World) (cache : cache_store)
    (qtokens : list str) (cand : str) (sc : Z) :
  score_candidate w cache qtokens cand = Ok (Some sc) ->
  0 < token_score qtokens (tokens cand).
Proof.
  unfold score_candidate.
  destruct (token_score qtokens (tokens cand) =? 0) eqn:E; [discriminate|].
  intros _. apply Z.eqb_neq in E.
  pose proof (token_score_nonneg qtokens (tokens cand)). lia.
Qed.

Lemma score_loop_ok {U : Unicode} (w : World) (cache : cache_store)
    (qtokens cands : list str) :
  forall best, exists r, score_loop w cache qtokens cands best = Ok r.
Proof.
  induction cands as [|cand rest IH]; intros best; simpl.
  - eexists; reflexivity.
  - destruct (score_candidate_ok w cache qtokens cand) as [sc Hsc].
    rewrite Hsc. simpl. destruct sc as [s|]; [|apply IH].
    destruct (s >? snd best); apply IH.
Qed.

Lemma score_loop_overlapping {U : Unicode} (w : World) (cache : cache_store)
    (qtokens all cands : list str) :
  incl cands all ->
  forall best r,
    overlapping qtokens all (fst best) ->
    score_loop w cache qtokens cands best = Ok r ->
    overlapping qtokens all (fst r).
Proof.
  induction cands as [|cand rest IH]; intros Hincl best r Hbest; simpl.
  - intros E. injection E as <-. assumption.
  - assert (Hrest : incl rest all) by (intros x Hx; apply Hincl; right; assumption).
    destruct (score_candidate w cache qtokens cand) as [sc|e] eqn:Hsc; simpl;
      [|discriminate].
    destruct sc as [s|]; [|apply IH; assumption].
    destruct (s >? snd best); [|apply IH; assumption].
    apply IH; [assumption|]. simpl. split.
    + apply Hincl. left. reflexivity.
    + eapply score_candidate_some. eassumption.
Qed.

(** C8.  The scorer always returns, and a title it selects is one of the
    candidates and shares a token with the query; the fallback turns an
    absent title into the top hit only if that hit shares a token with
    the query, and into no title otherwise. *)
Theorem selected_title_shares_token :
  forall (U : Unicode) (w : World) (cache : cache_store) (q : str),
    (exists r, score_and_select w cache q = Ok r)
    /\ (forall t,
          score_and_select w cache q = Ok (Some t) ->
          In t (wiki_search_candidates w q 8)
          /\ exists tok, In tok (tokens q) /\ In tok (tokens t))
    /\ (forall t,
          top_hit_fallback w q None = Some t ->
          wiki_search_title w q = Some t
          /\ exists tok, In tok (tokens q) /\ In tok (tokens t))
    /\ ((forall t, wiki_search_title w q = Some t ->
                   ~ exists tok, In tok (tokens q) /\ In tok (tokens t)) ->
        top_hit_fallback w q None = None).
Proof.
  intros U w cache q. split; [|split; [|split]].
  - unfold score_and_select.
    destruct (is_empty (wiki_search_candidates w q 8)); [eexists; reflexivity|].
    destruct (score_loop_ok w cache (tokens q) (wiki_search_candidates w q 8) (None, -1))
      as [r Hr].
    rewrite Hr. simpl. eexists; reflexivity.
  - intros t. unfold score_and_select.
    destruct (is_empty (wiki_search_candidates w q 8)); [discriminate|].
    destruct (score_loop w cache (tokens q) (wiki_search_candidates w q 8) (None, -1))
      as [r|e] eqn:Hr; simpl; [|discriminate].
    intros E. injection E as E.
    pose proof (score_loop_overlapping w cache (tokens q)
                  (wiki_search_candidates w q 8) (wiki_search_candidates w q 8)
                  (incl_refl _) (None, -1) r I Hr) as H.
    rewrite E in H. simpl in H. destruct H as [Hin Hpos].
    split; [assumption|]. apply token_score_shared. assumption.
  - intros t. unfold top_hit_fallback. simpl.
    destruct (wiki_search_title w q) as [top|]; simpl; [|discriminate].
    destruct (some_nonempty (Some top)); [|discriminate].
    destruct (0 <? token_score (tokens q) (tokens top)) eqn:E; [|discriminate].
    intros H. injection H as <-. split; [reflexivity|].
    apply token_score_shared. apply Z.ltb_lt. assumption.
  - intros H. unfold top_hit_fallback. simpl.
    destruct (wiki_search_title w q) as [top|]; simpl; [|reflexivity].
    destruct (some_nonempty (Some top)); [|reflexivity].
    destruct (0 <? token_score (tokens q) (tokens top)) eqn:E; [|reflexivity].
    exfalso. apply (H top eq_refl). apply token_score_shared.
    apply Z.ltb_lt. assumption.
Qed.

Lemma selected_title_shares_token_witness :
  score_and_select sample_world [] py:"Nissan Skyline R34"
  = Ok (Some py:"Nissan Skyline R34")
  /\ In py:"Nissan Skyline R34"
        (wiki_search_candidates sample_world py:"Nissan Skyline R34" 8)
  /\ exists tok,
       In tok (tokens py:"Nissan Skyline R34")
       /\ In tok (tokens py:"Nissan Skyline R34").
Proof.
  split; [vm_compute; reflexivity|].
  apply (proj1 (proj2 (selected_title_shares_token
                         basic_tables sample_world [] py:"Nissan Skyline R34"))).
  vm_compute. reflexivity.
Defined.

(** ** The search endpoint *)

(** C1.  When the query matches nothing in the catalog, the query cache
    misses and neither the scorer nor the fallback selects a title, the
    handler calls [_cache_get(None)], whose [title.lower()] raises
    [AttributeError] before the [if not title: return []] of line 643 is
    reached: the request ends in that exception, not in the empty list. *)
Theorem get_cars_no_title_raises :
  forall (U : Unicode) (w : World) (cache : cache_store) (q : str)
         (title : option str),
    is_empty q = false ->
    local_matches (load_data w) q = Ok [] ->
    truthy (_cache_get_query (CACHE_TTL_DAYS w) (time_now w) cache q) = false ->
    score_and_select w cache q = Ok title ->
    top_hit_fallback w q title = None ->
    get_cars w cache q = (cache, Raise AttributeError).
Proof.
  intros U w cache q title Hq Hm Hc Hs Hf.
  unfold get_cars. rewrite Hq, Hm. simpl. rewrite Hc, Hs, Hf.
  reflexivity.
Qed.

Lemma get_cars_no_title_raises_witness :
  get_cars sample_world [] py:"zzz" = ([], Raise AttributeError).
Proof.
  apply (get_cars_no_title_raises basic_tables sample_world [] py:"zzz" None);
    vm_compute; reflexivity.
Defined.

Lemma try_steps_on_specs (fs : list (dict pyval -> dict pyval))
    (last : locals -> result locals) (l : locals) :
  synth l = None ->
  (forall l', synth l' = None -> exists e, last l' = Raise e) ->
  synth (try_steps (map on_specs fs ++ [last]) l) = None.
Proof.
  intros Hl Hlast. revert l Hl.
  induction fs as [|f r IH]; intros l Hl; simpl.
  - destruct (Hlast l Hl) as [e He]. rewrite He. assumption.
  - apply IH. simpl. assumption.
Qed.

Lemma merge_wikidata_synth_unbound {U : Unicode} (w : World) (title : str) (l : locals) :
  synth l = None -> synth (merge_wikidata w title l) = None.
Proof.
  intros Hl. unfold merge_wikidata.
  destruct (wikidata_fetch_claims_for_title w title) as [wd|]; [|assumption].
  destruct (dict_get py:"quantities" wd) as [[q|wd_q|lk]|]; try assumption.
  destruct (is_empty wd_q); [assumption|].
  apply (try_steps_on_specs [merge_P1100 wd_q; merge_P1112 wd_q; merge_P2067 wd_q]);
    [assumption|].
  intros l' Hl'. unfold attach_wikidata. rewrite Hl'. eexists; reflexivity.
Qed.

(** C10.  The synthesized item has the eight keys of the literal of line
    744 and no [_wikidata]: the assignment of line 740 finds [synth]
    unbound, raises, and the [except] of line 741 swallows it.  The item
    goes unchanged into the response and under both cache keys. *)
Theorem synthesized_item_keys :
  forall (U : Unicode) (w : World) (cache : cache_store) (q title : str)
         (sm : summary),
    dict_keys (synthesize w title sm)
    = [py:"id"; py:"name"; py:"manufacturer"; py:"year"; py:"slug";
       py:"specs"; py:"description"; py:"_wiki"]
    /\ dict_has py:"_wikidata" (synthesize w title sm) = false
    /\ (forall wd sp, attach_wikidata wd {| specs := sp; synth := None |}
                      = Raise UnboundLocalError)
    /\ (forall sp, synth (merge_wikidata w title {| specs := sp; synth := None |}) = None)
    /\ (forall cached,
          _cache_get (CACHE_TTL_DAYS w) (time_now w) cache (Some title) = Ok cached ->
          truthy cached = false ->
          is_empty title = false ->
          wiki_fetch_summary w title = Some sm ->
          let it := VDict (synthesize w title sm) in
          exists cache',
            enrich w cache q (Some title) = (cache', Ok [it])
            /\ dict_get (lower title) cache' = Some {| ts := time_now w; item := it |}
            /\ dict_get (py:"q:" ++ _normalize_query q) cache'
               = Some {| ts := time_now w; item := it |}).
Proof.
  intros U w cache q title sm.
  split; [reflexivity|]. split; [vm_compute; reflexivity|].
  split; [reflexivity|]. split.
  - intros sp. apply merge_wikidata_synth_unbound. reflexivity.
  - intros cached Hc Hf Ht Hs it. eexists. split; [|split].
    + unfold enrich. rewrite Hc, Hf.
      unfold some_nonempty. simpl. rewrite Ht. simpl. rewrite Hs. reflexivity.
    + unfold _cache_set_query, _cache_set.
      destruct (str_eq_dec (lower title) (py:"q:" ++ _normalize_query q)) as [E|E].
      * rewrite E. apply dict_get_set_same.
      * rewrite dict_get_set_other by assumption. apply dict_get_set_same.
    + unfold _cache_set_query. apply dict_get_set_same.
Qed.

Lemma synthesized_item_keys_witness :
  exists cache',
    enrich sample_world [] py:"Nissan Skyline R34" (Some py:"Nissan Skyline R34")
    = (cache',
       Ok [VDict (synthesize sample_world py:"Nissan Skyline R34"
                    (sample_summary py:"Nissan Skyline R34"))])
    /\ dict_get (lower py:"Nissan Skyline R34") cache'
       = Some {| ts := 1000;
                 item := VDict (synthesize sample_world py:"Nissan Skyline R34"
                                  (sample_summary py:"Nissan Skyline R34")) |}
    /\ dict_get (py:"q:" ++ _normalize_query py:"Nissan Skyline R34") cache'
       = Some {| ts := 1000;
                 item := VDict (synthesize sample_world py:"Nissan Skyline R34"
                                  (sample_summary py:"Nissan Skyline R34")) |}.
Proof.
  apply (proj2 (proj2 (proj2 (proj2
           (synthesized_item_keys basic_tables sample_world []
              py:"Nissan Skyline R34" py:"Nissan Skyline R34"
              (sample_summary py:"Nissan Skyline R34"))))) VNone);
    vm_compute; reflexivity.
Defined.

(** ** Enrichment cache *)

(** C7, as the specification states it, fails: ["a b"] and ["b a"] have
    the same tokens up to order, but different keys, and what is stored
    under the first is not found under the second. *)
Lemma cache_key_order_sensitive :
  Permutation (tokens py:"a b") (tokens py:"b a")
  /\ _normalize_query py:"a b" <> _normalize_query py:"b a"
  /\ _cache_get_query 7 1000 (_cache_set_query 1000 [] py:"a b" (VStr py:"item")) py:"b a"
     = VNone.
Proof.
  split; [|split].
  - vm_compute. apply perm_swap.
  - vm_compute. discriminate.
  - vm_compute. reflexivity.
Qed.

(** C7, amended.  Two queries with the same sequence of normalized tokens
    have the same key, and an item stored under one at time [t0] is what a
    lookup under the other returns at any time [t1] with
    [(t1 - t0) / 86400 <= ttl]. *)
Theorem same_tokens_same_cache_entry :
  forall (U : Unicode) (ttl : Z) (t0 t1 : Q) (cache : cache_store)
         (q1 q2 : str) (it : pyval),
    tokens q1 = tokens q2 ->
    ((t1 - t0) / 86400 <= inject_Z ttl)%Q ->
    _normalize_query q1 = _normalize_query q2
    /\ _cache_get_query ttl t1 (_cache_set_query t0 cache q1 it) q2 = it.
Proof.
  intros U ttl t0 t1 cache q1 q2 it Htok Hage.
  assert (Hn : _normalize_query q1 = _normalize_query q2)
    by (unfold _normalize_query; rewrite Htok; reflexivity).
  split; [assumption|].
  unfold _cache_get_query, _cache_set_query. rewrite Hn.
  rewrite dict_get_set_same. unfold entry_item. simpl.
  apply Qle_bool_iff in Hage. rewrite Hage. reflexivity.
Qed.

Lemma same_tokens_same_cache_entry_witness :
  _normalize_query py:"Nissan  GT-R" = _normalize_query py:"nissan gt r"
  /\ _cache_get_query 7 (1000 + 86400)
       (_cache_set_query 1000 [] py:"Nissan  GT-R" (VStr py:"item")) py:"nissan gt r"
     = VStr py:"item".
Proof.
  apply (same_tokens_same_cache_entry basic_tables 7 1000 (1000 + 86400) []
           py:"Nissan  GT-R" py:"nissan gt r" (VStr py:"item")).
  - vm_compute. reflexivity.
  - vm_compute. discriminate.
Defined.

(** ** Quantity claim extractor *)

Lemma entries_append_same {V} (p : str) (e : V) (out : dict (list V)) :
  entries p (dict_append p e out) = entries p out ++ [e].
Proof.
  unfold entries, dict_append.
  destruct (dict_get p out) as [l|]; rewrite dict_get_set_same; reflexivity.
Qed.

Lemma entries_append_other {V} (p p' : str) (e : V) (out : dict (list V)) :
  p' <> p -> entries p' (dict_append p e out) = entries p' out.
Proof.
  intros N. unfold entries, dict_append.
  destruct (dict_get p out) as [l|]; rewrite dict_get_set_other by assumption;
    reflexivity.
Qed.

Lemma entries_append_mono {V} (p p' : str) (e x : V) (out : dict (list V)) :
  In x (entries p' out) -> In x (entries p' (dict_append p e out)).
Proof.
  intros H. destruct (str_eq_dec p' p) as [E|E].
  - subst p'. rewrite entries_append_same. apply in_or_app. left. assumption.
  - rewrite entries_append_other by assumption. assumption.
Qed.

Lemma quantity_step_mono (w : World) (prop p : str) (c : claim) (x : qentry)
    (st : dict (list qentry) * dict (option str)) :
  In x (entries p (fst st)) ->
  In x (entries p (fst (quantity_step w prop st c))).
Proof.
  intros H. unfold quantity_step. destruct st as [out uc]. simpl in H.
  destruct c as [[q unit|id|]|]; try assumption.
  destruct (if some_nonempty unit
            then _resolve_unit_label w (or_empty unit) uc
            else (None, uc)) as [lbl uc'].
  simpl. apply entries_append_mono. assumption.
Qed.

Lemma quantity_step_adds (w : World) (prop : str) (q unit : option str)
    (st : dict (list qentry) * dict (option str)) :
  exists lbl,
    In {| amount := parse_amount q; unit_label := lbl; raw_unit := unit |}
       (entries prop (fst (quantity_step w prop st (Some (DQuantity q unit))))).
Proof.
  unfold quantity_step. destruct st as [out uc].
  destruct (if some_nonempty unit
            then _resolve_unit_label w (or_empty unit) uc
            else (None, uc)) as [lbl uc'].
  exists lbl. simpl. rewrite entries_append_same.
  apply in_or_app. right. left. reflexivity.
Qed.

Lemma quantity_steps_mono (w : World) (prop p : str) (cs : list claim) (x : qentry) :
  forall st,
    In x (entries p (fst st)) ->
    In x (entries p (fst (fold_left (quantity_step w prop) cs st))).
Proof.
  induction cs as [|c r IH]; intros st H; simpl; [assumption|].
  apply IH. apply quantity_step_mono. assumption.
Qed.

Lemma quantity_steps_add (w : World) (prop : str) (q unit : option str)
    (cs : list claim) :
  In (Some (DQuantity q unit)) cs ->
  forall st,
    exists lbl,
      In {| amount := parse_amount q; unit_label := lbl; raw_unit := unit |}
         (entries prop (fst (fold_left (quantity_step w prop) cs st))).
Proof.
  induction cs as [|c r IH]; intros Hin st; [contradiction|].
  simpl. destruct Hin as [E|Hin].
  - subst c. destruct (quantity_step_adds w prop q unit st) as [lbl H].
    exists lbl. apply quantity_steps_mono. assumption.
  - apply IH. assumption.
Qed.

Lemma property_loop_mono (w : World) (p : str) (x : qentry)
    (pcs : dict (list claim)) :
  forall st,
    In x (entries p (fst st)) ->
    In x (entries p (fst (fold_left
                            (fun st pc => fold_left (quantity_step w (fst pc)) (snd pc) st)
                            pcs st))).
Proof.
  induction pcs as [|pc r IH]; intros st H; simpl; [assumption|].
  apply IH. apply quantity_steps_mono. assumption.
Qed.

Lemma parse_amount_none (q : option str) :
  parse_amount q = None
  <-> float_of_str (py_str q) = None
      /\ forall s, q = Some s -> float_of_str (lstrip 43 s) = None.
Proof.
  unfold parse_amount. split.
  - destruct (float_of_str (py_str q)) as [a|]; [discriminate|].
    intros H. split; [reflexivity|]. intros s E. subst q. assumption.
  - intros [H1 H2]. rewrite H1. destruct q as [s|]; [apply H2|]; reflexivity.
Qed.

(** C6, as the specification states it, fails: the mass ["heavy"] of the
    sample entity cannot be parsed, and yet it contributes the second
    entry under [P2067], with [None] as its amount. *)
Lemma malformed_amount_not_omitted :
  float_of_str py:"heavy" = None
  /\ wikidata_extract_quantity_claims sample_world (Some sample_entity)
     = [(py:"P2067",
          [{| amount := Some (dec 1560 0);
              unit_label := Some py:"kilogram";
              raw_unit := Some py:"http://www.wikidata.org/entity/Q11570" |};
           {| amount := None;
              unit_label := Some py:"1";
              raw_unit := Some py:"1" |}])].
Proof. split; vm_compute; reflexivity. Qed.

(** C6, amended.  The extractor is total, and every quantity-typed claim of
    the entity contributes an entry under its property, with its raw unit
    and with the amount the two attempts at [float] give: the parsed
    number, or [None] when both fail.  A malformed amount is thus kept
    with an absent amount, next to the well-formed claims. *)
Theorem quantity_claims_all_kept :
  forall (w : World) (e : entity) (prop : str) (cs : list claim)
         (q unit : option str),
    In (prop, cs) (claims e) ->
    In (Some (DQuantity q unit)) cs ->
    (exists lbl,
       In {| amount := parse_amount q; unit_label := lbl; raw_unit := unit |}
          (entries prop (wikidata_extract_quantity_claims w (Some e))))
    /\ (float_of_str (py_str q) = None ->
        (forall s, q = Some s -> float_of_str (lstrip 43 s) = None) ->
        exists lbl,
          In {| amount := None; unit_label := lbl; raw_unit := unit |}
             (entries prop (wikidata_extract_quantity_claims w (Some e)))).
Proof.
  intros w e prop cs q unit Hp Hc.
  assert (H : exists lbl,
             In {| amount := parse_amount q; unit_label := lbl; raw_unit := unit |}
                (entries prop (wikidata_extract_quantity_claims w (Some e)))).
  { unfold wikidata_extract_quantity_claims.
    generalize (@nil (str * list qentry), @nil (str * option str)).
    induction (claims e) as [|pc r IH]; intros st; [contradiction|].
    simpl. destruct Hp as [E|Hp].
    - subst pc. simpl.
      destruct (quantity_steps_add w prop q unit cs Hc st) as [lbl H].
      exists lbl. apply property_loop_mono. assumption.
    - apply IH. assumption. }
  split; [assumption|].
  intros H1 H2.
  assert (E : parse_amount q = None) by (apply parse_amount_none; split; assumption).
  rewrite E in H. assumption.
Qed.

Lemma quantity_claims_all_kept_witness :
  (exists lbl,
     In {| amount := parse_amount (Some py:"heavy");
           unit_label := lbl; raw_unit := Some py:"1" |}
        (entries py:"P2067"
           (wikidata_extract_quantity_claims sample_world (Some sample_entity))))
  /\ (float_of_str (py_str (Some py:"heavy")) = None ->
      (forall s, Some py:"heavy" = Some s -> float_of_str (lstrip 43 s) = None) ->
      exists lbl,
        In {| amount := None; unit_label := lbl; raw_unit := Some py:"1" |}
           (entries py:"P2067"
              (wikidata_extract_quantity_claims sample_world (Some sample_entity)))).
Proof.
  apply (quantity_claims_all_kept sample_world sample_entity py:"P2067"
           [Some (DQuantity (Some py:"+1560")
                            (Some py:"http://www.wikidata.org/entity/Q11570"));
            Some (DQuantity (Some py:"heavy") (Some py:"1"))]).
  - vm_compute. left. reflexivity.
  - right. left. reflexivity.
Defined.

(** ** More on the enrichment cache *)

Lemma entry_item_fresh (ttl : Z) (t0 t1 : Q) (it : pyval) :
  ((t1 - t0) / 86400 <= inject_Z ttl)%Q ->
  entry_item ttl t1 {| ts := t0; item := it |} = it.
Proof.
  intros H. unfold entry_item. simpl.
  apply Qle_bool_iff in H. rewrite H. reflexivity.
Qed.

Lemma entry_item_stale (ttl : Z) (t0 t1 : Q) (it : pyval) :
  (inject_Z ttl < (t1 - t0) / 86400)%Q ->
  entry_item ttl t1 {| ts := t0; item := it |} = VNone.
Proof.
  intros H. unfold entry_item. simpl.
  destruct (Qle_bool ((t1 - t0) / 86400) (inject_Z ttl)) eqn:E; [|reflexivity].
  apply Qle_bool_iff in E. lra.
Qed.

(** X1.  An item stored under a title is what a lookup returns for any
    title with the same lower-case form, as long as its age in days does
    not exceed the TTL. *)
Theorem cache_title_round_trip :
  forall (U : Unicode) (ttl : Z) (t0 t1 : Q) (cache : cache_store)
         (title title' : str) (it : pyval),
    lower title = lower title' ->
    ((t1 - t0) / 86400 <= inject_Z ttl)%Q ->
    _cache_get ttl t1 (_cache_set t0 cache title it) (Some title') = Ok it.
Proof.
  intros U ttl t0 t1 cache title title' it Hl Hage.
  unfold _cache_get, _cache_set. rewrite <- Hl, dict_get_set_same.
  rewrite entry_item_fresh by assumption. reflexivity.
Qed.

Lemma cache_title_round_trip_witness :
  _cache_get 7 (1000 + 7 * 86400)
    (_cache_set 1000 [] py:"Nissan GT-R" (VStr py:"item")) (Some py:"NISSAN gt-r")
  = Ok (VStr py:"item").
Proof.
  apply (cache_title_round_trip basic_tables 7 1000 (1000 + 7 * 86400) []
           py:"Nissan GT-R" py:"NISSAN gt-r" (VStr py:"item")).
  - vm_compute. reflexivity.
  - vm_compute. discriminate.
Defined.

(** X2.  Once the age of an entry exceeds the TTL, a lookup under its
    title or under its query answers [None], although the entry is still
    in the store. *)
Theorem cache_entry_expires :
  forall (U : Unicode) (ttl : Z) (t0 t1 : Q) (cache : cache_store)
         (title q : str) (it : pyval),
    (inject_Z ttl < (t1 - t0) / 86400)%Q ->
    _cache_get ttl t1 (_cache_set t0 cache title it) (Some title) = Ok VNone
    /\ dict_get (lower title) (_cache_set t0 cache title it)
       = Some {| ts := t0; item := it |}
    /\ _cache_get_query ttl t1 (_cache_set_query t0 cache q it) q = VNone.
Proof.
  intros U ttl t0 t1 cache title q it Hage. split; [|split].
  - unfold _cache_get, _cache_set. rewrite dict_get_set_same.
    rewrite entry_item_stale by assumption. reflexivity.
  - unfold _cache_set. apply dict_get_set_same.
  - unfold _cache_get_query, _cache_set_query. rewrite dict_get_set_same.
    apply entry_item_stale. assumption.
Qed.

Lemma cache_entry_expires_witness :
  _cache_get 7 (1001 + 7 * 86400)
    (_cache_set 1000 [] py:"Nissan GT-R" (VStr py:"item")) (Some py:"Nissan GT-R")
  = Ok VNone
  /\ dict_get (lower py:"Nissan GT-R")
       (_cache_set 1000 [] py:"Nissan GT-R" (VStr py:"item"))
     = Some {| ts := 1000; item := VStr py:"item" |}
  /\ _cache_get_query 7 (1001 + 7 * 86400)
       (_cache_set_query 1000 [] py:"gt r" (VStr py:"item")) py:"gt r"
     = VNone.
Proof.
  apply (cache_entry_expires basic_tables 7 1000 (1001 + 7 * 86400) []
           py:"Nissan GT-R" py:"gt r" (VStr py:"item")).
  vm_compute. reflexivity.
Defined.

(** X3.  Storing an item under one key leaves the lookups under every
    other key as they were: another title, another query, and a title
    whose lower-case form is not the key of the query stored. *)
Theorem cache_set_leaves_other_keys :
  forall (U : Unicode) (ttl : Z) (t0 t1 : Q) (cache : cache_store)
         (title title' q q' : str) (it : pyval),
    (lower title' <> lower title ->
     _cache_get ttl t1 (_cache_set t0 cache title it) (Some title')
     = _cache_get ttl t1 cache (Some title'))
    /\ (_normalize_query q' <> _normalize_query q ->
        _cache_get_query ttl t1 (_cache_set_query t0 cache q it) q'
        = _cache_get_query ttl t1 cache q')
    /\ (lower title' <> py:"q:" ++ _normalize_query q ->
        _cache_get ttl t1 (_cache_set_query t0 cache q it) (Some title')
        = _cache_get ttl t1 cache (Some title')).
Proof.
  intros U ttl t0 t1 cache title title' q q' it. split; [|split]; intros H.
  - unfold _cache_get, _cache_set. rewrite dict_get_set_other by assumption.
    reflexivity.
  - unfold _cache_get_query, _cache_set_query.
    rewrite dict_get_set_other; [reflexivity|].
    intros E. apply app_inv_head in E. contradiction.
  - unfold _cache_get, _cache_set_query.
    rewrite dict_get_set_other by assumption. reflexivity.
Qed.

Lemma cache_set_leaves_other_keys_witness :
  _cache_get 7 2000
    (_cache_set 2000 (_cache_set 1000 [] py:"Skyline" (VStr py:"a"))
       py:"Supra" (VStr py:"b"))
    (Some py:"Skyline")
  = _cache_get 7 2000 (_cache_set 1000 [] py:"Skyline" (VStr py:"a"))
      (Some py:"Skyline").
Proof.
  apply (proj1 (cache_set_leaves_other_keys basic_tables 7 2000 2000
                  (_cache_set 1000 [] py:"Skyline" (VStr py:"a"))
                  py:"Supra" py:"Skyline" py:"x" py:"y" (VStr py:"b"))).
  vm_compute. discriminate.
Defined.

(** ** More on the search endpoint *)

Lemma filterM_ok {A} (f : A -> result bool) (l ms : list A) :
  filterM f l = Ok ms ->
  forall x, In x ms <-> In x l /\ f x = Ok true.
Proof.
  revert ms. induction l as [|a r IH]; simpl; intros ms H x.
  - injection H as <-. simpl. tauto.
  - destruct (f a) as [b|e] eqn:Ea; simpl in H; [|discriminate].
    destruct (filterM f r) as [ys|e] eqn:Er; simpl in H; [|discriminate].
    injection H as <-. specialize (IH ys eq_refl x).
    destruct b; simpl; rewrite IH; split.
    + intros [E|[H1 H2]]; [subst; auto | auto].
    + intros [[E|H1] H2]; [left; assumption | right; auto].
    + intros [H1 H2]. auto.
    + intros [[E|H1] H2]; [subst; congruence | auto].
Qed.

Lemma filterM_all_ok {A} (f : A -> result bool) (l ms : list A) :
  filterM f l = Ok ms -> forall x, In x l -> exists b, f x = Ok b.
Proof.
  revert ms. induction l as [|a r IH]; simpl; intros ms H x Hx; [contradiction|].
  destruct (f a) as [b|e] eqn:Ea; simpl in H; [|discriminate].
  destruct (filterM f r) as [ys|e] eqn:Er; simpl in H; [|discriminate].
  destruct Hx as [E|Hx]; [subst; eauto | eapply IH; eauto].
Qed.

(** X4.  When the local search returns, it returns the catalog items whose
    text (name, manufacturer and year joined by spaces) contains the
    query, compared in lower case; and then the text of every catalog
    item could be formed: each is a dictionary whose name and manufacturer
    are strings and whose year is a string or falsy. *)
Theorem local_matches_are_the_matching_items :
  forall (U : Unicode) (items ms : list pyval) (q : str),
    local_matches items q = Ok ms ->
    (forall i, In i ms <->
               In i items
               /\ exists t, item_text i = Ok t
                            /\ contains (lower q) (lower t) = true)
    /\ (forall i, In i items -> exists t, item_text i = Ok t).
Proof.
  intros U items ms q H. unfold local_matches in H. split.
  - intros i. rewrite (filterM_ok _ _ _ H i). split.
    + intros [Hi Hf]. split; [assumption|].
      destruct (item_text i) as [t|e]; simpl in Hf; [|discriminate].
      exists t. split; [reflexivity|]. congruence.
    + intros [Hi [t [Ht Hc]]]. split; [assumption|].
      rewrite Ht. simpl. rewrite Hc. reflexivity.
  - intros i Hi. destruct (filterM_all_ok _ _ _ H i Hi) as [b Hb].
    destruct (item_text i) as [t|e]; simpl in Hb; [|discriminate].
    exists t. reflexivity.
Qed.

Lemma local_matches_are_the_matching_items_witness :
  In (VDict [(py:"name", VStr py:"Skyline GT-R"); (py:"year", VInt 0)])
     [VDict [(py:"name", VStr py:"Skyline GT-R"); (py:"year", VInt 0)]] <->
  In (VDict [(py:"name", VStr py:"Skyline GT-R"); (py:"year", VInt 0)])
     [VDict [(py:"name", VStr py:"Skyline GT-R"); (py:"year", VInt 0)];
      VDict [(py:"name", VStr py:"Supra"); (py:"manufacturer", VStr py:"Toyota")]]
  /\ exists t,
       item_text (VDict [(py:"name", VStr py:"Skyline GT-R"); (py:"year", VInt 0)]) = Ok t
       /\ contains (lower py:"gt-r") (lower t) = true.
Proof.
  refine (proj1 (local_matches_are_the_matching_items basic_tables
                   [VDict [(py:"name", VStr py:"Skyline GT-R"); (py:"year", VInt 0)];
                    VDict [(py:"name", VStr py:"Supra");
                           (py:"manufacturer", VStr py:"Toyota")]]
                   [VDict [(py:"name", VStr py:"Skyline GT-R"); (py:"year", VInt 0)]]
                   py:"gt-r" _)
            (VDict [(py:"name", VStr py:"Skyline GT-R"); (py:"year", VInt 0)])).
  vm_compute. reflexivity.
Defined.

(** X5.  On a hit in the query cache the response is the cached item and
    the store is left as it is; the answer does not depend on the
    knowledge sources: two worlds with the same catalog, clock and TTL
    give the same response. *)
Theorem query_cache_hit_needs_no_source :
  forall (U : Unicode) (w w' : World) (cache : cache_store) (q : str),
    load_data w' = load_data w ->
    time_now w' = time_now w ->
    CACHE_TTL_DAYS w' = CACHE_TTL_DAYS w ->
    is_empty q = false ->
    local_matches (load_data w) q = Ok [] ->
    truthy (_cache_get_query (CACHE_TTL_DAYS w) (time_now w) cache q) = true ->
    get_cars w cache q
    = (cache, Ok [_cache_get_query (CACHE_TTL_DAYS w) (time_now w) cache q])
    /\ get_cars w' cache q = get_cars w cache q.
Proof.
  intros U w w' cache q Hd Ht Hl Hq Hm Hc.
  assert (E : get_cars w cache q
              = (cache, Ok [_cache_get_query (CACHE_TTL_DAYS w) (time_now w) cache q])).
  { unfold get_cars. rewrite Hq, Hm. simpl. rewrite Hc. reflexivity. }
  split; [assumption|]. rewrite E.
  unfold get_cars. rewrite Hd, Ht, Hl, Hq, Hm. simpl. rewrite Hc. reflexivity.
Qed.

Lemma query_cache_hit_needs_no_source_witness :
  get_cars sample_world
    (_cache_set_query 1000 [] py:"gt r" (VStr py:"item")) py:"GT-R"
  = (_cache_set_query 1000 [] py:"gt r" (VStr py:"item"),
     Ok [_cache_get_query (CACHE_TTL_DAYS sample_world) (time_now sample_world)
           (_cache_set_query 1000 [] py:"gt r" (VStr py:"item")) py:"GT-R"])
  /\ get_cars offline_world
       (_cache_set_query 1000 [] py:"gt r" (VStr py:"item")) py:"GT-R"
     = get_cars sample_world
         (_cache_set_query 1000 [] py:"gt r" (VStr py:"item")) py:"GT-R".
Proof.
  apply (query_cache_hit_needs_no_source basic_tables sample_world offline_world
           (_cache_set_query 1000 [] py:"gt r" (VStr py:"item")) py:"GT-R");
    vm_compute; reflexivity.
Defined.

Lemma entry_item_now (ttl : Z) (now : Q) (it : pyval) :
  0 <= ttl -> entry_item ttl now {| ts := now; item := it |} = it.
Proof.
  intros H. apply entry_item_fresh.
  assert (H0 : (0 <= inject_Z ttl)%Q) by (rewrite <- (Zle_Qle 0); assumption).
  assert (E : ((now - now) / 86400 == 0)%Q) by field.
  rewrite E. assumption.
Qed.

Lemma get_cars_after_set_query {U : Unicode} (w : World) (cache : cache_store)
    (q : str) (it : pyval) :
  0 <= CACHE_TTL_DAYS w ->
  is_empty q = false ->
  local_matches (load_data w) q = Ok [] ->
  truthy it = true ->
  get_cars w (_cache_set_query (time_now w) cache q it) q
  = (_cache_set_query (time_now w) cache q it, Ok [it]).
Proof.
  intros Ht Hq Hm Hi. unfold get_cars. rewrite Hq, Hm. simpl.
  assert (E : _cache_get_query (CACHE_TTL_DAYS w) (time_now w)
                (_cache_set_query (time_now w) cache q it) q = it).
  { unfold _cache_get_query, _cache_set_query. rewrite dict_get_set_same.
    apply entry_item_now. assumption. }
  rewrite E, Hi. reflexivity.
Qed.

(** A request leaves the store as it is, or ends by storing a truthy item
    under the query and answering with that item. *)
Lemma get_cars_cases {U : Unicode} (w : World) (cache : cache_store) (q : str) :
  (exists r, get_cars w cache q = (cache, r))
  \/ (exists c0 it,
        truthy it = true /\ is_empty q = false
        /\ local_matches (load_data w) q = Ok []
        /\ get_cars w cache q = (_cache_set_query (time_now w) c0 q it, Ok [it])).
Proof.
  unfold get_cars.
  destruct (is_empty q) eqn:Hq; [left; eauto|].
  destruct (local_matches (load_data w) q) as [ms|e] eqn:Hm; [|left; eauto].
  destruct ms as [|m ms]; [|left; simpl; eauto]. simpl.
  destruct (truthy (_cache_get_query (CACHE_TTL_DAYS w) (time_now w) cache q)) eqn:Hc;
    [left; eauto|].
  destruct (score_and_select w cache q) as [title|e] eqn:Hs; [|left; eauto].
  unfold enrich.
  destruct (_cache_get (CACHE_TTL_DAYS w) (time_now w) cache (top_hit_fallback w q title))
    as [cached|e] eqn:Hg; [|left; eauto].
  destruct (truthy cached) eqn:Hcd.
  { right. exists cache, cached. auto. }
  destruct (negb (some_nonempty (top_hit_fallback w q title))); [left; eauto|].
  destruct (wiki_fetch_summary w (or_empty (top_hit_fallback w q title))) as [sm|];
    [|left; eauto].
  right. eexists. eexists. repeat split; reflexivity.
Qed.

(** X6.  With a TTL that is not negative, asking the same query again at
    the same time gives the same response and leaves the store as the
    first request left it: what the first request stored under the query
    is what the second one finds. *)
Theorem get_cars_repeat :
  forall (U : Unicode) (w : World) (cache : cache_store) (q : str),
    0 <= CACHE_TTL_DAYS w ->
    get_cars w (fst (get_cars w cache q)) q = get_cars w cache q.
Proof.
  intros U w cache q Ht.
  destruct (get_cars_cases w cache q) as [[r E]|[c0 [it [Hi [Hq [Hm E]]]]]].
  - rewrite E. cbn [fst]. exact E.
  - rewrite E. cbn [fst]. apply get_cars_after_set_query; assumption.
Qed.

Lemma get_cars_repeat_witness :
  get_cars sample_world
    (fst (get_cars sample_world [] py:"Nissan Skyline R34")) py:"Nissan Skyline R34"
  = get_cars sample_world [] py:"Nissan Skyline R34".
Proof.
  apply (get_cars_repeat basic_tables sample_world [] py:"Nissan Skyline R34").
  vm_compute. discriminate.
Defined.

(** ** More on the candidate scorer *)

Lemma non_vehicle_penalty_zero {U : Unicode} (w : World) (cand : str) :
  non_vehicle_penalty w cand = 0.
Proof.
  unfold non_vehicle_penalty, wikidata_fetch_claims_for_title.
  destruct (wikidata_entity_for_title w cand) as [qid|]; [|reflexivity].
  destruct (is_empty qid); [reflexivity|].
  destruct (wikidata_get_entity w qid) as [ent|]; [|reflexivity].
  rewrite wd_description_absent. reflexivity.
Qed.

Lemma fold_sum_nonneg {A} (f : A -> Z) (l : list A) :
  (forall x, 0 <= f x) ->
  forall a, 0 <= a -> 0 <= fold_left (fun n v => n + f v) l a.
Proof.
  intros Hf. induction l as [|x r IH]; intros a Ha; simpl; [assumption|].
  apply IH. specialize (Hf x). lia.
Qed.

Lemma wd_richness_nonneg {U : Unicode} (wd : option (dict wd_field)) :
  0 <= wd_richness wd.
Proof.
  unfold wd_richness. destruct wd as [d|]; [|lia].
  apply (fold_sum_nonneg
           (fun lk => fold_left (fun n v => n + Z.of_nat (List.length (snd v)))
                        (quantities (snd lk)) 0)).
  - intros lk.
    apply (fold_sum_nonneg (fun v => Z.of_nat (List.length (snd v)))); lia.
  - destruct (dict_get py:"quantities" d) as [[q|qs|l]|]; lia.
Qed.

Lemma model_bonus_nonneg {U : Unicode} (qtokens cand_tokens : list str) :
  0 <= model_bonus qtokens cand_tokens.
Proof.
  unfold model_bonus.
  destruct (existsb has_digit qtokens && existsb (fun t => mem t qtokens) cand_tokens);
    [lia|].
  destruct (existsb has_digit cand_tokens); lia.
Qed.

Lemma cached_richness_nonneg {U : Unicode} (v : pyval) : 0 <= cached_richness v.
Proof.
  unfold cached_richness. destruct v; try lia.
  destruct (dict_get py:"specs" d) as [[]|]; lia.
Qed.

(** A candidate that shares a token with the query is scored, with at
    least 4. *)
Lemma score_candidate_overlap {U : Unicode} (w : World) (cache : cache_store)
    (qtokens : list str) (cand : str) :
  0 < token_score qtokens (tokens cand) ->
  exists s, score_candidate w cache qtokens cand = Ok (Some s) /\ 4 <= s.
Proof.
  intros H. unfold score_candidate.
  replace (token_score qtokens (tokens cand) =? 0) with false
    by (symmetry; apply Z.eqb_neq; lia).
  pose proof (model_bonus_nonneg qtokens (tokens cand)) as Hm.
  unfold _cache_get. simpl.
  destruct (dict_get (lower cand) cache) as [e|]; simpl.
  - destruct (truthy (entry_item (CACHE_TTL_DAYS w) (time_now w) e)).
    + eexists. split; [reflexivity|].
      pose proof (cached_richness_nonneg
                    (entry_item (CACHE_TTL_DAYS w) (time_now w) e)). lia.
    + eexists. split; [reflexivity|].
      rewrite non_vehicle_penalty_zero.
      pose proof (wd_richness_nonneg (wikidata_fetch_claims_for_title w cand)). lia.
  - eexists. split; [reflexivity|].
    rewrite non_vehicle_penalty_zero.
    pose proof (wd_richness_nonneg (wikidata_fetch_claims_for_title w cand)). lia.
Qed.

Lemma score_loop_spec {U : Unicode} (w : World) (cache : cache_store)
    (qtokens : list str) (cands : list str) :
  forall (b : option str) (s0 : Z) (r : option str) (s : Z),
    score_loop w cache qtokens cands (b, s0) = Ok (r, s) ->
    (r = b /\ s = s0
     /\ forall c s', In c cands ->
                     score_candidate w cache qtokens c = Ok (Some s') -> s' <= s0)
    \/ (exists t pre post,
          r = Some t /\ cands = pre ++ t :: post
          /\ score_candidate w cache qtokens t = Ok (Some s)
          /\ s0 < s
          /\ (forall c s', In c pre ->
                           score_candidate w cache qtokens c = Ok (Some s') -> s' < s)
          /\ (forall c s', In c post ->
                           score_candidate w cache qtokens c = Ok (Some s') -> s' <= s)).
Proof.
  induction cands as [|cand rest IH]; intros b s0 r s H; simpl in H.
  - injection H as <- <-. left. repeat split. intros c s' [].
  - destruct (score_candidate w cache qtokens cand) as [sc|e] eqn:Hsc; simpl in H;
      [|discriminate].
    destruct sc as [cs|].
    + simpl in H. destruct (cs >? s0) eqn:Hgt.
      * apply Z.gtb_lt in Hgt. apply IH in H.
        destruct H as [[Hr [Hs Hall]]|[t [pre [post [Hr [Hc [Ht [Hlt [Hpre Hpost]]]]]]]]].
        -- right. exists cand, [], rest. subst r s.
           repeat split; try assumption; try reflexivity. intros c s' [].
        -- right. exists t, (cand :: pre), post. subst rest.
           repeat split; try assumption; try lia.
           intros c s' [E|Hin] Hs'; [subst c; rewrite Hsc in Hs'; injection Hs' as <-; lia|].
           eapply Hpre; eassumption.
      * assert (Hle : cs <= s0) by (destruct (Z.gtb_spec cs s0); [discriminate | lia]).
        apply IH in H.
        destruct H as [[Hr [Hs Hall]]|[t [pre [post [Hr [Hc [Ht [Hlt [Hpre Hpost]]]]]]]]].
        -- left. repeat split; try assumption.
           intros c s' [E|Hin] Hs'; [subst c; rewrite Hsc in Hs'; injection Hs' as <-; lia|].
           eapply Hall; eassumption.
        -- right. exists t, (cand :: pre), post. subst rest.
           repeat split; try assumption.
           intros c s' [E|Hin] Hs'; [subst c; rewrite Hsc in Hs'; injection Hs' as <-; lia|].
           eapply Hpre; eassumption.
    + apply IH in H.
      destruct H as [[Hr [Hs Hall]]|[t [pre [post [Hr [Hc [Ht [Hlt [Hpre Hpost]]]]]]]]].
      * left. repeat split; try assumption.
        intros c s' [E|Hin] Hs'; [subst c; rewrite Hsc in Hs'; discriminate|].
        eapply Hall; eassumption.
      * right. exists t, (cand :: pre), post. subst rest.
        repeat split; try assumption.
        intros c s' [E|Hin] Hs'; [subst c; rewrite Hsc in Hs'; discriminate|].
        eapply Hpre; eassumption.
Qed.

(** X7.  The title the scorer selects has the highest score of all
    candidates, and is the first candidate with that score; and the scorer
    selects a title exactly when some candidate shares a token with the
    query. *)
Theorem scorer_selects_first_best :
  forall (U : Unicode) (w : World) (cache : cache_store) (q : str),
    (forall t,
        score_and_select w cache q = Ok (Some t) ->
        exists s pre post,
          wiki_search_candidates w q 8 = pre ++ t :: post
          /\ score_candidate w cache (tokens q) t = Ok (Some s)
          /\ (forall c s', In c pre ->
                score_candidate w cache (tokens q) c = Ok (Some s') -> s' < s)
          /\ (forall c s', In c post ->
                score_candidate w cache (tokens q) c = Ok (Some s') -> s' <= s))
    /\ ((exists t, score_and_select w cache q = Ok (Some t))
        <-> exists c, In c (wiki_search_candidates w q 8)
                      /\ 0 < token_score (tokens q) (tokens c)).
Proof.
  intros U w cache q. split.
  - intros t H. unfold score_and_select in H.
    destruct (is_empty (wiki_search_candidates w q 8)); [discriminate|].
    destruct (score_loop w cache (tokens q) (wiki_search_candidates w q 8) (None, -1))
      as [[r s]|e] eqn:Hl; simpl in H; [|discriminate].
    injection H as ->.
    apply score_loop_spec in Hl.
    destruct Hl as [[Hr _]|[t' [pre [post [Hr [Hc [Ht [_ [Hpre Hpost]]]]]]]]];
      [discriminate|].
    injection Hr as <-. exists s, pre, post. auto.
  - split.
    + intros [t H]. unfold score_and_select in H.
      destruct (is_empty (wiki_search_candidates w q 8)); [discriminate|].
      destruct (score_loop w cache (tokens q) (wiki_search_candidates w q 8) (None, -1))
        as [[r s]|e] eqn:Hl; simpl in H; [|discriminate].
      injection H as ->.
      apply score_loop_spec in Hl.
      destruct Hl as [[Hr _]|[t' [pre [post [Hr [Hc [Ht _]]]]]]]; [discriminate|].
      injection Hr as <-. exists t. split.
      * rewrite Hc. apply in_or_app. right. left. reflexivity.
      * eapply score_candidate_some. eassumption.
    + intros [c [Hin Hpos]]. unfold score_and_select.
      destruct (wiki_search_candidates w q 8) as [|c0 cs] eqn:Ec; [contradiction|].
      simpl is_empty. cbv iota.
      destruct (score_loop_ok w cache (tokens q) (c0 :: cs) (None, -1)) as [[r s] Hl].
      rewrite Hl. simpl.
      destruct (score_loop_spec w cache (tokens q) (c0 :: cs) _ _ _ _ Hl)
        as [[Hr [Hs Hall]]|[t [pre [post [Hr _]]]]].
      * exfalso. destruct (score_candidate_overlap w cache (tokens q) c Hpos)
          as [sc [Hsc H4]].
        specialize (Hall c sc Hin Hsc). lia.
      * exists t. rewrite Hr. reflexivity.
Qed.

Lemma scorer_selects_first_best_witness :
  exists s pre post,
    wiki_search_candidates sample_world py:"Nissan Skyline R34" 8
    = pre ++ py:"Nissan Skyline R34" :: post
    /\ score_candidate sample_world [] (tokens py:"Nissan Skyline R34")
         py:"Nissan Skyline R34" = Ok (Some s)
    /\ (forall c s', In c pre ->
          score_candidate sample_world [] (tokens py:"Nissan Skyline R34") c
          = Ok (Some s') -> s' < s)
    /\ (forall c s', In c post ->
          score_candidate sample_world [] (tokens py:"Nissan Skyline R34") c
          = Ok (Some s') -> s' <= s).
Proof.
  apply (proj1 (scorer_selects_first_best basic_tables sample_world []
                  py:"Nissan Skyline R34")).
  vm_compute. reflexivity.
Defined.

(** ** More on the quantity claim extractor *)

Lemma some_nonempty_or_empty (unit : option str) :
  some_nonempty unit = true -> is_empty (or_empty unit) = false.
Proof.
  unfold some_nonempty. destruct (is_empty (or_empty unit)); [discriminate | reflexivity].
Qed.

Lemma resolve_unit_label_direct (w : World) (unit : option str)
    (uc : dict (option str)) :
  labels_ok w uc ->
  some_nonempty unit = true ->
  fst (_resolve_unit_label w (or_empty unit) uc) = direct_label w unit
  /\ labels_ok w (snd (_resolve_unit_label w (or_empty unit) uc)).
Proof.
  intros Huc Hu. unfold _resolve_unit_label, direct_label. rewrite Hu.
  rewrite (some_nonempty_or_empty unit Hu).
  destruct (negb (startswith py:"http" (or_empty unit))); [split; [reflexivity|assumption]|].
  cbv zeta.
  destruct (dict_get (after_last 47 (rstrip 47 (or_empty unit))) uc) as [lbl|] eqn:E.
  - split; [|assumption]. simpl. apply Huc. assumption.
  - split; [reflexivity|]. simpl. intros q lbl Hq.
    destruct (str_eq_dec q (after_last 47 (rstrip 47 (or_empty unit)))) as [Eq|Nq].
    + subst q. rewrite dict_get_set_same in Hq. injection Hq as <-. reflexivity.
    + rewrite dict_get_set_other in Hq by assumption. apply Huc. assumption.
Qed.

Lemma str_eqb_refl (a : str) : str_eqb a a = true.
Proof. unfold str_eqb. destruct (str_eq_dec a a); [reflexivity | congruence]. Qed.

Lemma str_eqb_neq (a b : str) : a <> b -> str_eqb a b = false.
Proof. intros H. unfold str_eqb. destruct (str_eq_dec a b); [contradiction | reflexivity]. Qed.

Lemma quantity_step_spec (w : World) (prop : str) (c : claim)
    (out : dict (list qentry)) (uc : dict (option str)) :
  labels_ok w uc ->
  labels_ok w (snd (quantity_step w prop (out, uc) c))
  /\ forall p, entries p (fst (quantity_step w prop (out, uc) c))
               = entries p out ++ (if str_eqb prop p then entry_of w c else []).
Proof.
  intros Huc. unfold quantity_step.
  assert (Hid : forall p, entries p out
                          = entries p out ++ (if str_eqb prop p then @nil qentry else [])).
  { intros p. destruct (str_eqb prop p); rewrite app_nil_r; reflexivity. }
  destruct c as [[q unit|id|]|]; simpl; try (split; [assumption | exact Hid]).
  destruct (some_nonempty unit) eqn:Hu.
  - destruct (resolve_unit_label_direct w unit uc Huc Hu) as [Hl Hc].
    destruct (_resolve_unit_label w (or_empty unit) uc) as [lbl uc'].
    simpl in Hl, Hc. subst lbl. simpl. split; [assumption|]. intros p.
    destruct (str_eq_dec prop p) as [E|E].
    + subst p. rewrite str_eqb_refl, entries_append_same. reflexivity.
    + rewrite str_eqb_neq by assumption.
      rewrite entries_append_other by congruence. rewrite app_nil_r. reflexivity.
  - simpl. split; [assumption|]. intros p.
    assert (Ed : direct_label w unit = None) by (unfold direct_label; rewrite Hu; reflexivity).
    rewrite Ed.
    destruct (str_eq_dec prop p) as [E|E].
    + subst p. rewrite str_eqb_refl, entries_append_same. reflexivity.
    + rewrite str_eqb_neq by assumption.
      rewrite entries_append_other by congruence. rewrite app_nil_r. reflexivity.
Qed.

Lemma quantity_steps_spec (w : World) (prop : str) (cs : list claim) :
  forall (out : dict (list qentry)) (uc : dict (option str)),
    labels_ok w uc ->
    labels_ok w (snd (fold_left (quantity_step w prop) cs (out, uc)))
    /\ forall p, entries p (fst (fold_left (quantity_step w prop) cs (out, uc)))
                 = entries p out
                   ++ (if str_eqb prop p then flat_map (entry_of w) cs else []).
Proof.
  induction cs as [|c r IH]; intros out uc Huc; cbn [fold_left flat_map].
  - split; [assumption|]. intros p. cbn [fst].
    destruct (str_eqb prop p); rewrite app_nil_r; reflexivity.
  - destruct (quantity_step_spec w prop c out uc Huc) as [Hc Hs].
    destruct (quantity_step w prop (out, uc) c) as [out1 uc1]. simpl in Hc, Hs.
    destruct (IH out1 uc1 Hc) as [Hc2 Hs2]. split; [assumption|].
    intros p. rewrite Hs2, Hs, <- app_assoc.
    destruct (str_eqb prop p); reflexivity.
Qed.

Lemma property_loop_spec (w : World) (pcs : dict (list claim)) :
  forall (out : dict (list qentry)) (uc : dict (option str)),
    labels_ok w uc ->
    forall p,
      entries p (fst (fold_left
                        (fun st pc => fold_left (quantity_step w (fst pc)) (snd pc) st)
                        pcs (out, uc)))
      = entries p out ++ quantity_entries w p pcs.
Proof.
  induction pcs as [|pc r IH]; intros out uc Huc p.
  - cbn. rewrite app_nil_r. reflexivity.
  - unfold quantity_entries. cbn [fold_left flat_map]. fold (quantity_entries w p r).
    destruct (quantity_steps_spec w (fst pc) (snd pc) out uc Huc) as [Hc Hs].
    destruct (fold_left (quantity_step w (fst pc)) (snd pc) (out, uc)) as [out1 uc1].
    simpl in Hc, Hs. rewrite (IH out1 uc1 Hc p), Hs, <- app_assoc. reflexivity.
Qed.

(** No property is recorded with an empty list. *)
Lemma dict_append_nonempty {V} (prop : str) (e : V) (out : dict (list V)) :
  (forall p l, dict_get p out = Some l -> l <> []) ->
  forall p l, dict_get p (dict_append prop e out) = Some l -> l <> [].
Proof.
  intros Hout p l. unfold dict_append.
  destruct (str_eq_dec p prop) as [E|E].
  - subst p. destruct (dict_get prop out) as [l0|]; rewrite dict_get_set_same;
      intros H; injection H as <-; [destruct l0|]; discriminate.
  - destruct (dict_get prop out) as [l0|]; rewrite dict_get_set_other by assumption;
      apply Hout.
Qed.

Lemma quantity_step_nonempty (w : World) (prop : str) (c : claim)
    (st : dict (list qentry) * dict (option str)) :
  (forall p l, dict_get p (fst st) = Some l -> l <> []) ->
  forall p l, dict_get p (fst (quantity_step w prop st c)) = Some l -> l <> [].
Proof.
  intros H. unfold quantity_step. destruct st as [out uc]. simpl in H.
  destruct c as [[q unit|id|]|]; try exact H.
  destruct (if some_nonempty unit
            then _resolve_unit_label w (or_empty unit) uc
            else (None, uc)) as [lbl uc'].
  simpl. apply dict_append_nonempty. assumption.
Qed.

Lemma property_loop_nonempty (w : World) (pcs : dict (list claim)) :
  forall st,
    (forall p l, dict_get p (fst st) = Some l -> l <> []) ->
    forall p l,
      dict_get p (fst (fold_left
                         (fun st pc => fold_left (quantity_step w (fst pc)) (snd pc) st)
                         pcs st)) = Some l ->
      l <> [].
Proof.
  induction pcs as [|pc r IH]; intros st H; simpl; [assumption|].
  apply IH. generalize st H. clear.
  induction (snd pc) as [|c cs IHc]; intros st H; simpl; [assumption|].
  apply IHc. apply quantity_step_nonempty. assumption.
Qed.

(** X8.  Under each property the extractor records exactly the entries of
    the quantity claims of that property, in the order of the claims:
    nothing is dropped, added or reordered, and the label of each entry is
    the one its unit resolves to directly, so the unit cache saves
    requests without changing a label.  A property is a key of the result
    exactly when it has a quantity claim. *)
Theorem quantity_claims_exact :
  forall (w : World) (e : entity) (p : str),
    entries p (wikidata_extract_quantity_claims w (Some e))
    = quantity_entries w p (claims e)
    /\ (dict_has p (wikidata_extract_quantity_claims w (Some e)) = true
        <-> quantity_entries w p (claims e) <> []).
Proof.
  intros w e p.
  assert (He : entries p (wikidata_extract_quantity_claims w (Some e))
               = quantity_entries w p (claims e)).
  { unfold wikidata_extract_quantity_claims.
    rewrite (property_loop_spec w (claims e) [] []); [reflexivity|].
    intros q lbl H. discriminate. }
  split; [assumption|].
  rewrite <- He. unfold dict_has, entries.
  destruct (dict_get p (wikidata_extract_quantity_claims w (Some e))) as [l|] eqn:E.
  - split; [|reflexivity]. intros _.
    unfold wikidata_extract_quantity_claims in E.
    eapply property_loop_nonempty; [|exact E]. intros p0 l0 H. discriminate.
  - split; [discriminate | congruence].
Qed.

(** *** Linked entities *)

Lemma add_qid_spec (cs : list claim) :
  forall qids : list str,
    NoDup qids ->
    let r := fold_left
               (fun qids (c : claim) =>
                  match c with
                  | Some (DEntityId (Some q)) =>
                      if is_empty q then qids
                      else if existsb (str_eqb q) qids then qids
                      else qids ++ [q]
                  | _ => qids
                  end) cs qids in
    NoDup r
    /\ forall q, In q r <-> In q qids \/ (q <> [] /\ In (Some (DEntityId (Some q))) cs).
Proof.
  induction cs as [|c cs IH]; intros qids Hn; simpl.
  - split; [assumption|]. intros q. tauto.
  - destruct c as [[a u|[q0|]|]|];
      try (destruct (IH qids Hn) as [H1 H2]; split; [exact H1|];
           intros q; rewrite H2; split;
           [intros [H|[H3 H4]]; [left; assumption | right; split; [assumption | right; assumption]]
           |intros [H|[H3 [H4|H4]]]; [left; assumption | discriminate | right; split; assumption]]).
    destruct (is_empty q0) eqn:Eq0.
    { destruct q0; [|discriminate].
      destruct (IH qids Hn) as [H1 H2]. split; [exact H1|].
      intros q. rewrite H2. split.
      - intros [H|[H3 H4]]; [left; assumption | right; split; [assumption | right; assumption]].
      - intros [H|[H3 [H4|H4]]]; [left; assumption | | right; split; assumption].
        injection H4 as <-. congruence. }
    assert (Hq0 : q0 <> []) by (destruct q0; [discriminate | congruence]).
    destruct (existsb (str_eqb q0) qids) eqn:Ex.
    + assert (Hin : In q0 qids).
      { apply existsb_exists in Ex. destruct Ex as [x [Hx Hb]].
        unfold str_eqb in Hb. destruct (str_eq_dec q0 x); [subst; assumption | discriminate]. }
      destruct (IH qids Hn) as [H1 H2]. split; [exact H1|].
      intros q. rewrite H2. split.
      * intros [H|[H3 H4]]; [left; assumption | right; split; [assumption | right; assumption]].
      * intros [H|[H3 [H4|H4]]]; [left; assumption | | right; split; assumption].
        injection H4 as <-. left. assumption.
    + assert (Hnin : ~ In q0 qids).
      { intros Hin. assert (Ht : existsb (str_eqb q0) qids = true).
        { apply existsb_exists. exists q0. split; [assumption | apply str_eqb_refl]. }
        congruence. }
      assert (Hn' : NoDup (qids ++ [q0])).
      { apply NoDup_app; [assumption | repeat constructor; intros [] | ].
        intros x Hx [E|[]]. subst x. contradiction. }
      destruct (IH (qids ++ [q0]) Hn') as [H1 H2]. split; [exact H1|].
      intros q. rewrite H2, in_app_iff. simpl. split.
      * intros [[H|[H|[]]]|[H3 H4]].
        -- left. assumption.
        -- subst q. right. split; [assumption | left; reflexivity].
        -- right. split; [assumption | right; assumption].
      * intros [H|[H3 [H4|H4]]].
        -- left. left. assumption.
        -- injection H4 as <-. left. right. left. reflexivity.
        -- right. split; assumption.
Qed.

(** X9.  The linked ids form a set: no id is listed twice, and an id is
    listed exactly when it is not empty and some entity-id claim of the
    entity refers to it. *)
Theorem linked_qids_are_the_referenced_ids :
  forall (e : entity),
    NoDup (wikidata_extract_linked_entity_qids (Some e))
    /\ forall q, In q (wikidata_extract_linked_entity_qids (Some e))
                 <-> q <> [] /\ referenced e q.
Proof.
  intros e. unfold wikidata_extract_linked_entity_qids, referenced.
  assert (H : forall qids, NoDup qids ->
            let r := fold_left
                       (fun qids (pc : str * list claim) =>
                          fold_left
                            (fun qids (c : claim) =>
                               match c with
                               | Some (DEntityId (Some q)) =>
                                   if is_empty q then qids
                                   else if existsb (str_eqb q) qids then qids
                                   else qids ++ [q]
                               | _ => qids
                               end) (snd pc) qids) (claims e) qids in
            NoDup r
            /\ forall q, In q r <->
                         In q qids
                         \/ (q <> [] /\ exists p cs, In (p, cs) (claims e)
                                          /\ In (Some (DEntityId (Some q))) cs)).
  { induction (claims e) as [|pc r IH]; intros qids Hn; simpl.
    - split; [assumption|]. intros q. split; [tauto|].
      intros [H|[_ [p [cs [[] _]]]]]. assumption.
    - destruct (add_qid_spec (snd pc) qids Hn) as [H1 H2].
      destruct (IH _ H1) as [H3 H4]. split; [exact H3|].
      intros q. rewrite H4, H2. split.
      + intros [[H|[Hq Hc]]|[Hq [p [cs [Hp Hc]]]]].
        * left. assumption.
        * right. split; [assumption|]. exists (fst pc), (snd pc).
          split; [left; destruct pc; reflexivity | assumption].
        * right. split; [assumption|]. exists p, cs. split; [right; assumption | assumption].
      + intros [H|[Hq [p [cs [[E|Hp] Hc]]]]].
        * left. left. assumption.
        * subst pc. left. right. split; assumption.
        * right. split; [assumption|]. exists p, cs. split; assumption. }
  destruct (H [] (NoDup_nil _)) as [H1 H2]. split; [exact H1|].
  intros q. rewrite H2. simpl. tauto.
Qed.

(** X10.  An entity appears among the linked quantities only if the
    entity refers to it, the source knows it, and it is relevant: it has
    quantity claims, or its label joined with the labels of what it is an
    instance of contains one of the allowed keywords; its entry carries
    the label and the quantity claims of the entity fetched.  Every linked
    entity that has quantity claims appears. *)
Theorem linked_quantities_relevant :
  forall (U : Unicode) (w : World) (e : entity) (q : str),
    (forall le,
        dict_get q (wikidata_fetch_linked_quantities w (Some e)) = Some le ->
        In q (wikidata_extract_linked_entity_qids (Some e))
        /\ exists e',
             wikidata_get_entity w q = Some e'
             /\ label le = or_empty (en_label e')
             /\ quantities le = wikidata_extract_quantity_claims w (Some e')
             /\ (is_empty (quantities le) = false
                 \/ exists k,
                      In k ALLOW_KEYWORDS
                      /\ contains k (lower (join py:" " (label le :: p31_labels le)))
                         = true))
    /\ (forall e',
          In q (wikidata_extract_linked_entity_qids (Some e)) ->
          wikidata_get_entity w q = Some e' ->
          is_empty (wikidata_extract_quantity_claims w (Some e')) = false ->
          dict_has q (wikidata_fetch_linked_quantities w (Some e)) = true).
Proof.
  intros U w e q. unfold wikidata_fetch_linked_quantities.
  set (step := fun (out : dict linked_entry) (q : str) => _).
  set (R := fun le : linked_entry =>
              exists e',
                wikidata_get_entity w q = Some e'
                /\ label le = or_empty (en_label e')
                /\ quantities le = wikidata_extract_quantity_claims w (Some e')
                /\ (is_empty (quantities le) = false
                    \/ exists k,
                         In k ALLOW_KEYWORDS
                         /\ contains k (lower (join py:" " (label le :: p31_labels le)))
                            = true)).
  assert (Hstep : forall out x le,
             dict_get q (step out x) = Some le ->
             dict_get q out = Some le \/ (x = q /\ R le)).
  { intros out x le. unfold step.
    destruct (wikidata_get_entity w x) as [e'|] eqn:Ee; [|auto].
    cbv zeta.
    match goal with |- context [if ?c then _ else _] => destruct c eqn:Ec end; [auto|].
    destruct (str_eq_dec q x) as [E|E].
    - subst x. rewrite dict_get_set_same. intros H. injection H as <-.
      right. split; [reflexivity|]. exists e'. simpl.
      split; [assumption|]. split; [reflexivity|]. split; [reflexivity|].
      apply andb_false_iff in Ec. destruct Ec as [Ec|Ec].
      + right. apply negb_false_iff in Ec. apply existsb_exists in Ec.
        destruct Ec as [k [Hk Hc]]. exists k. split; assumption.
      + left. assumption.
    - rewrite dict_get_set_other by assumption. auto. }
  assert (Hmono : forall out x,
             dict_has q out = true -> dict_has q (step out x) = true).
  { intros out x H. unfold step.
    destruct (wikidata_get_entity w x) as [e'|]; [|assumption].
    cbv zeta.
    match goal with |- context [if ?c then _ else _] => destruct c end; [assumption|].
    unfold dict_has in *. destruct (str_eq_dec q x) as [E|E].
    - subst x. rewrite dict_get_set_same. reflexivity.
    - rewrite dict_get_set_other by assumption. assumption. }
  assert (Hadd : forall out e',
             wikidata_get_entity w q = Some e' ->
             is_empty (wikidata_extract_quantity_claims w (Some e')) = false ->
             dict_has q (step out q) = true).
  { intros out e' He Hq. unfold step. rewrite He. cbv zeta. rewrite Hq.
    rewrite andb_false_r. unfold dict_has. rewrite dict_get_set_same. reflexivity. }
  clearbody step.
  assert (Hfold : forall l out,
             dict_has q out = true -> dict_has q (fold_left step l out) = true).
  { induction l as [|x r IH]; intros out H; simpl; [assumption|].
    apply IH. apply Hmono. assumption. }
  generalize (wikidata_extract_linked_entity_qids (Some e)). intros l. split.
  - intros le.
    assert (G : forall out,
               dict_get q (fold_left step l out) = Some le ->
               dict_get q out = Some le \/ (In q l /\ R le)).
    { induction l as [|x r IH]; intros out H; simpl in H; [auto|].
      destruct (IH _ H) as [H1|[H1 H2]].
      - destruct (Hstep _ _ _ H1) as [H3|[H3 H4]]; [auto|].
        right. split; [left; assumption | assumption].
      - right. split; [right; assumption | assumption]. }
    intros H. destruct (G [] H) as [H1|H1]; [discriminate | exact H1].
  - intros e' Hin He Hq.
    generalize (@nil (str * linked_entry)).
    induction l as [|x r IH]; intros out; [contradiction|]. simpl.
    destruct Hin as [E|Hin].
    + subst x. apply Hfold. eapply Hadd; eassumption.
    + apply IH. assumption.
Qed.

Lemma linked_quantities_relevant_witness :
  dict_has py:"Q2"
    (wikidata_fetch_linked_quantities engine_world (wikidata_get_entity engine_world py:"Q1"))
  = true.
Proof.
  change (wikidata_get_entity engine_world py:"Q1")
    with (Some {| en_label := Some py:"Nissan Skyline GT-R";
                  claims := [(py:"P516", [Some (DEntityId (Some py:"Q2"))]);
                             (py:"P176", [Some (DEntityId (Some py:"Q3"));
                                          Some (DEntityId (Some py:"Q2"))])] |}).
  apply (proj2 (linked_quantities_relevant basic_tables engine_world _ py:"Q2")
           engine_entity).
  - vm_compute. left. reflexivity.
  - vm_compute. reflexivity.
  - vm_compute. reflexivity.
Defined.

(** ** More on the unit parsers *)

(** *** The order of the floats *)

Lemma pf_ltb_fin (a b : Q) : pf_ltb (Fin a) (Fin b) = false <-> (b <= a)%Q.
Proof.
  simpl. destruct (Qcompare_spec a b) as [E|E|E]; split; intros H;
    try reflexivity; try discriminate; lra.
Qed.

Lemma pf_le_fin (a b : Q) : pf_le (Fin a) (Fin b) <-> (a <= b)%Q.
Proof.
  unfold pf_le, not_nan. rewrite pf_ltb_fin. split; [tauto|].
  intros H. repeat split; try discriminate. assumption.
Qed.

Lemma pf_le_refl (x : pyfloat) : not_nan x -> pf_le x x.
Proof.
  intros H. unfold pf_le. repeat split; try assumption.
  destruct x; try reflexivity. apply pf_ltb_fin. lra.
Qed.

Lemma pf_le_trans (x y z : pyfloat) : pf_le x y -> pf_le y z -> pf_le x z.
Proof.
  intros [Hx [Hy Hxy]] [_ [Hz Hyz]]. unfold pf_le. repeat split; try assumption.
  destruct x as [a| | |], y as [b| | |], z as [c| | |];
    try reflexivity; try discriminate;
    try (exfalso; apply Hx; reflexivity);
    try (exfalso; apply Hy; reflexivity);
    try (exfalso; apply Hz; reflexivity).
  apply pf_ltb_fin. apply pf_ltb_fin in Hxy, Hyz. lra.
Qed.

Lemma pf_lt_le (x y : pyfloat) :
  not_nan x -> not_nan y -> pf_ltb x y = true -> pf_le x y.
Proof.
  intros Hx Hy H. unfold pf_le. repeat split; try assumption.
  destruct x as [a| | |], y as [b| | |]; try reflexivity; try discriminate.
  apply pf_ltb_fin. simpl in H.
  destruct (Qcompare_spec a b) as [E|E|E]; try discriminate. lra.
Qed.

Lemma pf_nlt_le (x y : pyfloat) :
  not_nan x -> not_nan y -> pf_ltb x y = false -> pf_le y x.
Proof. intros Hx Hy H. unfold pf_le. auto. Qed.

Lemma pf_le_PInf (x : pyfloat) : not_nan x -> pf_le x PInf.
Proof.
  intros H. unfold pf_le. repeat split; try assumption; try discriminate.
  destruct x; reflexivity.
Qed.

Lemma pf_le_NInf (x : pyfloat) : not_nan x -> pf_le NInf x.
Proof.
  intros H. unfold pf_le. repeat split; try assumption; try discriminate.
  destruct x; reflexivity.
Qed.

Lemma fin_mono (a b : Q) : (a <= b)%Q -> pf_le (fin a) (fin b).
Proof.
  intros H. unfold fin.
  destruct (Qle_bool DBL_LIMIT a) eqn:Ea.
  - apply Qle_bool_iff in Ea.
    assert (Eb : Qle_bool DBL_LIMIT b = true) by (apply Qle_bool_iff; lra).
    rewrite Eb. apply pf_le_refl. discriminate.
  - destruct (Qle_bool a (- DBL_LIMIT)) eqn:Ea2.
    + apply pf_le_NInf.
      destruct (Qle_bool DBL_LIMIT b); [discriminate|].
      destruct (Qle_bool b (- DBL_LIMIT)); discriminate.
    + destruct (Qle_bool DBL_LIMIT b) eqn:Eb; [apply pf_le_PInf; discriminate|].
      destruct (Qle_bool b (- DBL_LIMIT)) eqn:Eb2.
      * apply Qle_bool_iff in Eb2.
        assert (Ea3 : Qle_bool a (- DBL_LIMIT) = true) by (apply Qle_bool_iff; lra).
        congruence.
      * apply pf_le_fin. rewrite !Qred_correct. assumption.
Qed.

Lemma round_half_even_mono (a b : Q) :
  (a <= b)%Q -> round_half_even a <= round_half_even b.
Proof.
  intros H. unfold round_half_even.
  pose proof (Qfloor_resp_le a b H) as Hf.
  pose proof (Qfloor_le a) as Ha. pose proof (Qlt_floor a) as Ha'.
  pose proof (Qfloor_le b) as Hb. pose proof (Qlt_floor b) as Hb'.
  rewrite inject_Z_plus in Ha', Hb'.
  destruct (Z.eq_dec (Qfloor a) (Qfloor b)) as [E|E].
  - rewrite E in *.
    destruct (Qcompare_spec (a - inject_Z (Qfloor b)) (1 # 2)) as [E1|E1|E1];
      destruct (Qcompare_spec (b - inject_Z (Qfloor b)) (1 # 2)) as [E2|E2|E2];
      destruct (Z.even (Qfloor b)); try lia; exfalso; lra.
  - assert (Hlt : Qfloor a + 1 <= Qfloor b) by lia.
    destruct (Qcompare (a - inject_Z (Qfloor a)) (1 # 2));
      destruct (Qcompare (b - inject_Z (Qfloor b)) (1 # 2));
      destruct (Z.even (Qfloor a)); destruct (Z.even (Qfloor b)); lia.
Qed.

Lemma pow10_pos (n : nat) : (0 < inject_Z (10 ^ Z.of_nat n))%Q.
Proof.
  rewrite <- (Zlt_Qlt 0). apply Z.pow_pos_nonneg; lia.
Qed.

Lemma py_round_mono (x y : pyfloat) (n : nat) :
  pf_le x y -> pf_le (py_round x n) (py_round y n).
Proof.
  intros H. destruct x as [a| | |], y as [b| | |];
    try (destruct H as [Hx [Hy H]]; first [discriminate
                                           | exfalso; apply Hx; reflexivity
                                           | exfalso; apply Hy; reflexivity]).
  - apply pf_le_fin in H. unfold py_round. cbv zeta. apply fin_mono.
    pose proof (pow10_pos n) as Hp.
    assert (Hm : (a * inject_Z (10 ^ Z.of_nat n) <= b * inject_Z (10 ^ Z.of_nat n))%Q)
      by (apply Qmult_le_compat_r; lra).
    apply round_half_even_mono in Hm. rewrite Zle_Qle in Hm.
    unfold Qdiv. apply Qmult_le_compat_r; [assumption|].
    apply Qlt_le_weak. apply Qinv_lt_0_compat. assumption.
  - apply pf_le_PInf. simpl. apply fin_not_nan.
  - apply pf_le_refl. discriminate.
  - apply pf_le_NInf. simpl. apply fin_not_nan.
  - apply pf_le_NInf. discriminate.
  - apply pf_le_refl. discriminate.
Qed.

Lemma pf_mulc_mono (x y : pyfloat) (c : Q) :
  (0 < c)%Q -> pf_le x y -> pf_le (pf_mulc x c) (pf_mulc y c).
Proof.
  intros Hc H. destruct x as [a| | |], y as [b| | |];
    try (destruct H as [Hx [Hy H]]; first [discriminate
                                           | exfalso; apply Hx; reflexivity
                                           | exfalso; apply Hy; reflexivity]).
  - apply pf_le_fin in H. simpl. apply fin_mono. apply Qmult_le_compat_r; lra.
  - apply pf_le_PInf. simpl. apply fin_not_nan.
  - apply pf_le_refl. discriminate.
  - apply pf_le_NInf. simpl. apply fin_not_nan.
  - apply pf_le_NInf. discriminate.
  - apply pf_le_refl. discriminate.
Qed.

Lemma pf_divc_mono (x y : pyfloat) (c : Q) :
  (0 < c)%Q -> pf_le x y -> pf_le (pf_divc x c) (pf_divc y c).
Proof.
  intros Hc H. destruct x as [a| | |], y as [b| | |];
    try (destruct H as [Hx [Hy H]]; first [discriminate
                                           | exfalso; apply Hx; reflexivity
                                           | exfalso; apply Hy; reflexivity]).
  - apply pf_le_fin in H. simpl. apply fin_mono. unfold Qdiv.
    apply Qmult_le_compat_r; [assumption|].
    apply Qlt_le_weak. apply Qinv_lt_0_compat. assumption.
  - apply pf_le_PInf. simpl. apply fin_not_nan.
  - apply pf_le_refl. discriminate.
  - apply pf_le_NInf. simpl. apply fin_not_nan.
  - apply pf_le_NInf. discriminate.
  - apply pf_le_refl. discriminate.
Qed.

Lemma py_int_round_mono (x y : pyfloat) (a b : Z) :
  pf_le x y -> py_int_round x = Ok a -> py_int_round y = Ok b -> a <= b.
Proof.
  intros H Hx Hy. destruct x as [p| | |], y as [q| | |]; try discriminate.
  simpl in Hx, Hy. injection Hx as <-. injection Hy as <-.
  apply round_half_even_mono. apply pf_le_fin. assumption.
Qed.

Lemma fold_min_le (r : list pyfloat) :
  forall x, not_nan x -> Forall not_nan r ->
    not_nan (fold_left (fun cur item => if pf_ltb item cur then item else cur) r x)
    /\ pf_le (fold_left (fun cur item => if pf_ltb item cur then item else cur) r x) x.
Proof.
  induction r as [|y r IH]; intros x Hx Hr; simpl.
  - split; [assumption | apply pf_le_refl; assumption].
  - inversion Hr as [|y' r' Hy Hr' E]; subst.
    destruct (pf_ltb y x) eqn:E.
    + destruct (IH y Hy Hr') as [H1 H2]. split; [assumption|].
      eapply pf_le_trans; [exact H2|]. apply pf_lt_le; assumption.
    + apply IH; assumption.
Qed.

Lemma fold_max_ge (r : list pyfloat) :
  forall x, not_nan x -> Forall not_nan r ->
    pf_le x (fold_left (fun cur item => if pf_ltb cur item then item else cur) r x).
Proof.
  induction r as [|y r IH]; intros x Hx Hr; simpl.
  - apply pf_le_refl; assumption.
  - inversion Hr as [|y' r' Hy Hr' E]; subst.
    destruct (pf_ltb x y) eqn:E.
    + eapply pf_le_trans; [|apply IH; assumption]. apply pf_lt_le; assumption.
    + apply IH; assumption.
Qed.

Lemma py_min_le_max (l : list pyfloat) :
  l <> [] -> Forall not_nan l -> pf_le (py_min l) (py_max l).
Proof.
  destruct l as [|x r]; [congruence|]. intros _ H.
  inversion H as [|x' r' Hx Hr E]; subst. unfold py_min, py_max.
  eapply pf_le_trans; [apply fold_min_le; assumption | apply fold_max_ge; assumption].
Qed.

Lemma fromkeys_aux_incl (l : list pyfloat) :
  forall seen x, In x (fromkeys_aux seen l) -> In x l.
Proof.
  induction l as [|y r IH]; intros seen x H; simpl in H; [contradiction|].
  destruct (existsb (pf_eqb y) seen).
  - right. eapply IH. eassumption.
  - destruct H as [E|H]; [left; assumption | right; eapply IH; eassumption].
Qed.

Lemma fromkeys_not_nan (l : list pyfloat) :
  Forall not_nan l -> Forall not_nan (fromkeys l).
Proof.
  intros H. rewrite Forall_forall in *. intros x Hx. apply H.
  eapply fromkeys_aux_incl. exact Hx.
Qed.

Lemma mapM_ends_not_nan {U : Unicode} (ps : list (str * str)) :
  Forall (fun ab => is_num_token (fst ab) /\ is_num_token (snd ab)) ps ->
  forall ends, mapM ends_of ps = Ok ends -> Forall not_nan (concat ends).
Proof.
  induction 1 as [|ab ps [Ha Hb] F IH]; intros ends H; simpl in H.
  - injection H as <-. constructor.
  - unfold ends_of in H at 1.
    destruct (to_num_cases (fst ab) Ha) as [[x [E Hx]]|E]; rewrite E in H; simpl in H;
      [|discriminate].
    destruct (to_num_cases (snd ab) Hb) as [[y [E2 Hy]]|E2]; rewrite E2 in H; simpl in H;
      [|discriminate].
    destruct (mapM ends_of ps) as [es|e]; simpl in H; [|discriminate].
    injection H as <-. simpl. constructor; [assumption|]. constructor; [assumption|].
    apply IH. reflexivity.
Qed.

(** *** Ranges *)

Lemma Some_inj {A} (x y : A) : Some x = Some y -> x = y.
Proof. intros H. congruence. Qed.

Lemma Ok_inj {A} (x y : A) : Ok x = Ok y -> x = y.
Proof. intros H. congruence. Qed.

Ltac run_dict_in H :=
  cbv -[fin py_round pf_divc pf_mulc py_int_round py_min py_max py_avg] in H.

Ltac get_fields :=
  match goal with
  | Ha : dict_get _ _ = Some ?a, Hb : dict_get _ _ = Some ?b |- val_le ?a ?b =>
      run_dict_in Ha; run_dict_in Hb;
      try discriminate;
      apply Some_inj in Ha; apply Some_inj in Hb; subst a; subst b
  end.

Lemma KW_PER_HP_pos : (0 < KW_PER_HP)%Q.
Proof. reflexivity. Qed.

Lemma LB_PER_KG_pos : (0 < LB_PER_KG)%Q.
Proof. reflexivity. Qed.

Lemma LBFT_PER_NM_pos : (0 < LBFT_PER_NM)%Q.
Proof. reflexivity. Qed.

Ltac mono :=
  unfold val_le;
  repeat match goal with
         | |- pf_le (py_round _ _) (py_round _ _) => apply py_round_mono
         | |- pf_le (pf_mulc _ _) (pf_mulc _ _) => apply pf_mulc_mono; [reflexivity|]
         | |- pf_le (pf_divc _ _) (pf_divc _ _) => apply pf_divc_mono; [reflexivity|]
         end;
  apply py_min_le_max; [discriminate | assumption].

Ltac int_rounds H :=
  repeat match type of H with
         | context [py_int_round ?x] =>
             let E := fresh "E" in
             destruct (py_int_round x) eqn:E; try discriminate H
         end.

Lemma parse_power_ordered {U : Unicode} (text : str) (d : dict pyval) :
  _parse_power text = Ok d ->
  ordered py:"power_kw_min" py:"power_kw_max" d
  /\ ordered py:"power_hp_min" py:"power_hp_max" d.
Proof.
  unfold _parse_power. destruct (is_empty text).
  { intros H. injection H as <-. split; intros a b Ha; discriminate. }
  destruct (mapM_to_num_cases (findall1 true re_kw text)
              (findall1_tokens true re_kw text groups_re_kw)) as [[kws [Hk Fk]]|Hk];
    rewrite Hk; [|discriminate].
  destruct (mapM_to_num_cases (findall1 true re_hp text)
              (findall1_tokens true re_hp text groups_re_hp)) as [[hps [Hh Fh]]|Hh];
    rewrite Hh; [|discriminate].
  cbv beta iota delta [bind].
  destruct kws as [|k kws]; destruct hps as [|h hps];
    intros H; run_dict_in H; apply Ok_inj in H; subst d; split; intros a b Ha Hb;
    get_fields; mono.
Qed.

Lemma parse_weight_ordered {U : Unicode} (text : str) (d : dict pyval) :
  _parse_weight text = Ok d ->
  ordered py:"weight_kg_min" py:"weight_kg_max" d
  /\ ordered py:"weight_lb_min" py:"weight_lb_max" d.
Proof.
  unfold _parse_weight. destruct (is_empty text).
  { intros H. apply Ok_inj in H. subst d. split; intros a b Ha; discriminate. }
  destruct (mapM ends_of (findall2 true re_kg_range text)) as [ends|e] eqn:He;
    [|discriminate].
  pose proof (mapM_ends_not_nan _ (findall2_tokens true re_kg_range text groups_re_kg_range)
                ends He) as Fe.
  destruct (mapM_to_num_cases (findall1 true re_kg text)
              (findall1_tokens true re_kg text groups_re_kg)) as [[singles [Hs Fs]]|Hs];
    rewrite Hs; [|discriminate].
  cbv beta iota zeta delta [bind].
  assert (Fk : Forall not_nan (fromkeys (concat ends ++ singles))).
  { apply fromkeys_not_nan. apply Forall_app. split; assumption. }
  destruct (fromkeys (concat ends ++ singles)) as [|k kgs].
  - destruct (mapM_to_num_cases (findall1 true re_lb text)
                (findall1_tokens true re_lb text groups_re_lb)) as [[lbs [Hl Fl]]|Hl];
      rewrite Hl; [|discriminate].
    destruct lbs as [|l lbs]; intros H; run_dict_in H; apply Ok_inj in H; subst d;
      split; intros a b Ha Hb; get_fields; mono.
  - intros H; run_dict_in H; apply Ok_inj in H; subst d;
      split; intros a b Ha Hb; get_fields; mono.
Qed.

Lemma parse_torque_ordered {U : Unicode} (text : str) (d : dict pyval) :
  _parse_torque text = Ok d ->
  ordered py:"torque_nm_min" py:"torque_nm_max" d
  /\ ordered py:"torque_lbft_min" py:"torque_lbft_max" d.
Proof.
  unfold _parse_torque. destruct (is_empty text).
  { intros H. apply Ok_inj in H. subst d. split; intros a b Ha; discriminate. }
  destruct (mapM_to_num_cases (findall1 true re_nm text)
              (findall1_tokens true re_nm text groups_re_nm)) as [[nms [Hn Fn]]|Hn];
    rewrite Hn; [|discriminate].
  destruct (mapM_to_num_cases (findall1 true re_lbft text)
              (findall1_tokens true re_lbft text groups_re_lbft)) as [[lbfts [Hl Fl]]|Hl];
    rewrite Hl; [|discriminate].
  cbv beta iota delta [bind].
  destruct nms as [|n nms]; destruct lbfts as [|l lbfts];
    intros H; run_dict_in H; apply Ok_inj in H; subst d;
    split; intros a b Ha Hb; get_fields; mono.
Qed.

Lemma parse_displacement_ordered {U : Unicode} (text : str) (d : dict pyval) :
  _parse_displacement text = Ok d ->
  ordered py:"displacement_l_min" py:"displacement_l_max" d
  /\ ordered py:"displacement_cc_min" py:"displacement_cc_max" d.
Proof.
  unfold _parse_displacement. destruct (is_empty text).
  { intros H. apply Ok_inj in H. subst d. split; intros a b Ha; discriminate. }
  destruct (mapM_to_num_cases (findall1 true re_l text)
              (findall1_tokens true re_l text groups_re_l)) as [[ls [Hl Fl]]|Hl];
    rewrite Hl; [|discriminate].
  destruct (mapM_to_num_cases (findall1 true re_cc text)
              (findall1_tokens true re_cc text groups_re_cc)) as [[ccs [Hc Fc]]|Hc];
    rewrite Hc; [|discriminate].
  cbv beta iota delta [bind].
  destruct ls as [|l ls]; [destruct ccs as [|c ccs]|];
    intros H; run_dict_in H; int_rounds H; apply Ok_inj in H; subst d;
    split; intros va vb Ha Hb; get_fields; try mono.
  unfold val_le.
  eapply py_int_round_mono; [|eassumption|eassumption].
  apply py_min_le_max; [discriminate | assumption].
Qed.

(** X11.  In what the four parsers return, a minimum is never above its
    maximum: for the values read from the text and for the values
    converted to the other unit alike. *)
Theorem parsed_ranges_ordered :
  forall (U : Unicode) (text : str) (d : dict pyval),
    (_parse_power text = Ok d ->
     ordered py:"power_kw_min" py:"power_kw_max" d
     /\ ordered py:"power_hp_min" py:"power_hp_max" d)
    /\ (_parse_weight text = Ok d ->
        ordered py:"weight_kg_min" py:"weight_kg_max" d
        /\ ordered py:"weight_lb_min" py:"weight_lb_max" d)
    /\ (_parse_displacement text = Ok d ->
        ordered py:"displacement_l_min" py:"displacement_l_max" d
        /\ ordered py:"displacement_cc_min" py:"displacement_cc_max" d)
    /\ (_parse_torque text = Ok d ->
        ordered py:"torque_nm_min" py:"torque_nm_max" d
        /\ ordered py:"torque_lbft_min" py:"torque_lbft_max" d).
Proof.
  intros U text d. split; [|split; [|split]].
  - apply parse_power_ordered.
  - apply parse_weight_ordered.
  - apply parse_displacement_ordered.
  - apply parse_torque_ordered.
Qed.

Lemma parsed_ranges_ordered_witness :
  exists d a b,
    _parse_weight py:"1,931–2,055 kg" = Ok d
    /\ dict_get py:"weight_lb_min" d = Some a
    /\ dict_get py:"weight_lb_max" d = Some b
    /\ val_le a b.
Proof.
  eexists. eexists. eexists.
  split; [vm_compute; reflexivity|].
  split; [vm_compute; reflexivity|].
  split; [vm_compute; reflexivity|].
  refine (proj2 (proj1 (proj2 (parsed_ranges_ordered basic_tables
                                 py:"1,931–2,055 kg" _)) _) _ _ _ _);
    vm_compute; reflexivity.
Defined.

(** *** Units and representative values *)

Ltac paired :=
  repeat match goal with |- _ /\ _ => split end;
  match goal with
  | |- both_or_none _ _ _ =>
      unfold both_or_none;
      first [ left; reflexivity | right; split; run_dict; reflexivity ]
  | |- same_field _ _ _ =>
      let Hh := fresh "Hh" in
      unfold same_field; intros Hh; run_dict_in Hh;
      first [ discriminate Hh | run_dict; reflexivity ]
  end.

Ltac open_list H :=
  match type of H with
  | context [match ?m with Ok _ => _ | Raise _ => _ end] =>
      let l := fresh "l" in
      destruct m as [l|?]; [destruct l | discriminate H]
  end.

Lemma parse_power_paired {U : Unicode} (text : str) (d : dict pyval) :
  _parse_power text = Ok d ->
  both_or_none py:"power_kw" py:"power_hp" d
  /\ same_field py:"power_kw" py:"power_kw_max" d
  /\ same_field py:"power_hp" py:"power_hp_max" d.
Proof.
  unfold _parse_power. destruct (is_empty text).
  { intros H. apply Ok_inj in H. subst d. paired. }
  cbv beta iota delta [bind]. intros H.
  open_list H; open_list H; run_dict_in H; apply Ok_inj in H; subst d; paired.
Qed.

Lemma parse_torque_paired {U : Unicode} (text : str) (d : dict pyval) :
  _parse_torque text = Ok d ->
  both_or_none py:"torque_nm" py:"torque_lbft" d
  /\ same_field py:"torque_nm" py:"torque_nm_max" d
  /\ same_field py:"torque_lbft" py:"torque_lbft_max" d.
Proof.
  unfold _parse_torque. destruct (is_empty text).
  { intros H. apply Ok_inj in H. subst d. paired. }
  cbv beta iota delta [bind]. intros H.
  open_list H; open_list H; run_dict_in H; apply Ok_inj in H; subst d; paired.
Qed.

Lemma parse_displacement_paired {U : Unicode} (text : str) (d : dict pyval) :
  _parse_displacement text = Ok d ->
  both_or_none py:"displacement_l" py:"displacement_cc" d
  /\ same_field py:"displacement_l" py:"displacement_l_max" d
  /\ same_field py:"displacement_cc" py:"displacement_cc_max" d.
Proof.
  unfold _parse_displacement. destruct (is_empty text).
  { intros H. apply Ok_inj in H. subst d. paired. }
  cbv beta iota delta [bind]. intros H.
  open_list H; open_list H; run_dict_in H; int_rounds H; apply Ok_inj in H; subst d;
    paired.
Qed.

Lemma parse_weight_paired {U : Unicode} (text : str) (d : dict pyval) :
  _parse_weight text = Ok d ->
  both_or_none py:"weight_kg" py:"weight_lb" d
  /\ same_field py:"weight_kg" py:"weight_kg_max" d
  /\ same_field py:"weight_lb" py:"weight_lb_max" d.
Proof.
  unfold _parse_weight. destruct (is_empty text).
  { intros H. apply Ok_inj in H. subst d. paired. }
  cbv beta iota zeta delta [bind]. intros H.
  destruct (mapM ends_of (findall2 true re_kg_range text)) as [ends|e];
    [|discriminate H].
  destruct (mapM to_num (findall1 true re_kg text)) as [singles|e];
    [|discriminate H].
  destruct (fromkeys (concat ends ++ singles)) as [|k kgs].
  - cbv beta iota delta [negb is_empty] in H.
    open_list H; run_dict_in H; apply Ok_inj in H; subst d; paired.
  - run_dict_in H; apply Ok_inj in H; subst d; paired.
Qed.

(** X12.  Whatever a parser recognises, it returns in both units: its
    result is empty or has the representative value in either unit.  And
    the representative value of a unit is the maximum of that unit, never
    the average. *)
Theorem parsed_units_paired :
  forall (U : Unicode) (text : str) (d : dict pyval),
    (_parse_power text = Ok d ->
     both_or_none py:"power_kw" py:"power_hp" d
     /\ same_field py:"power_kw" py:"power_kw_max" d
     /\ same_field py:"power_hp" py:"power_hp_max" d)
    /\ (_parse_weight text = Ok d ->
        both_or_none py:"weight_kg" py:"weight_lb" d
        /\ same_field py:"weight_kg" py:"weight_kg_max" d
        /\ same_field py:"weight_lb" py:"weight_lb_max" d)
    /\ (_parse_displacement text = Ok d ->
        both_or_none py:"displacement_l" py:"displacement_cc" d
        /\ same_field py:"displacement_l" py:"displacement_l_max" d
        /\ same_field py:"displacement_cc" py:"displacement_cc_max" d)
    /\ (_parse_torque text = Ok d ->
        both_or_none py:"torque_nm" py:"torque_lbft" d
        /\ same_field py:"torque_nm" py:"torque_nm_max" d
        /\ same_field py:"torque_lbft" py:"torque_lbft_max" d).
Proof.
  intros U text d. split; [|split; [|split]].
  - apply parse_power_paired.
  - apply parse_weight_paired.
  - apply parse_displacement_paired.
  - apply parse_torque_paired.
Qed.

Lemma parsed_units_paired_witness :
  exists d,
    _parse_power py:"206 kW" = Ok d
    /\ both_or_none py:"power_kw" py:"power_hp" d
    /\ same_field py:"power_kw" py:"power_kw_max" d
    /\ same_field py:"power_hp" py:"power_hp_max" d.
Proof.
  eexists. split; [vm_compute; reflexivity|].
  apply (proj1 (parsed_units_paired basic_tables py:"206 kW" _)).
  vm_compute. reflexivity.
Defined.

(** ** More on the synthesized item *)

Lemma mem_false_neq (k k0 : str) (l : list str) :
  mem k0 l = true -> mem k l = false -> k0 <> k.
Proof. intros H1 H2 E. subst k0. congruence. Qed.

Lemma set_derived_other (k k0 : str) (v : pyval) (d : dict pyval) :
  mem k0 DERIVED_KEYS = true ->
  mem k DERIVED_KEYS = false ->
  dict_get k (dict_set k0 v d) = dict_get k d.
Proof.
  intros H1 H2. apply dict_get_set_other.
  intros E. apply (mem_false_neq k k0 DERIVED_KEYS H1 H2). congruence.
Qed.

Lemma dict_update_derived (k : str) (e : dict pyval) :
  derived_only e = true ->
  mem k DERIVED_KEYS = false ->
  forall d, dict_get k (dict_update d e) = dict_get k d.
Proof.
  unfold derived_only, dict_update, dict_keys. intros He Hk.
  induction e as [|[k0 v] r IH]; intros d; simpl; [reflexivity|].
  simpl in He. apply andb_true_iff in He. destruct He as [H0 Hr].
  rewrite (IH Hr). apply set_derived_other; assumption.
Qed.

Ltac derived H :=
  run_dict_in H; int_rounds H; apply Ok_inj in H;
  match type of H with _ = ?d => subst d end;
  cbv -[fin py_round pf_divc pf_mulc py_int_round py_min py_max py_avg];
  reflexivity.

Lemma parse_power_derived {U : Unicode} (text : str) (d : dict pyval) :
  _parse_power text = Ok d -> derived_only d = true.
Proof.
  unfold _parse_power. destruct (is_empty text).
  { intros H. apply Ok_inj in H. subst d. reflexivity. }
  cbv beta iota delta [bind]. intros H.
  open_list H; open_list H; derived H.
Qed.

Lemma parse_torque_derived {U : Unicode} (text : str) (d : dict pyval) :
  _parse_torque text = Ok d -> derived_only d = true.
Proof.
  unfold _parse_torque. destruct (is_empty text).
  { intros H. apply Ok_inj in H. subst d. reflexivity. }
  cbv beta iota delta [bind]. intros H.
  open_list H; open_list H; derived H.
Qed.

Lemma parse_displacement_derived {U : Unicode} (text : str) (d : dict pyval) :
  _parse_displacement text = Ok d -> derived_only d = true.
Proof.
  unfold _parse_displacement. destruct (is_empty text).
  { intros H. apply Ok_inj in H. subst d. reflexivity. }
  cbv beta iota delta [bind]. intros H.
  open_list H; open_list H; derived H.
Qed.

Lemma parse_weight_derived {U : Unicode} (text : str) (d : dict pyval) :
  _parse_weight text = Ok d -> derived_only d = true.
Proof.
  unfold _parse_weight. destruct (is_empty text).
  { intros H. apply Ok_inj in H. subst d. reflexivity. }
  cbv beta iota zeta delta [bind]. intros H.
  destruct (mapM ends_of (findall2 true re_kg_range text)) as [ends|e];
    [|discriminate H].
  destruct (mapM to_num (findall1 true re_kg text)) as [singles|e];
    [|discriminate H].
  destruct (fromkeys (concat ends ++ singles)) as [|k kgs].
  - cbv beta iota delta [negb is_empty] in H.
    open_list H; derived H.
  - derived H.
Qed.

Lemma normalize_step_other (k key : str) (parser : str -> result (dict pyval))
    (sp sp' : dict pyval) :
  (forall text d, parser text = Ok d -> derived_only d = true) ->
  mem k DERIVED_KEYS = false ->
  normalize_step key parser sp = Ok sp' ->
  dict_get k sp' = dict_get k sp.
Proof.
  intros Hp Hk. unfold normalize_step.
  destruct (dict_get key sp) as [raw|]; [|intros H; apply Ok_inj in H; subst; reflexivity].
  destruct (truthy raw); [|intros H; apply Ok_inj in H; subst; reflexivity].
  destruct (as_str raw) as [text|e]; simpl; [|discriminate].
  destruct (parser text) as [d|e] eqn:E; simpl; [|discriminate].
  intros H. apply Ok_inj in H. subst sp'.
  apply dict_update_derived; [eapply Hp; eassumption | assumption].
Qed.

Lemma try_steps_inv {S} (P : S -> Prop) (steps : list (S -> result S)) :
  (forall f s s', In f steps -> P s -> f s = Ok s' -> P s') ->
  forall s, P s -> P (try_steps steps s).
Proof.
  induction steps as [|f r IH]; intros Hs s Hp; simpl; [assumption|].
  destruct (f s) as [s'|e] eqn:E; [|assumption].
  apply IH.
  - intros g a b Hg. apply Hs. right. assumption.
  - eapply Hs; [left; reflexivity | exact Hp | exact E].
Qed.

Lemma normalize_units_other {U : Unicode} (k : str) (sp : dict pyval) :
  mem k DERIVED_KEYS = false ->
  dict_get k (normalize_units sp) = dict_get k sp.
Proof.
  intros Hk. unfold normalize_units.
  apply (try_steps_inv (fun s => dict_get k s = dict_get k sp)); [|reflexivity].
  intros f s s' Hf Hs E. rewrite <- Hs.
  destruct Hf as [<-|[<-|[<-|[<-|[]]]]];
    eapply normalize_step_other; try eassumption.
  - apply @parse_power_derived.
  - apply @parse_weight_derived.
  - apply @parse_displacement_derived.
  - apply @parse_torque_derived.
Qed.

Ltac other_keys :=
  unfold setf, seti;
  rewrite ?set_derived_other by (reflexivity || assumption);
  reflexivity.

Lemma merge_P1100_other {U : Unicode} (k : str) (wd_q : dict (list qentry))
    (sp : dict pyval) :
  mem k DERIVED_KEYS = false ->
  dict_get k (merge_P1100 wd_q sp) = dict_get k sp.
Proof.
  intros Hk. unfold merge_P1100.
  destruct (first_claim py:"P1100" wd_q) as [val|]; [|reflexivity].
  destruct (amount_truthy (amount val)) as [cc|]; [|reflexivity].
  destruct (contains py:"centimet" (unit_of val) || contains py:"cm" (unit_of val));
    [|other_keys].
  destruct (py_int_round cc) as [z|e]; simpl; [other_keys | reflexivity].
Qed.

Lemma merge_P1112_other {U : Unicode} (k : str) (wd_q : dict (list qentry))
    (sp : dict pyval) :
  mem k DERIVED_KEYS = false ->
  dict_get k (merge_P1112 wd_q sp) = dict_get k sp.
Proof.
  intros Hk. unfold merge_P1112.
  destruct (first_claim py:"P1112" wd_q) as [val|]; [|reflexivity].
  destruct (amount_truthy (amount val)) as [a|]; [|reflexivity].
  destruct (contains py:"watt" (unit_of val) || contains py:"kw" (unit_of val));
    [other_keys|].
  destruct (contains py:"hp" (unit_of val)); other_keys.
Qed.

Lemma merge_P2067_other {U : Unicode} (k : str) (wd_q : dict (list qentry))
    (sp : dict pyval) :
  mem k DERIVED_KEYS = false ->
  dict_get k (merge_P2067 wd_q sp) = dict_get k sp.
Proof.
  intros Hk. unfold merge_P2067.
  destruct (first_claim py:"P2067" wd_q) as [val|]; [|reflexivity].
  destruct (amount_truthy (amount val)) as [a|]; [|reflexivity].
  destruct (contains py:"gram" (unit_of val) || contains py:"kg" (unit_of val));
    other_keys.
Qed.

Lemma merge_wikidata_other {U : Unicode} (w : World) (k title : str) (l : locals) :
  mem k DERIVED_KEYS = false ->
  dict_get k (specs (merge_wikidata w title l)) = dict_get k (specs l).
Proof.
  intros Hk. unfold merge_wikidata.
  destruct (wikidata_fetch_claims_for_title w title) as [wd|]; [|reflexivity].
  destruct (dict_get py:"quantities" wd) as [[q|wd_q|lk]|]; try reflexivity.
  destruct (is_empty wd_q); [reflexivity|].
  apply (try_steps_inv (fun s => dict_get k (specs s) = dict_get k (specs l)));
    [|reflexivity].
  intros f s s' Hf Hs E. rewrite <- Hs.
  destruct Hf as [<-|[<-|[<-|[<-|[]]]]].
  - apply Ok_inj in E. subst s'. apply merge_P1100_other. assumption.
  - apply Ok_inj in E. subst s'. apply merge_P1112_other. assumption.
  - apply Ok_inj in E. subst s'. apply merge_P2067_other. assumption.
  - unfold attach_wikidata in E. destruct (synth s); [|discriminate].
    apply Ok_inj in E. subst s'. reflexivity.
Qed.

(** X13.  The specs of a synthesized item keep every value of the infobox
    that is not under a derived key, and so each of the eight raw texts:
    the parsers and the Wikidata merge add fields and overwrite derived
    fields only. *)
Theorem raw_specs_kept :
  forall (U : Unicode) (w : World) (title : str) (sm : summary),
  exists sp,
    dict_get py:"specs" (synthesize w title sm) = Some (VDict sp)
    /\ (forall k, mem k DERIVED_KEYS = false ->
                  dict_get k sp = dict_get k (wiki_fetch_specs w title))
    /\ (forall k, In k INFOBOX_KEYS ->
                  dict_get k sp = dict_get k (wiki_fetch_specs w title)).
Proof.
  intros U w title sm.
  exists (specs (merge_wikidata w title
                   {| specs := normalize_units (wiki_fetch_specs w title);
                      synth := None |})).
  assert (H : forall k, mem k DERIVED_KEYS = false ->
                        dict_get k (specs (merge_wikidata w title
                                             {| specs := normalize_units (wiki_fetch_specs w title);
                                                synth := None |}))
                        = dict_get k (wiki_fetch_specs w title)).
  { intros k Hk. rewrite merge_wikidata_other by assumption. simpl.
    apply normalize_units_other. assumption. }
  split; [reflexivity|]. split; [exact H|].
  intros k Hk. apply H.
  repeat (destruct Hk as [<-|Hk]; [reflexivity|]). contradiction.
Qed.

Lemma raw_specs_kept_witness :
  exists sp,
    dict_get py:"specs"
      (synthesize sample_world py:"Nissan Skyline R34"
         (sample_summary py:"Nissan Skyline R34")) = Some (VDict sp)
    /\ dict_get py:"weight" sp = Some (VStr py:"1,931–2,055 kg")
    /\ dict_has py:"weight_kg" sp = true.
Proof.
  destruct (raw_specs_kept basic_tables sample_world py:"Nissan Skyline R34"
              (sample_summary py:"Nissan Skyline R34")) as [sp [H1 [_ H2]]].
  exists sp. split; [exact H1|]. split.
  - rewrite (H2 py:"weight"); [reflexivity|].
    vm_compute. right. right. right. right. right. right. left. reflexivity.
  - vm_compute in H1. apply Some_inj in H1. injection H1 as <-. vm_compute. reflexivity.
Defined.

(** X14.  One field that fails to parse ends the normalisation: when the
    power text makes its parser raise, the specs stay as the infobox gave
    them, and the weight, displacement and torque texts are not parsed
    either. *)
Theorem normalize_stops_at_failure :
  forall (U : Unicode) (sp : dict pyval) (raw : pyval),
    dict_get py:"power" sp = Some raw ->
    truthy raw = true ->
    (forall t, raw = VStr t -> exists e, _parse_power t = Raise e) ->
    normalize_units sp = sp.
Proof.
  intros U sp raw Hg Ht Hp. unfold normalize_units. cbn [try_steps].
  unfold normalize_step at 1. rewrite Hg, Ht.
  destruct raw as [|b|z|f|t|l|d]; try reflexivity.
  destruct (Hp t eq_refl) as [e He]. simpl. rewrite He. reflexivity.
Qed.

Lemma normalize_stops_at_failure_witness :
  normalize_units [(py:"power", VStr py:"1.2.3 kW"); (py:"weight", VStr py:"1500 kg")]
  = [(py:"power", VStr py:"1.2.3 kW"); (py:"weight", VStr py:"1500 kg")].
Proof.
  apply (normalize_stops_at_failure basic_tables
           [(py:"power", VStr py:"1.2.3 kW"); (py:"weight", VStr py:"1500 kg")]
           (VStr py:"1.2.3 kW")).
  - vm_compute. reflexivity.
  - vm_compute. reflexivity.
  - intros t E. injection E as <-. exists ValueError. vm_compute. reflexivity.
Defined.

(** ** More on the responses *)

Lemma get_cars_after_set_query_later {U : Unicode} (w w' : World)
    (cache : cache_store) (q : str) (it : pyval) :
  load_data w' = load_data w ->
  CACHE_TTL_DAYS w' = CACHE_TTL_DAYS w ->
  ((time_now w' - time_now w) / 86400 <= inject_Z (CACHE_TTL_DAYS w))%Q ->
  is_empty q = false ->
  local_matches (load_data w) q = Ok [] ->
  truthy it = true ->
  get_cars w' (_cache_set_query (time_now w) cache q it) q
  = (_cache_set_query (time_now w) cache q it, Ok [it]).
Proof.
  intros Hd Hl Ha Hq Hm Hi. unfold get_cars. rewrite Hd, Hl, Hq, Hm. simpl.
  assert (E : _cache_get_query (CACHE_TTL_DAYS w) (time_now w')
                (_cache_set_query (time_now w) cache q it) q = it).
  { unfold _cache_get_query, _cache_set_query. rewrite dict_get_set_same.
    apply entry_item_fresh. assumption. }
  rewrite E, Hi. reflexivity.
Qed.

(** X15.  A request that changed the store is answered from the store
    afterwards: a later request for the same query, with the same catalog
    and TTL and a clock at most TTL days further, gets the same response
    and leaves the store alone, whatever the knowledge sources answer by
    then. *)
Theorem enriched_answer_persists :
  forall (U : Unicode) (w w' : World) (cache : cache_store) (q : str),
    load_data w' = load_data w ->
    CACHE_TTL_DAYS w' = CACHE_TTL_DAYS w ->
    ((time_now w' - time_now w) / 86400 <= inject_Z (CACHE_TTL_DAYS w))%Q ->
    fst (get_cars w cache q) <> cache ->
    get_cars w' (fst (get_cars w cache q)) q = get_cars w cache q.
Proof.
  intros U w w' cache q Hd Hl Ha Hc.
  destruct (get_cars_cases w cache q) as [[r E]|[c0 [it [Hi [Hq [Hm E]]]]]].
  - rewrite E in Hc. simpl in Hc. congruence.
  - rewrite E. cbn [fst]. apply get_cars_after_set_query_later; assumption.
Qed.

Lemma enriched_answer_persists_witness :
  get_cars next_day_world
    (fst (get_cars sample_world [] py:"Nissan Skyline R34")) py:"Nissan Skyline R34"
  = get_cars sample_world [] py:"Nissan Skyline R34".
Proof.
  apply (enriched_answer_persists basic_tables sample_world next_day_world
           [] py:"Nissan Skyline R34").
  - reflexivity.
  - reflexivity.
  - vm_compute. discriminate.
  - vm_compute. discriminate.
Defined.

(** X16.  When the catalog has no match for a query that is not empty,
    the response is the empty list, or one item that is truthy, or the
    request ends in [AttributeError]; no other exception leaves the
    handler, [None] is never returned as an item, and the store changes
    only when an item is returned. *)
Theorem fallback_response_shapes :
  forall (U : Unicode) (w : World) (cache : cache_store) (q : str),
    is_empty q = false ->
    local_matches (load_data w) q = Ok [] ->
    get_cars w cache q = (cache, Ok [])
    \/ (exists c it, get_cars w cache q = (c, Ok [it]) /\ truthy it = true)
    \/ get_cars w cache q = (cache, Raise AttributeError).
Proof.
  intros U w cache q Hq Hm. unfold get_cars. rewrite Hq, Hm. simpl.
  destruct (truthy (_cache_get_query (CACHE_TTL_DAYS w) (time_now w) cache q)) eqn:Hc.
  { right. left. eauto. }
  assert (Hs : exists r, score_and_select w cache q = Ok r).
  { unfold score_and_select.
    destruct (is_empty (wiki_search_candidates w q 8)); [eexists; reflexivity|].
    destruct (score_loop_ok w cache (tokens q) (wiki_search_candidates w q 8) (None, -1))
      as [r Hr].
    rewrite Hr. eexists. reflexivity. }
  destruct Hs as [title Hs]. rewrite Hs. unfold enrich.
  destruct (top_hit_fallback w q title) as [t|]; [|right; right; reflexivity].
  assert (Hg : exists v, _cache_get (CACHE_TTL_DAYS w) (time_now w) cache (Some t) = Ok v).
  { unfold _cache_get. destruct (dict_get (lower t) cache); eexists; reflexivity. }
  destruct Hg as [cached Hg]. rewrite Hg.
  destruct (truthy cached) eqn:Hx.
  { right. left. eauto. }
  destruct (negb (some_nonempty (Some t))); [left; reflexivity|].
  destruct (wiki_fetch_summary w (or_empty (Some t))); [|left; reflexivity].
  right. left. eexists. eexists. split; reflexivity.
Qed.

Lemma fallback_response_shapes_witness :
  get_cars sample_world [] py:"zzz" = ([], Ok [])
  \/ (exists c it, get_cars sample_world [] py:"zzz" = (c, Ok [it]) /\ truthy it = true)
  \/ get_cars sample_world [] py:"zzz" = ([], Raise AttributeError).
Proof.
  apply (fallback_response_shapes basic_tables sample_world [] py:"zzz");
    vm_compute; reflexivity.
Defined.

(** ** Infobox rows *)

Lemma startswith_app (p s : str) : startswith p (p ++ s) = true.
Proof.
  induction p as [|a p IH]; simpl; [reflexivity|].
  rewrite N.eqb_refl. assumption.
Qed.

Lemma startswith_inv (p s : str) :
  startswith p s = true -> exists t, s = p ++ t.
Proof.
  revert s. induction p as [|a p IH]; intros s H; simpl in H.
  - exists s. reflexivity.
  - destruct s as [|b s]; [discriminate|].
    apply andb_true_iff in H. destruct H as [E H]. apply N.eqb_eq in E. subst b.
    destruct (IH s H) as [t Ht]. exists t. simpl. congruence.
Qed.

Lemma contains_iff (p s : str) :
  contains p s = true <-> exists a b, s = a ++ p ++ b.
Proof.
  split.
  - induction s as [|c s IH]; simpl; intros H.
    + rewrite orb_false_r in H. apply startswith_inv in H. destruct H as [t Ht].
      exists [], t. assumption.
    + apply orb_true_iff in H. destruct H as [H|H].
      * apply startswith_inv in H. destruct H as [t Ht]. exists [], t. assumption.
      * destruct (IH H) as [a [b E]]. exists (c :: a), b. simpl. congruence.
  - intros [a [b E]]. subst s. induction a as [|c a IH].
    + pose proof (startswith_app p b) as Hs. cbn [app].
      destruct (p ++ b); simpl; simpl in Hs; rewrite Hs; reflexivity.
    + simpl. rewrite IH. apply orb_true_r.
Qed.

Lemma contains_part (x p y s : str) :
  contains (x ++ p ++ y) s = true -> contains p s = true.
Proof.
  intros H. apply contains_iff in H. destruct H as [a [b E]].
  apply contains_iff. exists (a ++ x), (y ++ b). subst s.
  rewrite <- !app_assoc. reflexivity.
Qed.

(** X17.  Three alternatives of the chain never decide: a header stored
    as power contains [power] (and not only [horsepower]), one stored as
    drivetrain contains [drive], and one stored as production contains
    [production] or [model years] ([in production] adds nothing); and a
    header that mentions the engine is stored as engine whatever else it
    mentions. *)
Theorem spec_key_alternatives :
  forall key : str,
    (spec_key key = Some py:"power" ->
     contains py:"engine" key = false /\ contains py:"power" key = true)
    /\ (spec_key key = Some py:"drivetrain" -> contains py:"drive" key = true)
    /\ (spec_key key = Some py:"production" ->
        contains py:"production" key = true \/ contains py:"model years" key = true)
    /\ (contains py:"engine" key = true -> spec_key key = Some py:"engine").
Proof.
  intros key.
  assert (H1 : contains py:"horsepower" key = true -> contains py:"power" key = true)
    by (apply (contains_part py:"horse" py:"power" [])).
  assert (H2 : contains py:"drivetrain" key = true -> contains py:"drive" key = true)
    by (apply (contains_part [] py:"drive" py:"train")).
  assert (H3 : contains py:"in production" key = true ->
               contains py:"production" key = true)
    by (apply (contains_part py:"in " py:"production" [])).
  unfold spec_key.
  destruct (contains py:"engine" key);
    [repeat split; try discriminate; reflexivity|].
  destruct (contains py:"power" key);
    [repeat split; try discriminate; reflexivity|].
  destruct (contains py:"horsepower" key);
    [specialize (H1 eq_refl); discriminate|].
  cbn [orb].
  destruct (contains py:"displacement" key || contains py:"capacity" key);
    [repeat split; discriminate|].
  destruct (contains py:"torque" key); [repeat split; discriminate|].
  destruct (contains py:"transmission" key); [repeat split; discriminate|].
  destruct (contains py:"drive" key);
    [repeat split; try discriminate; reflexivity|].
  destruct (contains py:"drivetrain" key);
    [specialize (H2 eq_refl); discriminate|].
  cbn [orb].
  destruct (contains py:"weight" key); [repeat split; discriminate|].
  destruct (contains py:"production" key);
    [repeat split; try discriminate; left; reflexivity|].
  destruct (contains py:"model years" key);
    [repeat split; try discriminate; right; reflexivity|].
  destruct (contains py:"in production" key);
    [specialize (H3 eq_refl); discriminate|].
  repeat split; discriminate.
Qed.

Lemma spec_key_alternatives_witness :
  contains py:"engine" py:"max horsepower" = false
  /\ contains py:"power" py:"max horsepower" = true.
Proof.
  apply (proj1 (spec_key_alternatives py:"max horsepower")).
  vm_compute. reflexivity.
Defined.

Lemma spec_key_infobox (key k : str) : spec_key key = Some k -> In k INFOBOX_KEYS.
Proof.
  unfold spec_key, INFOBOX_KEYS.
  repeat match goal with
         | |- context [if ?c then _ else _] => destruct c
         end;
    intros H; try discriminate; apply Some_inj in H; subst k; simpl; tauto.
Qed.

Lemma dict_set_keys {V} (k : str) (v : V) (d : dict V) :
  NoDup (dict_keys d) ->
  NoDup (dict_keys (dict_set k v d))
  /\ forall x, In x (dict_keys (dict_set k v d)) -> x = k \/ In x (dict_keys d).
Proof.
  unfold dict_keys. induction d as [|[k' v'] r IH]; simpl; intros Hn.
  - split; [repeat constructor; intros [] | intros x [E|[]]; auto].
  - inversion Hn as [|a l Hk Hr E]; subst.
    destruct (str_eq_dec k k') as [E|E].
    + simpl. split; [assumption|]. intros x [Hx|Hx]; auto.
    + simpl. destruct (IH Hr) as [H1 H2]. split.
      * constructor; [|assumption]. intros Hin.
        destruct (H2 _ Hin) as [Hx|Hx]; [congruence | contradiction].
      * intros x [Hx|Hx]; [auto|]. destruct (H2 _ Hx); auto.
Qed.

Lemma infobox_fold_keys {U : Unicode} (rows : list infobox_row) :
  forall specs,
    NoDup (dict_keys specs) ->
    incl (dict_keys specs) INFOBOX_KEYS ->
    NoDup (dict_keys (fold_left infobox_step rows specs))
    /\ incl (dict_keys (fold_left infobox_step rows specs)) INFOBOX_KEYS.
Proof.
  induction rows as [|row rows IH]; intros specs Hn Hi; simpl; [auto|].
  apply IH.
  - unfold infobox_step. destruct row as [[h|] [v|]]; try assumption.
    destruct (spec_key (lower h)) as [k|]; [|assumption].
    apply dict_set_keys. assumption.
  - unfold infobox_step. destruct row as [[h|] [v|]]; try assumption.
    destruct (spec_key (lower h)) as [k|] eqn:E; [|assumption].
    intros x Hx. destruct (proj2 (dict_set_keys k (VStr v) specs Hn) x Hx) as [Ex|Ex].
    + subst x. eapply spec_key_infobox. eassumption.
    + apply Hi. assumption.
Qed.

Lemma last_of_app {A} (l : list A) (x : A) : last_of (l ++ [x]) = Some x.
Proof. unfold last_of. rewrite rev_app_distr. reflexivity. Qed.

Lemma infobox_fold_app {U : Unicode} (rows : list infobox_row) (row : infobox_row) :
  infobox_specs (rows ++ [row]) = infobox_step (infobox_specs rows) row.
Proof. unfold infobox_specs. rewrite fold_left_app. reflexivity. Qed.

(** X18.  The infobox loop stores under a key the text of the last row
    the chain puts under that key; it writes the eight raw keys only, each
    once, so the specs of a page have at most eight entries. *)
Theorem infobox_last_row_wins :
  forall (U : Unicode) (rows : list infobox_row) (k : str),
    dict_get k (infobox_specs rows) = option_map VStr (last_of (rows_for k rows))
    /\ incl (dict_keys (infobox_specs rows)) INFOBOX_KEYS
    /\ (List.length (infobox_specs rows) <= 8)%nat.
Proof.
  intros U rows k. split; [|split].
  - induction rows as [|row rows IH] using rev_ind; [reflexivity|].
    rewrite infobox_fold_app. unfold rows_for. rewrite flat_map_app.
    fold (rows_for k rows). cbn [flat_map]. rewrite app_nil_r.
    unfold infobox_step. destruct row as [[h|] [v|]];
      try (rewrite app_nil_r; exact IH).
    destruct (spec_key (lower h)) as [k'|]; [|rewrite app_nil_r; exact IH].
    destruct (str_eq_dec k' k) as [E|E].
    + subst k'. rewrite str_eqb_refl, dict_get_set_same, last_of_app. reflexivity.
    + rewrite str_eqb_neq by assumption.
      rewrite dict_get_set_other by congruence. rewrite app_nil_r. exact IH.
  - apply (infobox_fold_keys rows []); [constructor | intros x []].
  - destruct (infobox_fold_keys rows []) as [Hn Hi]; [constructor | intros x [] |].
    fold (infobox_specs rows) in Hn, Hi.
    pose proof (NoDup_incl_length Hn Hi) as Hl.
    unfold dict_keys in Hl. rewrite length_map in Hl. exact Hl.
Qed.

(** X19.  The slug of a synthesized item contains no space. *)
Theorem slug_has_no_space :
  forall (U : Unicode) (w : World) (title : str) (sm : summary),
  exists s,
    dict_get py:"slug" (synthesize w title sm) = Some (VStr s) /\ ~ In 32%N s.
Proof.
  intros U w title sm. eexists. split; [reflexivity|].
  generalize (lower (if some_nonempty (s_title sm) then or_empty (s_title sm) else title)).
  intros s. unfold replace_char. rewrite in_flat_map. intros [x [Hx Hin]].
  destruct (N.eqb_spec x 32) as [E|E].
  - destruct Hin as [H|[]]. discriminate.
  - destruct Hin as [H|[]]. congruence.
Qed.
